(** * Finalyze-AI: the bank-statement CSV parser ([src/utils/csvParser.ts])

    A shallow embedding of [parseCSV] and of the helpers it calls, with the
    properties of the specification stated and settled against it.

    Conventions of the embedding.
    - A JavaScript string is a Rocq [string]; each [ascii] stands for one
      UTF-16 code unit below 256 (the Latin-1 range).  [trim] and
      [toLowerCase] are the ECMAScript functions restricted to that range,
      which they map into itself.
    - A JavaScript number that holds a measurement (an amount, a sum) is an
      IEEE 754 binary64 value, [spec_float] with [prec = 53] and
      [emax = 1024]; indices, day numbers and time values are integers
      and are kept in [Z].
    - A [Date] is its time value, [option Z]: milliseconds since the epoch,
      [None] for the invalid date.
    - What the host decides (the clock, the time zone, [Date.parse] and the
      [Intl] formatting) is a record [Host] that every function takes.
    - An exception is an explicit [Throw] outcome.
    - A [Map] is an association list in insertion order.
    - The calls of [console.log] and [console.warn] are left out: they
      neither change the result nor throw.

    Contents: the definitions ([Str], the tokenizer, the header resolver,
    [Num], [Time], [Host], the parser, the week number); the facts they need
    ([NumFacts] on binary64 rounding and addition, [Tokenizer], [Resolver],
    [Buckets], [Loop], [Calendar], [Runs], [NumMore] on signs, [Cents] on
    whole numbers and [Math.round]); the properties C1 to C10; the
    scenarios of the specification evaluated on a reference host; further
    facts ([StrFacts], [Fields], [Headers], [Rows], [Order], [Dates],
    [Weeks], [WeekNumbers], [Labels]) and the further properties X1 to X25
    of the tokenizer, the resolver, the week functions and the parser. *)

From Stdlib Require Import ZArith Lia List Bool Ascii String Permutation Sorted.
From Stdlib Require Import Floats.SpecFloat DecimalString.
From Stdlib Require DecimalFacts DecimalPos.
Import ListNotations.

Local Open Scope string_scope.
Local Open Scope Z_scope.

(* ================================================================== *)
(** * Strings *)

Module Str.

Definition code (c : ascii) : Z := Z.of_N (N_of_ascii c).

(** ECMAScript WhiteSpace and LineTerminator code points below 256:
    TAB, LF, VT, FF, CR, SP and NBSP. *)
Definition isWhiteSpace (c : ascii) : bool :=
  let n := code c in
  ((9 <=? n) && (n <=? 13)) || (n =? 32) || (n =? 160).

Fixpoint trimStart (s : string) : string :=
  match s with
  | EmptyString => EmptyString
  | String c s' => if isWhiteSpace c then trimStart s' else s
  end.

Fixpoint trimEnd (s : string) : string :=
  match s with
  | EmptyString => EmptyString
  | String c s' =>
      match trimEnd s' with
      | EmptyString => if isWhiteSpace c then EmptyString else String c EmptyString
      | t => String c t
      end
  end.

(** [String.prototype.trim] *)
Definition trim (s : string) : string := trimEnd (trimStart s).

(** Unicode simple lower-casing on the Latin-1 range. *)
Definition toLowerChar (c : ascii) : ascii :=
  let n := code c in
  if ((65 <=? n) && (n <=? 90))
     || ((192 <=? n) && (n <=? 222) && negb (n =? 215))
  then ascii_of_N (Z.to_N (n + 32)) else c.

Fixpoint toLowerCase (s : string) : string :=
  match s with
  | EmptyString => EmptyString
  | String c s' => String (toLowerChar c) (toLowerCase s')
  end.

(** [s.includes(p)] *)
Fixpoint includes (s p : string) : bool :=
  prefix p s ||
  match s with
  | EmptyString => false
  | String _ s' => includes s' p
  end.

(** [s.split(sep)] for a one-character separator: never empty. *)
Fixpoint splitOn (sep : ascii) (s : string) : list string :=
  match s with
  | EmptyString => [EmptyString]
  | String c s' =>
      if Ascii.eqb c sep then EmptyString :: splitOn sep s'
      else match splitOn sep s' with
           | [] => [String c EmptyString]
           | x :: xs => String c x :: xs
           end
  end.

(** [s.replace(/[cs]/g, '')]: drops every character that [drop] selects. *)
Fixpoint removeChars (drop : ascii -> bool) (s : string) : string :=
  match s with
  | EmptyString => EmptyString
  | String c s' =>
      if drop c then removeChars drop s' else String c (removeChars drop s')
  end.

(** A JavaScript string is truthy when it is not empty. *)
Definition nonEmpty (s : string) : bool :=
  match s with EmptyString => false | _ => true end.

(** Code-unit order, the order of [localeCompare] on strings of digits and
    hyphens (the only strings the parser compares). *)
Fixpoint compareStr (a b : string) : comparison :=
  match a, b with
  | EmptyString, EmptyString => Eq
  | EmptyString, _ => Lt
  | _, EmptyString => Gt
  | String x a', String y b' =>
      match code x ?= code y with
      | Eq => compareStr a' b'
      | r => r
      end
  end.

End Str.
Import Str.

(* ================================================================== *)
(** * The field tokenizer: [parseCSVLine] (lines 73-101) *)

Definition quoteChar : ascii := Eval compute in ascii_of_N 34.
Definition commaChar : ascii := ","%char.

(** The [for] loop of [parseCSVLine].  [line] is the part of the line from
    index [i] on; the escaped-quote branch consumes two characters
    ([i++] in the body and again in the loop header). *)
Fixpoint parseCSVLine_loop (line current : string) (inQuotes : bool)
         (result : list string) {struct line} : list string :=
  match line with
  | EmptyString => result ++ [trim current]
  | String char rest =>
      if Ascii.eqb char quoteChar then
        match rest with
        | String nextChar rest' =>
            if inQuotes && Ascii.eqb nextChar quoteChar
            then parseCSVLine_loop rest' (current ++ String quoteChar EmptyString)
                                   inQuotes result
            else parseCSVLine_loop rest current (negb inQuotes) result
        | EmptyString => parseCSVLine_loop rest current (negb inQuotes) result
        end
      else if Ascii.eqb char commaChar && negb inQuotes then
        parseCSVLine_loop rest EmptyString inQuotes (result ++ [trim current])
      else
        parseCSVLine_loop rest (current ++ String char EmptyString) inQuotes result
  end.

Definition parseCSVLine (line : string) : list string :=
  parseCSVLine_loop line EmptyString false [].

(** The reference CSV writer of the specification: a field is wrapped in
    double quotes and every quote inside it is doubled. *)
Fixpoint doubleQuotes (field : string) : string :=
  match field with
  | EmptyString => EmptyString
  | String c s =>
      if Ascii.eqb c quoteChar
      then String quoteChar (String quoteChar (doubleQuotes s))
      else String c (doubleQuotes s)
  end.

Definition writeField (field : string) : string :=
  String quoteChar (doubleQuotes field ++ String quoteChar EmptyString).

(* ================================================================== *)
(** * The header resolver: [findColumnIndex] (lines 39-49) *)

(** [headers.indexOf(x)], [-1] when absent. *)
Fixpoint indexOf_from (i : Z) (headers : list string) (x : string) : Z :=
  match headers with
  | [] => -1
  | h :: t => if String.eqb h x then i else indexOf_from (i + 1) t x
  end.

Definition indexOf := indexOf_from 0.

(** [headers.findIndex(p)], [-1] when absent. *)
Fixpoint findIndex_from (i : Z) (p : string -> bool) (headers : list string) : Z :=
  match headers with
  | [] => -1
  | h :: t => if p h then i else findIndex_from (i + 1) p t
  end.

Definition findIndex := findIndex_from 0.

Definition normalizeHeader (header : string) : string :=
  trim (toLowerCase header).

(** The inner loop: does some pattern occur in the normalized header? *)
Definition headerMatches (patterns : list string) (header : string) : bool :=
  existsb (fun pattern => includes (normalizeHeader header) (toLowerCase pattern))
          patterns.

(** The outer loop runs over [rest], a suffix of [headers]. *)
Fixpoint findColumnIndex_loop (headers rest patterns : list string) : Z :=
  match rest with
  | [] => -1
  | header :: rest' =>
      if headerMatches patterns header then indexOf headers header
      else findColumnIndex_loop headers rest' patterns
  end.

Definition findColumnIndex (headers patterns : list string) : Z :=
  findColumnIndex_loop headers headers patterns.

Definition datePatterns := ["date"; "transaction date"; "posted"; "posted date"].
Definition amountPatterns := ["amount"].
Definition descPatterns := ["description"; "name"; "merchant"; "payee"; "details"].
Definition typePatterns :=
  ["type of transaction"; "trans type"; "transaction type"; "type";
   "debit/credit"; "dr/cr"].

(** Lines 146-159: the type column, with its fall-back to a header that is
    exactly [transaction]. *)
Definition isTransactionHeader (h : string) : bool :=
  String.eqb (trim (toLowerCase h)) "transaction".

Definition actualTypeColIndex (headers : list string) : Z :=
  let typeColIndex := findColumnIndex headers typePatterns in
  if typeColIndex =? -1 then findIndex isTransactionHeader headers
  else typeColIndex.

(* ================================================================== *)
(** * Numbers: IEEE 754 binary64 *)

Module Num.

Definition prec : Z := 53.
Definition emax : Z := 1024.

Definition number := spec_float.

Definition zero : number := S754_zero false.
Definition NaN : number := S754_nan.
Definition ofZ (n : Z) : number := binary_normalize prec emax n 0 false.

Definition add : number -> number -> number := SFadd prec emax.
Definition mul : number -> number -> number := SFmul prec emax.
Definition div : number -> number -> number := SFdiv prec emax.
Definition abs : number -> number := SFabs.
Definition leb : number -> number -> bool := SFleb.
Definition eqb : number -> number -> bool := SFeqb.

Definition isNaN (x : number) : bool :=
  match x with S754_nan => true | _ => false end.

(** A binary64 value: a finite number has its canonical mantissa and
    exponent. *)
Definition wellFormed (x : number) : bool := valid_binary prec emax x.

(** A binary64 value that is neither NaN nor negative nor the negative
    zero. *)
Definition nonNegative (x : number) : bool :=
  match x with
  | S754_zero s | S754_infinity s => negb s
  | S754_finite s _ _ => negb s && wellFormed x
  | S754_nan => false
  end.

(** ToBoolean on a number: zeros and NaN are falsy. *)
Definition truthy (x : number) : bool :=
  match x with S754_zero _ | S754_nan => false | _ => true end.

(** [Math.round]: the integer nearest to [x], ties towards plus infinity,
    that is the floor of [x + 1/2] computed exactly; a zero result keeps the
    sign of [x]. *)
Definition round (x : number) : number :=
  match x with
  | S754_finite s m e =>
      if 0 <=? e then x
      else
        let v := if s then Z.neg m else Z.pos m in
        binary_normalize prec emax ((2 * v + 2 ^ (- e)) / 2 ^ (1 - e)) 0 s
  | _ => x
  end.

(** The second half of [binary_round_aux]: the rounded mantissa is shifted
    once more when it has grown by a digit. *)
Definition finishRound (s : bool) (q E : Z) : spec_float :=
  let '(mrs, e) := shr_fexp prec emax q E loc_Exact in
  match shr_m mrs with
  | Z0 => S754_zero s
  | Zpos m => if e <=? emax - prec then S754_finite s m e else S754_infinity s
  | Zneg _ => S754_nan
  end.

(** The mathematical value [m * 10 ^ e10] of a decimal literal, rounded to
    the nearest binary64 value, ties to even. *)
Definition ofDecimal (neg : bool) (m e10 : Z) : number :=
  if m =? 0 then S754_zero neg
  else if 0 <=? e10 then
    binary_normalize prec emax ((if neg then - m else m) * 10 ^ e10) 0 false
  else
    let '(q, e, l) := SFdiv_core_binary prec emax m 0 (10 ^ (- e10)) 0 in
    binary_round_aux prec emax neg q e l.

Definition digitVal (c : ascii) : option Z :=
  let n := code c in
  if (48 <=? n) && (n <=? 57) then Some (n - 48) else None.

(** Reads the longest run of decimal digits: the digits appended to [acc],
    how many were read added to [count], and the rest of the string. *)
Fixpoint readDigits (s : string) (acc count : Z) : Z * Z * string :=
  match s with
  | EmptyString => (acc, count, s)
  | String c s' =>
      match digitVal c with
      | Some d => readDigits s' (10 * acc + d) (count + 1)
      | None => (acc, count, s)
      end
  end.

(** ExponentPart: [e] or [E], an optional sign, at least one digit.  The
    value is [0] when the text does not start with a whole exponent part,
    which is then not part of the literal. *)
Definition readExponent (s : string) : Z :=
  match s with
  | String c r =>
      if Ascii.eqb c "e"%char || Ascii.eqb c "E"%char then
        let '(neg, r') :=
          match r with
          | String "-"%char t => (true, t)
          | String "+"%char t => (false, t)
          | _ => (false, r)
          end in
        let '(v, n, _) := readDigits r' 0 0 in
        if n =? 0 then 0 else if neg then - v else v
      else 0
  | EmptyString => 0
  end.

(** [parseFloat]: the longest prefix of the input, leading white space
    skipped, that is a StrDecimalLiteral; [NaN] when there is none. *)
Definition parseFloat (input : string) : number :=
  let s := trimStart input in
  let '(neg, s1) :=
    match s with
    | String "-"%char r => (true, r)
    | String "+"%char r => (false, r)
    | _ => (false, s)
    end in
  if prefix "Infinity" s1 then S754_infinity neg
  else
    let '(m1, n1, s2) := readDigits s1 0 0 in
    let '(m2, n2, s3) :=
      match s2 with
      | String "."%char r => readDigits r m1 0
      | _ => (m1, 0, s2)
      end in
    if n1 + n2 =? 0 then NaN
    else ofDecimal neg m2 (readExponent s3 - n2).

End Num.
Import Num.

(* ================================================================== *)
(** * Dates: ECMAScript time values *)

Module Time.

Definition msPerDay : Z := 86400000.
Definition maxTime : Z := 8640000000000000.

(** A [Date] object is its time value; [None] is the invalid date (NaN). *)
Definition Date := option Z.

Definition TimeClip (t : Z) : Date :=
  if (- maxTime <=? t) && (t <=? maxTime) then Some t else None.

Definition Day (t : Z) : Z := t / msPerDay.
Definition TimeWithinDay (t : Z) : Z := t mod msPerDay.
Definition WeekDay (t : Z) : Z := (Day t + 4) mod 7.

(** The proleptic Gregorian calendar on day numbers (day 0 is 1970-01-01),
    computed on 400-year eras that start on a 1st of March.  The month is
    1-based here; [MonthFromTime] is 0-based. *)
Definition civilFromDays (z : Z) : Z * Z * Z :=
  let z := z + 719468 in
  let era := z / 146097 in
  let doe := z mod 146097 in
  let yoe := (doe - doe / 1460 + doe / 36524 - doe / 146096) / 365 in
  let doy := doe - (365 * yoe + yoe / 4 - yoe / 100) in
  let mp := (5 * doy + 2) / 153 in
  let d := doy - (153 * mp + 2) / 5 + 1 in
  let m := if mp <? 10 then mp + 3 else mp - 9 in
  let y := yoe + era * 400 + (if m <=? 2 then 1 else 0) in
  (y, m, d).

Definition daysFromCivil (y m d : Z) : Z :=
  let y := if m <=? 2 then y - 1 else y in
  let era := y / 400 in
  let yoe := y mod 400 in
  let doy := (153 * (if 2 <? m then m - 3 else m + 9) + 2) / 5 + d - 1 in
  let doe := yoe * 365 + yoe / 4 - yoe / 100 + doy in
  era * 146097 + doe - 719468.

Definition YearFromTime (t : Z) : Z := fst (fst (civilFromDays (Day t))).
Definition MonthFromTime (t : Z) : Z := snd (fst (civilFromDays (Day t))) - 1.
Definition DateFromTime (t : Z) : Z := snd (civilFromDays (Day t)).

(** [MakeDay(year, month, date)] for a month in 0..11 and [MakeDate]. *)
Definition MakeDay (year month date : Z) : Z :=
  daysFromCivil year (month + 1) 1 + date - 1.
Definition MakeDate (day time : Z) : Z := day * msPerDay + time.

(** ** Number and date formatting *)

(** [String(n)] for an integer. *)
Definition stringOfZ (n : Z) : string :=
  DecimalString.NilZero.string_of_int (Z.to_int n).

Fixpoint zeros (n : nat) : string :=
  match n with O => EmptyString | S k => String "0"%char (zeros k) end.

(** [s.padStart(width, '0')] *)
Definition padStart0 (width : nat) (s : string) : string :=
  zeros (width - String.length s) ++ s.

(** [Date.prototype.toISOString] on a valid time value: four digits for the
    years 0 to 9999, a sign and six digits otherwise. *)
Definition isoYear (y : Z) : string :=
  if (0 <=? y) && (y <=? 9999) then padStart0 4 (stringOfZ y)
  else (if y <? 0 then "-" else "+") ++ padStart0 6 (stringOfZ (Z.abs y)).

Definition isoString (t : Z) : string :=
  let w := TimeWithinDay t in
  isoYear (YearFromTime t) ++ "-" ++ padStart0 2 (stringOfZ (MonthFromTime t + 1))
    ++ "-" ++ padStart0 2 (stringOfZ (DateFromTime t))
    ++ "T" ++ padStart0 2 (stringOfZ (w / 3600000))
    ++ ":" ++ padStart0 2 (stringOfZ (w / 60000 mod 60))
    ++ ":" ++ padStart0 2 (stringOfZ (w / 1000 mod 60))
    ++ "." ++ padStart0 3 (stringOfZ (w mod 1000)) ++ "Z".

End Time.
Import Time.

(* ================================================================== *)
(** * The host: what the JavaScript runtime decides *)

(** The parser reads the clock ([new Date()]), the local time zone ([getDay],
    [getDate], [setDate]), [Date.parse] ([new Date(string)]) and two [Intl]
    formats.  None of them is code of the repository. *)
Record Host := {
  (** the time value of [new Date()] *)
  now : Z;
  (** [LocalTZA(t, isUTC)]: the offset of local time, in milliseconds *)
  LocalTZA : Z -> bool -> Z;
  (** [Date.parse]; [None] is NaN *)
  dateParse : string -> option Z;
  (** [toLocaleString('en-US', { year: 'numeric', month: 'long' })] *)
  monthYearLabel : Z -> string;
  (** [toLocaleDateString('en-US', { month: 'short', day: 'numeric' })] *)
  monthDayLabel : Z -> string
}.

Inductive Exception := RangeError (message : string).

Inductive Outcome (A : Type) :=
| Ok (value : A)
| Throw (e : Exception).
Arguments Ok {A} value.
Arguments Throw {A} e.

Definition bind {A B : Type} (x : Outcome A) (k : A -> Outcome B) : Outcome B :=
  match x with Ok a => k a | Throw e => Throw e end.

Notation "'do' x <- e ; k" := (bind e (fun x => k))
  (at level 10, x name, e at level 100, k at level 200).

Section DateObjects.
Variable h : Host.

Definition LocalTime (t : Z) : Z := t + LocalTZA h t true.
Definition UTC (t : Z) : Z := t - LocalTZA h t false.

(** [new Date()], [new Date(string)] and [new Date(number)] *)
Definition newDateNow : Date := TimeClip (now h).
Definition newDateParse (s : string) : Date :=
  match dateParse h s with Some t => TimeClip t | None => None end.
Definition newDateValue (v : Date) : Date :=
  match v with Some t => TimeClip t | None => None end.

Definition getDay (t : Z) : Z := WeekDay (LocalTime t).
Definition getDate (t : Z) : Z := DateFromTime (LocalTime t).

(** [d.setDate(dt)]: the new time value, which is also what it returns. *)
Definition setDate (t dt : Z) : Date :=
  let tl := LocalTime t in
  let newDate :=
    MakeDate (MakeDay (YearFromTime tl) (MonthFromTime tl) dt) (TimeWithinDay tl) in
  TimeClip (UTC newDate).

(** [toISOString] throws a RangeError on the invalid date. *)
Definition toISOString (d : Date) : Outcome string :=
  match d with
  | Some t => Ok (isoString t)
  | None => Throw (RangeError "Invalid time value")
  end.

(** [getWeekStart] (lines 63-68) *)
Definition getWeekStart (date : Date) : Date :=
  match date with
  | None => None
  | Some d =>
      let day := getDay d in
      let diff := getDate d - day + (if day =? 0 then -6 else 1) in
      newDateValue (setDate d diff)
  end.
End DateObjects.

(* ================================================================== *)
(** * A reference host *)

(** A host with a fixed offset from UTC, whose [Date.parse] reads the
    ECMAScript date-time format in its forms [YYYY-MM-DD] and
    [YYYY-MM-DDTHH:mm:ss.sssZ] (years of four digits, or a sign and six
    digits) and the month labels it prints itself.  It instantiates the
    statements below on concrete inputs. *)
Module Reference.

Definition longMonths :=
  ["January"; "February"; "March"; "April"; "May"; "June"; "July"; "August";
   "September"; "October"; "November"; "December"].
Definition shortMonths :=
  ["Jan"; "Feb"; "Mar"; "Apr"; "May"; "Jun"; "Jul"; "Aug"; "Sep"; "Oct"; "Nov"; "Dec"].

(** Exactly [n] decimal digits. *)
Fixpoint readFixed (n : nat) (s : string) (acc : Z) : option (Z * string) :=
  match n with
  | O => Some (acc, s)
  | S k =>
      match s with
      | String c r =>
          match digitVal c with
          | Some d => readFixed k r (10 * acc + d)
          | None => None
          end
      | EmptyString => None
      end
  end.

Definition expect (c : ascii) (s : string) : option string :=
  match s with
  | String x r => if Ascii.eqb x c then Some r else None
  | EmptyString => None
  end.

Definition optBind {A B} (x : option A) (k : A -> option B) : option B :=
  match x with Some a => k a | None => None end.
Notation "'let?' x := e 'in' k" := (optBind e (fun x => k))
  (at level 10, x pattern, e at level 100, k at level 200).

Definition daysInMonth (y m : Z) : Z :=
  (if m =? 12 then daysFromCivil (y + 1) 1 1 else daysFromCivil y (m + 1) 1)
  - daysFromCivil y m 1.

Definition parseYear (s : string) : option (Z * string) :=
  match s with
  | String "+"%char r => readFixed 6 r 0
  | String "-"%char r =>
      let? (y, r') := readFixed 6 r 0 in
      if y =? 0 then None else Some (- y, r')
  | _ => readFixed 4 s 0
  end.

Definition parseClock (s : string) : option Z :=
  let? s := expect "T"%char s in
  let? (hh, s) := readFixed 2 s 0 in
  let? s := expect ":"%char s in
  let? (mm, s) := readFixed 2 s 0 in
  let? s := expect ":"%char s in
  let? (ss, s) := readFixed 2 s 0 in
  let? s := expect "."%char s in
  let? (ms, s) := readFixed 3 s 0 in
  let? s := expect "Z"%char s in
  if (hh <? 24) && (mm <? 60) && (ss <? 60) && negb (nonEmpty s)
  then Some (((hh * 60 + mm) * 60 + ss) * 1000 + ms) else None.

Definition parseIso (s : string) : option Z :=
  let? (y, s) := parseYear s in
  let? s := expect "-"%char s in
  let? (m, s) := readFixed 2 s 0 in
  let? s := expect "-"%char s in
  let? (d, s) := readFixed 2 s 0 in
  if (1 <=? m) && (m <=? 12) && (1 <=? d) && (d <=? daysInMonth y m) then
    match s with
    | EmptyString => Some (MakeDate (daysFromCivil y m d) 0)
    | _ => let? w := parseClock s in Some (MakeDate (daysFromCivil y m d) w)
    end
  else None.

(** [Month YYYY], read as local midnight on the first of the month. *)
Fixpoint parseMonthName (names : list string) (i : Z) (s : string) : option (Z * string) :=
  match names with
  | [] => None
  | n :: rest =>
      if prefix (n ++ " ") s
      then Some (i, substring (String.length n + 1) (String.length s) s)
      else parseMonthName rest (i + 1) s
  end.

Definition parseMonthYear (offset : Z) (s : string) : option Z :=
  let? (m, r) := parseMonthName longMonths 0 s in
  let '(y, n, rest) := readDigits r 0 0 in
  if (0 <? n) && negb (nonEmpty rest)
  then Some (MakeDate (MakeDay y m 1) 0 - offset) else None.

Definition monthName (names : list string) (m : Z) : string :=
  nth (Z.to_nat m) names EmptyString.

Definition host (offset clock : Z) : Host := {|
  now := clock;
  LocalTZA := fun _ _ => offset;
  dateParse := fun s =>
    match parseIso s with
    | Some t => Some t
    | None => parseMonthYear offset s
    end;
  monthYearLabel := fun t =>
    monthName longMonths (MonthFromTime (t + offset)) ++ " "
      ++ stringOfZ (YearFromTime (t + offset));
  monthDayLabel := fun t =>
    monthName shortMonths (MonthFromTime (t + offset)) ++ " "
      ++ stringOfZ (DateFromTime (t + offset))
|}.

(** A host on UTC, and one five hours west of it, both with the clock at
    2024-06-15T12:00:00Z. *)
Definition utc : Host := host 0 1718452800000.
Definition west5 : Host := host (-18000000) 1718452800000.

End Reference.

(* ================================================================== *)
(** * The parser: [parseCSV] (lines 106-316) *)

Record ParsedTransaction := {
  date : string;
  description : string;
  amount : number
}.

(** [MonthlySpending], [DailySpending] and [WeeklySpending] are the same
    interface under three names. *)
Record SpendingEntry := {
  name : string;
  spending : number
}.
Definition MonthlySpending := SpendingEntry.
Definition DailySpending := SpendingEntry.
Definition WeeklySpending := SpendingEntry.

Record CSVParseResult := {
  transactions : list ParsedTransaction;
  monthlySpending : list MonthlySpending;
  dailySpending : list DailySpending;
  weeklySpending : list WeeklySpending;
  totalSpending : number;
  transactionCount : Z
}.

Definition emptyResult : CSVParseResult := {|
  transactions := [];
  monthlySpending := [];
  dailySpending := [];
  weeklySpending := [];
  totalSpending := zero;
  transactionCount := 0
|}.

(** ** JavaScript [Map]s: keys in insertion order *)

Section Maps.
Context {V : Type}.

Fixpoint mapGet (m : list (string * V)) (k : string) : option V :=
  match m with
  | [] => None
  | (k', v) :: rest => if String.eqb k' k then Some v else mapGet rest k
  end.

(** [set] keeps the position of a key that is already present. *)
Fixpoint mapSet (m : list (string * V)) (k : string) (v : V) : list (string * V) :=
  match m with
  | [] => [(k, v)]
  | (k', v') :: rest =>
      if String.eqb k' k then (k', v) :: rest else (k', v') :: mapSet rest k v
  end.
End Maps.

(** [(map.get(key) || 0)] *)
Definition getOrZero (m : list (string * number)) (k : string) : number :=
  match mapGet m k with
  | Some v => if truthy v then v else zero
  | None => zero
  end.

(** ** The columns found in the header (lines 120-159) *)

Record Columns := {
  dateColIndex : Z;
  amountColIndex : Z;
  descColIndex : Z;
  typeColIndex : Z     (* [actualTypeColIndex] *)
}.

Definition resolveColumns (headers : list string) : Columns := {|
  dateColIndex := findColumnIndex headers datePatterns;
  amountColIndex := findColumnIndex headers amountPatterns;
  descColIndex := findColumnIndex headers descPatterns;
  typeColIndex := actualTypeColIndex headers
|}.

(** [fields[i]?.trim() || ''] *)
Definition fieldAt (fields : list string) (i : Z) : string :=
  if i <? 0 then EmptyString
  else match nth_error fields (Z.to_nat i) with
       | Some f => trim f
       | None => EmptyString
       end.

Definition isDollarOrComma (c : ascii) : bool :=
  Ascii.eqb c "$"%char || Ascii.eqb c ","%char.

(** ** The state of the loop (lines 182-186) *)

Record WeekData := {
  weekSpending : number;    (* [spending] *)
  startDate : Z             (* a valid [Date] *)
}.

Record LoopState := {
  st_transactions : list ParsedTransaction;
  monthlyMap : list (string * number);
  dailyMap : list (string * number);
  weeklyMap : list (string * WeekData);
  st_totalSpending : number
}.

Definition initialState : LoopState := {|
  st_transactions := [];
  monthlyMap := [];
  dailyMap := [];
  weeklyMap := [];
  st_totalSpending := zero
|}.

(** Lines 203-207: the amount field without [$] and [,], parsed. *)
Definition parseAmount (amountStr : string) : number :=
  let cleanAmount := trim (removeChars isDollarOrComma amountStr) in
  parseFloat cleanAmount.

(** Lines 189-223, the part of the loop body that does not look at the
    host: the field-count, amount and type checks.  [None] is [continue];
    otherwise the date field, the description and the absolute amount. *)
Definition checkRow (cols : Columns) (rawLine : string)
  : option (string * string * number) :=
  let line := trim rawLine in
  if negb (nonEmpty line) then None else
  let fields := parseCSVLine line in
  if Z.of_nat (List.length fields) <=? Z.max (dateColIndex cols) (amountColIndex cols)
  then None else
  let dateStr := fieldAt fields (dateColIndex cols) in
  let amountStr := fieldAt fields (amountColIndex cols) in
  let desc :=
    if 0 <=? descColIndex cols then fieldAt fields (descColIndex cols)
    else EmptyString in
  let typeStr :=
    if 0 <=? typeColIndex cols
    then toLowerCase (fieldAt fields (typeColIndex cols))
    else EmptyString in
  let amount := parseAmount amountStr in
  if isNaN amount then None else
  if (0 <=? typeColIndex cols) && negb (String.eqb typeStr "debit") then None else
  let spendingAmount := abs amount in
  Some (dateStr, desc, spendingAmount).

(** What the first part of the loop body decides for a row. *)
Inductive RowOutcome :=
| Discard                                                  (* [continue] *)
| Keep (date : Date) (desc : string) (spendingAmount : number).

Section Parser.
Variable h : Host.

(** Lines 189-232: [checkRow], then the date (lines 225-232): the clock
    when the date field is empty, [continue] when it does not parse. *)
Definition normalizeRow (cols : Columns) (rawLine : string) : RowOutcome :=
  match checkRow cols rawLine with
  | None => Discard
  | Some (dateStr, desc, spendingAmount) =>
      if nonEmpty dateStr then
        match newDateParse h dateStr with
        | None => Discard
        | Some t => Keep (Some t) desc spendingAmount
        end
      else Keep (newDateNow h) desc spendingAmount
  end.

(** The key of the daily map (lines 247-250). *)
Definition dayKey (t : Z) : string :=
  stringOfZ (YearFromTime t) ++ "-"
    ++ padStart0 2 (stringOfZ (MonthFromTime t + 1)) ++ "-"
    ++ padStart0 2 (stringOfZ (DateFromTime t)).

(** [iso.split('T')[0]] *)
Definition datePart (iso : string) : string :=
  hd EmptyString (splitOn "T"%char iso).

(** Lines 234-262: the row is stored and added to the three maps and to
    the total.  Both calls of [toISOString] can throw. *)
Definition accumulate (st : LoopState) (date : Date) (desc : string)
           (spendingAmount : number) : Outcome LoopState :=
  do iso <- toISOString date;
  match date with
  | None => Throw (RangeError "Invalid time value")
  | Some t =>
      let transactions' :=
        (st_transactions st
          ++ [{| date := datePart iso; description := desc;
                 amount := spendingAmount |}])%list in
      let monthKey := monthYearLabel h t in
      let monthlyMap' :=
        mapSet (monthlyMap st) monthKey
               (add (getOrZero (monthlyMap st) monthKey) spendingAmount) in
      let dayKeyForMap := dayKey t in
      let dailyMap' :=
        mapSet (dailyMap st) dayKeyForMap
               (add (getOrZero (dailyMap st) dayKeyForMap) spendingAmount) in
      let weekStart := getWeekStart h date in
      do weekIso <- toISOString weekStart;
      match weekStart with
      | None => Throw (RangeError "Invalid time value")
      | Some ws =>
          let weekKey := datePart weekIso in
          let weekData :=
            match mapGet (weeklyMap st) weekKey with
            | Some wd => wd
            | None => {| weekSpending := zero; startDate := ws |}
            end in
          let weeklyMap' :=
            mapSet (weeklyMap st) weekKey
                   {| weekSpending := add (weekSpending weekData) spendingAmount;
                      startDate := startDate weekData |} in
          Ok {| st_transactions := transactions';
                monthlyMap := monthlyMap';
                dailyMap := dailyMap';
                weeklyMap := weeklyMap';
                st_totalSpending := add (st_totalSpending st) spendingAmount |}
      end
  end.

(** One iteration of the loop of lines 188-263. *)
Definition processLine (cols : Columns) (st : LoopState) (rawLine : string)
  : Outcome LoopState :=
  match normalizeRow cols rawLine with
  | Discard => Ok st
  | Keep date desc spendingAmount => accumulate st date desc spendingAmount
  end.

Fixpoint processLines (cols : Columns) (st : LoopState) (lines : list string)
  : Outcome LoopState :=
  match lines with
  | [] => Ok st
  | l :: rest => do st' <- processLine cols st l; processLines cols st' rest
  end.

(** ** The result assembler (lines 265-315) *)

(** [Array.prototype.sort] as a stable insertion sort; [gt a b] says that
    the comparator returned a positive number on [(a, b)]. *)
Section Sort.
Context {A : Type} (gt : A -> A -> bool).
Fixpoint insertSorted (x : A) (l : list A) : list A :=
  match l with
  | [] => [x]
  | y :: rest => if gt y x then x :: l else y :: insertSorted x rest
  end.
Definition sortBy (l : list A) : list A :=
  fold_left (fun acc x => insertSorted x acc) l [].
End Sort.

(** [a - b > 0] for two time values, false when either is NaN. *)
Definition laterThan (a b : Date) : bool :=
  match a, b with
  | Some x, Some y => y <? x
  | _, _ => false
  end.

Definition assembleMonthly (m : list (string * number)) : list MonthlySpending :=
  sortBy (fun a b => laterThan (newDateParse h (name a)) (newDateParse h (name b)))
         (map (fun kv => {| name := fst kv; spending := snd kv |}) m).

Definition monthNames :=
  ["Jan"; "Feb"; "Mar"; "Apr"; "May"; "Jun"; "Jul"; "Aug"; "Sep"; "Oct"; "Nov"; "Dec"].

(** The label of a day (lines 279-284); an unparsable key prints as the
    absent month and the NaN day. *)
Definition dayLabel (dateKey : string) : string :=
  match newDateParse h dateKey with
  | Some t =>
      nth (Z.to_nat (MonthFromTime t)) monthNames "undefined" ++ " "
        ++ stringOfZ (DateFromTime t)
  | None => "undefined NaN"
  end.

Definition assembleDaily (m : list (string * number)) : list DailySpending :=
  map (fun e => {| name := fst (snd e); spending := snd (snd e) |})
      (sortBy (fun a b => match compareStr (fst a) (fst b) with Gt => true | _ => false end)
              (map (fun kv => (fst kv, (dayLabel (fst kv), snd kv))) m)).

(** The label of a week (lines 295-300). *)
Definition weekLabel (wd : WeekData) : string :=
  let weekEnd := setDate h (startDate wd) (getDate h (startDate wd) + 6) in
  let endDay :=
    match weekEnd with
    | Some t => stringOfZ (getDate h t)
    | None => "NaN"
    end in
  monthDayLabel h (startDate wd) ++ " - " ++ endDay.

Definition assembleWeekly (m : list (string * WeekData)) : list WeeklySpending :=
  map (fun e => {| name := fst (snd e); spending := snd (snd e) |})
      (sortBy (fun a b => fst b <? fst a)
              (map (fun kv => (startDate (snd kv),
                               (weekLabel (snd kv), weekSpending (snd kv)))) m)).

(** [Math.round(totalSpending * 100) / 100] *)
Definition roundToCents (x : number) : number :=
  div (Num.round (mul x (ofZ 100))) (ofZ 100).

Definition assemble (st : LoopState) : CSVParseResult := {|
  transactions := st_transactions st;
  monthlySpending := assembleMonthly (monthlyMap st);
  dailySpending := assembleDaily (dailyMap st);
  weeklySpending := assembleWeekly (weeklyMap st);
  totalSpending := roundToCents (st_totalSpending st);
  transactionCount := Z.of_nat (List.length (st_transactions st))
|}.

(** [csvContent.split('\n').filter(line => line.trim())] *)
Definition newline : ascii := "010"%char.
Definition nonBlank (line : string) : bool := nonEmpty (trim line).
Definition contentLines (csvContent : string) : list string :=
  filter nonBlank (splitOn newline csvContent).

(** The body of [parseCSV] once the lines are split. *)
Definition parseLines (lines : list string) : Outcome CSVParseResult :=
  match lines with
  | [] | [_] => Ok emptyResult
  | headerLine :: dataLines =>
      let headers := parseCSVLine headerLine in
      let cols := resolveColumns headers in
      if (dateColIndex cols =? -1) || (amountColIndex cols =? -1)
      then Ok emptyResult
      else
        do st <- processLines cols initialState dataLines;
        Ok (assemble st)
  end.

Definition parseCSV (csvContent : string) : Outcome CSVParseResult :=
  parseLines (contentLines csvContent).
End Parser.

Definition nl : string := String newline EmptyString.

(* ================================================================== *)
(** * The week number: [getWeekNumber] (lines 54-58) *)

(** [Math.ceil]: the least integer that is not below [x]; a zero result
    keeps the sign of [x]. *)
Definition ceil (x : number) : number :=
  match x with
  | S754_finite s m e =>
      if 0 <=? e then x
      else
        let v := if s then Z.neg m else Z.pos m in
        binary_normalize prec emax (- ((- v) / 2 ^ (- e))) 0 s
  | _ => x
  end.

Section WeekNumber.
Variable h : Host.

(** [date.getFullYear()] *)
Definition getFullYear (t : Z) : Z := YearFromTime (LocalTime h t).

(** [new Date(year, month, day)] for a month in 0..11: the local midnight
    of that day; the years 0 to 99 stand for 1900 to 1999. *)
Definition newDateLocal (year month day : Z) : Date :=
  let yr := if (0 <=? year) && (year <=? 99) then 1900 + year else year in
  TimeClip (UTC h (MakeDate (MakeDay yr month day) 0)).

(** The function is not called by [parseCSV].  The difference of the two
    time values, its quotient by the length of a day and the sums of line 57
    are binary64 numbers. *)
Definition getWeekNumber (date : Date) : number :=
  match date with
  | None => NaN
  | Some t =>
      match newDateLocal (getFullYear t) 0 1 with
      | None => NaN
      | Some firstDayOfYear =>
          let pastDaysOfYear := div (ofZ (t - firstDayOfYear)) (ofZ 86400000) in
          ceil (div (add (add pastDaysOfYear (ofZ (getDay h firstDayOfYear))) (ofZ 1))
                    (ofZ 7))
      end
  end.
End WeekNumber.

(* ================================================================== *)
(** * Notions used to state the properties *)

(** The same host with another clock. *)
Definition withNow (h : Host) (clock : Z) : Host := {|
  now := clock;
  LocalTZA := LocalTZA h;
  dateParse := dateParse h;
  monthYearLabel := monthYearLabel h;
  monthDayLabel := monthDayLabel h
|}.

(** The sum of a list of numbers, added from left to right as the loop
    does. *)
Definition sumOf (l : list number) : number := fold_left add l zero.

(** The sum of the amounts filed under [key], in input order. *)
Definition bucket (rows : list (string * number)) (key : string) : number :=
  sumOf (map snd (filter (fun r => String.eqb (fst r) key) rows)).

(** One sum per distinct key. *)
Definition bucketSums (rows : list (string * number)) : list number :=
  map (bucket rows) (nodup string_dec (map fst rows)).

(** The rows that reach the accumulation: time value and amount, in input
    order. *)
Definition keptRows (h : Host) (cols : Columns) (lines : list string)
  : list (Z * number) :=
  flat_map (fun l => match normalizeRow h cols l with
                     | Keep (Some t) _ a => [(t, a)]
                     | _ => []
                     end) lines.

(** The rows filed under their month, day and week keys. *)
Definition monthRows (h : Host) (rows : list (Z * number)) : list (string * number) :=
  map (fun r => (monthYearLabel h (fst r), snd r)) rows.
Definition dayRows (rows : list (Z * number)) : list (string * number) :=
  map (fun r => (dayKey (fst r), snd r)) rows.

(** The data rows of a text and the columns of its header. *)
Definition dataLines (csvContent : string) : list string :=
  tl (contentLines csvContent).
Definition columnsOf (csvContent : string) : Columns :=
  resolveColumns (parseCSVLine (hd EmptyString (contentLines csvContent))).

(** The key of the weekly map for a time value (lines 254-255). *)
Definition weekKeyOf (h : Host) (t : Z) : string :=
  match getWeekStart h (Some t) with
  | Some ws => datePart (isoString ws)
  | None => EmptyString
  end.

Definition weekRows (h : Host) (rows : list (Z * number)) : list (string * number) :=
  map (fun r => (weekKeyOf h (fst r), snd r)) rows.

(** The rows that [parseCSV] keeps: none when it returns early. *)
Definition survivors (h : Host) (csvContent : string) : list (Z * number) :=
  let cols := columnsOf csvContent in
  if (dateColIndex cols =? -1) || (amountColIndex cols =? -1) then []
  else keptRows h cols (dataLines csvContent).

(** A record written by the reference writer: the fields, each quoted,
    separated by commas. *)
Fixpoint writeRecord (first : string) (others : list string) : string :=
  match others with
  | [] => writeField first
  | f :: rest => writeField first ++ String commaChar (writeRecord f rest)
  end.

(** The running sum of a bucket, [0] before its first row. *)
Definition valueAt (m : list (string * number)) (k : string) : number :=
  match mapGet m k with Some v => v | None => zero end.
Definition weekValueAt (m : list (string * WeekData)) (k : string) : number :=
  match mapGet m k with Some wd => weekSpending wd | None => zero end.

(** ** Invariants of the loop *)

Definition amountsNonNegative (rows : list (string * number)) : Prop :=
  Forall (fun r => nonNegative (snd r) = true) rows.

(** A map that holds one running sum per key of [rows]. *)
Record holds (m : list (string * number)) (rows : list (string * number)) : Prop := {
  holds_NoDup : NoDup (map fst m);
  holds_keys : forall k, In k (map fst m) <-> In k (map fst rows);
  holds_value : forall k v, mapGet m k = Some v -> v = bucket rows k
}.

(** The state of the loop after the rows [rows] have been accumulated. *)
Record aggregates (h : Host) (rows : list (Z * number)) (st : LoopState) : Prop := {
  agg_amounts : map amount (st_transactions st) = map snd rows;
  agg_total : st_totalSpending st = sumOf (map snd rows);
  agg_monthly : holds (monthlyMap st) (monthRows h rows);
  agg_daily : holds (dailyMap st) (dayRows rows);
  agg_weekly :
    holds (map (fun kv => (fst kv, weekSpending (snd kv))) (weeklyMap st))
          (weekRows h rows);
  agg_nonNegative : Forall (fun r => nonNegative (snd r) = true) rows
}.

(** The first of the rows [rows] whose week key is [key] has the week start
    [start]. *)
Definition startsWeek (h : Host) (rows : list (Z * number)) (key : string) (start : Z)
  : Prop :=
  exists before t a after,
    rows = (before ++ (t, a) :: after)%list
    /\ weekKeyOf h t = key
    /\ (forall row, In row before -> weekKeyOf h (fst row) <> key)
    /\ getWeekStart h (Some t) = Some start.

(** [c] is the integer nearest to [m * 2 ^ e], the larger of the two at a
    tie: [c - 1/2 <= m * 2 ^ e < c + 1/2], with the powers of two
    cleared. *)
Definition isNearestInteger (m e c : Z) : Prop :=
  (2 * c - 1) * 2 ^ Z.max 0 (- e) <= 2 * m * 2 ^ Z.max 0 e
  < (2 * c + 1) * 2 ^ Z.max 0 (- e).

(** ** Inputs of the scenarios of the specification *)

Definition scenarioA : string :=
  "Date,Description,Amount" ++ nl ++ "2024-01-05,Coffee,-4.50" ++ nl
    ++ "2024-01-20,Rent,1200.00".
Definition scenarioB : string :=
  "Posted Date,Merchant,Amount,Type" ++ nl ++ "2024-02-01,Gym,30.00,debit" ++ nl
    ++ "2024-02-02,Refund,30.00,credit".
Definition scenarioB_debit_only : string :=
  "Posted Date,Merchant,Amount,Type" ++ nl ++ "2024-02-01,Gym,30.00,debit".
Definition scenarioB_untyped : string :=
  "Posted Date,Merchant,Amount" ++ nl ++ "2024-02-01,Gym,30.00" ++ nl
    ++ "2024-02-02,Refund,30.00".
Definition scenarioC : string :=
  "Date,Amount" ++ nl ++ "2024-01-10,"
    ++ String quoteChar ("1,234.56" ++ String quoteChar EmptyString).
Definition scenarioD : string := "Date,Description,Amount".
Definition scenarioE : string :=
  "Date,Amount" ++ nl ++ "2024-03-04,10" ++ nl ++ "2024-03-10,20".

(** A row of 0.125, which is 0.13 once rounded. *)
Definition eighthInput : string := "Date,Amount" ++ nl ++ "2024-03-04,0.125".

(** The earliest date that a [Date] can hold. *)
Definition earliestDateInput : string :=
  "Date,Amount" ++ nl ++ "-271821-04-20T00:00:00.000Z,5".

(** An amount whose hundredfold is beyond the largest binary64 number, and
    an amount just below a half cent. *)
Definition hugeAmountInput : string :=
  "Date,Amount" ++ nl ++ "2024-01-01,1e307".
Definition halfCentInput : string :=
  "Date,Amount" ++ nl ++ "2024-01-01,1.345".

(** A row dated five days before the latest date that a [Date] can hold. *)
Definition latestWeekInput : string :=
  "Date,Amount" ++ nl ++ "+275760-09-08T00:00:00.000Z,5".

(** The two amount fields of the specification's example. *)
Definition signedAmountsInput : string :=
  "Date,Amount" ++ nl ++ "2024-01-05,-42.50" ++ nl ++ "2024-01-06,$42.50".

(** A kept row without a date. *)
Definition undatedInput : string := "Date,Amount" ++ nl ++ ",7".

(** 42.5 *)
Definition fortyTwoAndAHalf : number := div (ofZ 85) (ofZ 2).

(* ================================================================== *)
(** * Facts about binary64 arithmetic *)

Module NumFacts.

Local Abbreviation fexp := (SpecFloat.fexp prec emax).

Lemma fexp_unfold e : fexp e = Z.max (e - 53) (-1074).
Proof. reflexivity. Qed.

(** Closes [canonical_mantissa m e && (e <=? emax - prec) = true] once the
    exponent test has been rewritten to [true]. *)
Ltac canonical_by_lia :=
  apply andb_true_intro; split; [apply Z.eqb_eq; lia|reflexivity].

Lemma fexp_mono a b : a <= b -> fexp a <= fexp b.
Proof. rewrite !fexp_unfold. lia. Qed.

(** ** The number of binary digits *)

Lemma digits2_pos_size m : digits2_pos m = Pos.size m.
Proof. induction m; simpl; congruence. Qed.

Lemma Zdigits2_log2 z : 0 < z -> Zdigits2 z = Z.log2 z + 1.
Proof.
  destruct z as [|p|p]; try lia. intros _. simpl.
  rewrite digits2_pos_size.
  destruct p; simpl; lia.
Qed.

Lemma Zdigits2_nonneg z : 0 <= Zdigits2 z.
Proof. destruct z; simpl; lia. Qed.

Lemma Zdigits2_pos z : 0 < z -> 0 < Zdigits2 z.
Proof. destruct z; simpl; lia. Qed.

Lemma Zdigits2_bounds z :
  0 < z -> 2 ^ (Zdigits2 z - 1) <= z < 2 ^ Zdigits2 z.
Proof.
  intros Hz. rewrite (Zdigits2_log2 z Hz).
  replace (Z.log2 z + 1 - 1) with (Z.log2 z) by lia.
  apply Z.log2_spec; assumption.
Qed.

Lemma Zdigits2_le z k : 0 <= z -> 0 <= k -> z < 2 ^ k -> Zdigits2 z <= k.
Proof.
  intros Hz Hk Hlt.
  destruct (Z.eq_dec z 0) as [->|Hnz]; [simpl; lia|].
  rewrite Zdigits2_log2 by lia.
  assert (Z.log2 z < k) by (apply Z.log2_lt_pow2; lia). lia.
Qed.

Lemma Zdigits2_ge z k : 0 < k -> 2 ^ (k - 1) <= z -> k <= Zdigits2 z.
Proof.
  intros Hk Hle.
  assert (0 < z) by (assert (0 < 2 ^ (k - 1)) by (apply Z.pow_pos_nonneg; lia); lia).
  rewrite Zdigits2_log2 by lia.
  assert (k - 1 <= Z.log2 z) by (apply Z.log2_le_pow2; lia). lia.
Qed.

Lemma Zdigits2_mono a b : 0 <= a <= b -> Zdigits2 a <= Zdigits2 b.
Proof.
  intros [Ha Hab].
  destruct (Z.eq_dec a 0) as [->|Hnz]; [apply Zdigits2_nonneg|].
  rewrite !Zdigits2_log2 by lia.
  assert (Z.log2 a <= Z.log2 b) by (apply Z.log2_le_mono; lia). lia.
Qed.

(** ** Shifting right *)

Lemma shr_1_m mrs : 0 <= shr_m mrs -> shr_m (shr_1 mrs) = shr_m mrs / 2.
Proof.
  destruct mrs as [m r s]. simpl. intros Hm.
  rewrite <- Z.div2_div.
  destruct m as [|[p|p|]|p]; try reflexivity; lia.
Qed.

Lemma iter_shr_1_m p : forall mrs,
  0 <= shr_m mrs -> shr_m (iter_pos shr_1 p mrs) = shr_m mrs / 2 ^ Zpos p.
Proof.
  induction p as [p IH|p IH|]; intros mrs Hm; simpl iter_pos.
  - assert (H1 : 0 <= shr_m (shr_1 mrs))
      by (rewrite shr_1_m by assumption; apply Z.div_pos; lia).
    assert (H2 : 0 <= shr_m (iter_pos shr_1 p (shr_1 mrs)))
      by (rewrite IH by assumption; apply Z.div_pos; [lia|apply Z.pow_pos_nonneg; lia]).
    rewrite IH, IH, shr_1_m by assumption.
    rewrite !Z.div_div by (try lia; apply Z.pow_pos_nonneg; lia).
    f_equal. rewrite <- Z.pow_add_r, <- Z.pow_succ_r by lia. f_equal. lia.
  - assert (H2 : 0 <= shr_m (iter_pos shr_1 p mrs))
      by (rewrite IH by assumption; apply Z.div_pos; [lia|apply Z.pow_pos_nonneg; lia]).
    rewrite IH, IH by assumption.
    rewrite !Z.div_div by (try lia; apply Z.pow_pos_nonneg; lia).
    f_equal. rewrite <- Z.pow_add_r by lia. f_equal. lia.
  - rewrite shr_1_m by assumption. reflexivity.
Qed.


(** ** One rounding *)

Lemma shr_m_of_loc m l : shr_m (shr_record_of_loc m l) = m.
Proof. destruct l as [|[]]; reflexivity. Qed.

Lemma round_nearest_even_bounds m l :
  m <= round_nearest_even m l <= m + 1.
Proof.
  destruct l as [|[]]; simpl; try lia.
  destruct (Z.even m); lia.
Qed.

Lemma shr_fexp_spec m e l :
  0 <= m -> e <= fexp (Zdigits2 m + e) ->
  shr_m (fst (shr_fexp prec emax m e l)) = m / 2 ^ (fexp (Zdigits2 m + e) - e)
  /\ snd (shr_fexp prec emax m e l) = fexp (Zdigits2 m + e).
Proof.
  intros Hm He. unfold shr_fexp, shr.
  remember (fexp (Zdigits2 m + e) - e) as n eqn:Hn.
  destruct n as [|p|p]; simpl fst; simpl snd.
  - rewrite shr_m_of_loc, Z.pow_0_r, Z.div_1_r. lia.
  - rewrite iter_shr_1_m by (rewrite shr_m_of_loc; assumption).
    rewrite shr_m_of_loc. lia.
  - lia.
Qed.

Lemma binary_round_aux_unfold s m e l :
  binary_round_aux prec emax s m e l =
  finishRound s
    (round_nearest_even (shr_m (fst (shr_fexp prec emax m e l)))
                        (loc_of_shr_record (fst (shr_fexp prec emax m e l))))
    (snd (shr_fexp prec emax m e l)).
Proof.
  unfold binary_round_aux, finishRound.
  destruct (shr_fexp prec emax m e l) as [mrs' e']. reflexivity.
Qed.

Lemma pow2_52 : 2 ^ 52 = 4503599627370496. Proof. reflexivity. Qed.
Lemma pow2_53 : 2 ^ 53 = 9007199254740992. Proof. reflexivity. Qed.

(** After the first shift the mantissa is either subnormal, at the least
    exponent, or has exactly 53 digits. *)
Lemma first_shift_range m e :
  0 <= m -> e <= fexp (Zdigits2 m + e) ->
  let E := fexp (Zdigits2 m + e) in
  let q := m / 2 ^ (E - e) in
  0 <= q /\ ((E = -1074 /\ q < 2 ^ 52) \/ (2 ^ 52 <= q < 2 ^ 53)).
Proof.
  intros Hm He E q.
  assert (Hpow : 0 < 2 ^ (E - e)) by (apply Z.pow_pos_nonneg; lia).
  assert (Hq0 : 0 <= q) by (apply Z.div_pos; lia).
  split; [assumption|].
  destruct (Z.eq_dec m 0) as [->|Hnz].
  - left. subst q E. simpl Zdigits2 in *. rewrite fexp_unfold in *.
    rewrite Z.div_0_l by lia. split; [lia|reflexivity].
  - assert (Hb := Zdigits2_bounds m ltac:(lia)).
    assert (Hd := Zdigits2_pos m ltac:(lia)).
    set (d := Zdigits2 m) in *.
    assert (HE : E = Z.max (d + e - 53) (-1074)) by reflexivity.
    destruct (Z_le_gt_dec (-1074) (d + e - 53)) as [Hc|Hc].
    + right. assert (En : E - e = d - 53) by lia.
      subst q. rewrite En. split.
      * apply Z.div_le_lower_bound; [apply Z.pow_pos_nonneg; lia|].
        rewrite Z.mul_comm, <- Z.pow_add_r by lia.
        replace (52 + (d - 53)) with (d - 1) by lia. lia.
      * apply Z.div_lt_upper_bound; [apply Z.pow_pos_nonneg; lia|].
        rewrite Z.mul_comm, <- Z.pow_add_r by lia.
        replace (53 + (d - 53)) with d by lia. lia.
    + left. split; [lia|]. subst q.
      apply Z.div_lt_upper_bound; [assumption|].
      rewrite Z.mul_comm, <- Z.pow_add_r by lia.
      assert (2 ^ d <= 2 ^ (52 + (E - e))) by (apply Z.pow_le_mono_r; lia).
      lia.
Qed.

Lemma finishRound_subnormal s q :
  0 <= q <= 2 ^ 52 ->
  (q = 0 /\ finishRound s q (-1074) = S754_zero s)
  \/ (exists mr, q = Zpos mr /\ finishRound s q (-1074) = S754_finite s mr (-1074)
                 /\ bounded prec emax mr (-1074) = true).
Proof.
  intros [Hq0 Hq].
  assert (Hd : Zdigits2 q <= 53).
  { destruct (Z.eq_dec q (2 ^ 52)) as [->|]; [vm_compute; discriminate|].
    assert (Zdigits2 q <= 52) by (apply Zdigits2_le; lia). lia. }
  assert (Hn : fexp (Zdigits2 q + -1074) - -1074 = 0)
    by (rewrite fexp_unfold; lia).
  unfold finishRound, shr_fexp. rewrite Hn. simpl shr.
  destruct q as [|mr|mr]; [left; split; reflexivity| |lia].
  right. exists mr. split; [reflexivity|]. split; [reflexivity|].
  unfold bounded, canonical_mantissa.
  simpl Zdigits2 in Hd.
  rewrite fexp_unfold. canonical_by_lia.
Qed.

Lemma finishRound_normal s q E :
  -1074 <= E -> 2 ^ 52 <= q <= 2 ^ 53 ->
  finishRound s q E = S754_infinity s
  \/ (exists mr er, finishRound s q E = S754_finite s mr er
        /\ bounded prec emax mr er = true
        /\ E <= er /\ (er = E -> Zpos mr = q)).
Proof.
  intros HE [Hlo Hhi].
  destruct (Z.eq_dec q (2 ^ 53)) as [->|Hne].
  - assert (Hn : fexp (Zdigits2 (2 ^ 53) + E) - E = 1).
    { change (Zdigits2 (2 ^ 53)) with 54. rewrite fexp_unfold. lia. }
    unfold finishRound, shr_fexp. rewrite Hn. rewrite pow2_53.
    cbv [shr shr_record_of_loc iter_pos shr_1 shr_m orb].
    destruct (E + 1 <=? emax - prec) eqn:Hle; [right|left; reflexivity].
    exists 4503599627370496%positive, (E + 1).
    split; [reflexivity|]. split; [|lia].
    unfold bounded, canonical_mantissa. rewrite Hle.
    change (Z.pos (digits2_pos 4503599627370496)) with 53.
    rewrite fexp_unfold. canonical_by_lia.
  - assert (Hd : Zdigits2 q = 53).
    { apply Z.le_antisymm.
      - apply Zdigits2_le; lia.
      - apply Zdigits2_ge; [lia|]. exact Hlo. }
    assert (Hn : fexp (Zdigits2 q + E) - E = 0) by (rewrite Hd, fexp_unfold; lia).
    unfold finishRound, shr_fexp. rewrite Hn. simpl shr.
    destruct q as [|mr|mr]; try (rewrite pow2_52 in Hlo; lia).
    simpl shr_m.
    destruct (E <=? emax - prec) eqn:Hle; [right|left; reflexivity].
    exists mr, E. split; [reflexivity|]. split; [|lia].
    unfold bounded, canonical_mantissa. rewrite Hle.
    simpl Zdigits2 in Hd. rewrite Hd, fexp_unfold.
    canonical_by_lia.
Qed.

(** What one rounding returns. *)
Lemma binary_round_aux_cases s m e l :
  0 <= m -> e <= fexp (Zdigits2 m + e) ->
  let E := fexp (Zdigits2 m + e) in
  let q := m / 2 ^ (E - e) in
  let r := binary_round_aux prec emax s m e l in
  (r = S754_zero s /\ q = 0 /\ E = -1074)
  \/ r = S754_infinity s
  \/ (exists mr er, r = S754_finite s mr er
        /\ bounded prec emax mr er = true
        /\ E <= er /\ (er = E -> q <= Zpos mr)).
Proof.
  intros Hm He E q r.
  destruct (shr_fexp_spec m e l Hm He) as [Hq HE].
  destruct (first_shift_range m e Hm He) as [Hq0 Hrange].
  change (0 <= q) in Hq0.
  change ((E = -1074 /\ q < 2 ^ 52) \/ (2 ^ 52 <= q < 2 ^ 53)) in Hrange.
  change (shr_m (fst (shr_fexp prec emax m e l)) = q) in Hq.
  change (snd (shr_fexp prec emax m e l) = E) in HE.
  subst r. rewrite binary_round_aux_unfold, HE, Hq.
  assert (Hb := round_nearest_even_bounds q
                  (loc_of_shr_record (fst (shr_fexp prec emax m e l)))).
  set (q' := round_nearest_even q _) in *.
  assert (HEmin : -1074 <= E) by (subst E; rewrite fexp_unfold; lia).
  destruct Hrange as [[HE' Hlt]|Hnorm].
  - rewrite HE'.
    destruct (finishRound_subnormal s q' ltac:(lia)) as [[Hz Hr]|[mr [Hmr [Hr Hbd]]]].
    + left. split; [exact Hr|]. split; [lia|reflexivity].
    + right. right. exists mr, (-1074).
      split; [exact Hr|]. split; [exact Hbd|]. split; [lia|]. intros _. lia.
  - destruct (finishRound_normal s q' E HEmin ltac:(lia)) as [Hr|[mr [er [Hr [Hbd [Hle Heq]]]]]].
    + right. left. assumption.
    + right. right. exists mr, er. repeat split; try assumption.
      intros Hx. rewrite (Heq Hx). lia.
Qed.

(** ** Aligning and rounding an integer mantissa *)

Lemma iter_xO_pow m d : Zpos (Pos.iter xO m d) = Zpos m * 2 ^ Zpos d.
Proof.
  induction d as [|d IH] using Pos.peano_ind.
  - simpl. lia.
  - rewrite Pos.iter_succ, Pos2Z.inj_xO, IH, Pos2Z.inj_succ, Z.pow_succ_r by lia.
    ring.
Qed.

Lemma shl_align_spec mx ex ex' :
  snd (shl_align mx ex ex') = Z.min ex ex'
  /\ Zpos (fst (shl_align mx ex ex')) = Zpos mx * 2 ^ (ex - Z.min ex ex').
Proof.
  unfold shl_align.
  remember (ex' - ex) as k eqn:Hk.
  destruct k as [|p|p]; simpl fst; simpl snd.
  - replace (Z.min ex ex') with ex by lia. rewrite Z.sub_diag. simpl. lia.
  - replace (Z.min ex ex') with ex by lia. rewrite Z.sub_diag. simpl. lia.
  - replace (Z.min ex ex') with ex' by lia.
    replace (ex - ex') with (Zpos p) by lia.
    split; [reflexivity|apply iter_xO_pow].
Qed.

Lemma Zdigits2_shift m k : 0 < m -> 0 <= k -> Zdigits2 (m * 2 ^ k) = Zdigits2 m + k.
Proof.
  intros Hm Hk.
  assert (0 < 2 ^ k) by (apply Z.pow_pos_nonneg; lia).
  rewrite !Zdigits2_log2 by nia.
  rewrite Z.log2_mul_pow2 by lia. lia.
Qed.

(** [binary_round] on a positive integer mantissa: the target exponent [E]
    is that of the exact value, and the mantissa is at least the value
    divided by [2 ^ E], rounded down. *)
Lemma binary_round_cases s m e :
  let E := fexp (Zpos (digits2_pos m) + e) in
  let c := Z.min e E in
  let q := (Zpos m * 2 ^ (e - c)) / 2 ^ (E - c) in
  let r := binary_round prec emax s m e in
  (r = S754_zero s /\ q = 0 /\ E = -1074)
  \/ r = S754_infinity s
  \/ (exists mr er, r = S754_finite s mr er
        /\ bounded prec emax mr er = true
        /\ E <= er /\ (er = E -> q <= Zpos mr)).
Proof.
  intros E c q r. subst r. unfold binary_round.
  destruct (shl_align_spec m e E) as [He Hm].
  change (SpecFloat.fexp prec emax (Z.pos (digits2_pos m) + e)) with E.
  destruct (shl_align m e E) as [mz ez]. simpl fst in Hm. simpl snd in He.
  change (Z.min e E) with c in He, Hm.
  assert (Hc : c <= e /\ c <= E) by (subst c; lia).
  assert (Hd : Zdigits2 (Zpos mz) + ez = Zpos (digits2_pos m) + e).
  { rewrite Hm, He. rewrite Zdigits2_shift by lia. simpl Zdigits2. lia. }
  assert (HE : fexp (Zdigits2 (Zpos mz) + ez) = E) by (rewrite Hd; reflexivity).
  assert (Hpre : ez <= fexp (Zdigits2 (Zpos mz) + ez)) by lia.
  assert (H := binary_round_aux_cases s (Zpos mz) ez loc_Exact ltac:(lia) Hpre).
  cbv zeta in H. rewrite HE in H. rewrite Hm, He in H. rewrite Hm, He.
  exact H.
Qed.

(** ** The numbers of the parser *)

Lemma bounded_canonical m e :
  bounded prec emax m e = true ->
  fexp (Zpos (digits2_pos m) + e) = e /\ e <= 971.
Proof.
  unfold bounded, canonical_mantissa. intros H.
  apply andb_prop in H. destruct H as [H1 H2].
  apply Z.eqb_eq in H1. apply Z.leb_le in H2.
  split; [exact H1|exact H2].
Qed.

Lemma binary_round_wellFormed s m e :
  wellFormed (binary_round prec emax s m e) = true.
Proof.
  destruct (binary_round_cases s m e) as [[H _]|[H|[mr [er [H [Hb _]]]]]];
    rewrite H; try reflexivity. exact Hb.
Qed.

Lemma binary_normalize_wellFormed n e s :
  wellFormed (binary_normalize prec emax n e s) = true.
Proof.
  destruct n; simpl; [reflexivity| |]; apply binary_round_wellFormed.
Qed.

(** Rounding never goes below a representable number that the exact value
    reaches. *)
Lemma binary_round_lower_bound p e mz ez :
  bounded prec emax mz ez = true ->
  e <= ez -> Zpos mz * 2 ^ (ez - e) <= Zpos p ->
  let r := binary_round prec emax false p e in
  r = S754_infinity false
  \/ (exists mr er, r = S754_finite false mr er
        /\ bounded prec emax mr er = true
        /\ (ez < er \/ (ez = er /\ (mz <= mr)%positive))).
Proof.
  intros Hb Hle Hval r.
  destruct (bounded_canonical mz ez Hb) as [Hcan _].
  assert (Hpow : 0 < 2 ^ (ez - e)) by (apply Z.pow_pos_nonneg; lia).
  assert (Hdig : Zpos (digits2_pos mz) + ez <= Zpos (digits2_pos p) + e).
  { change (Zdigits2 (Zpos mz) + ez <= Zdigits2 (Zpos p) + e).
    assert (H1 := Zdigits2_shift (Zpos mz) (ez - e) ltac:(lia) ltac:(lia)).
    assert (H2 := Zdigits2_mono (Zpos mz * 2 ^ (ez - e)) (Zpos p) ltac:(lia)).
    rewrite H1 in H2. lia. }
  assert (HE : ez <= fexp (Zpos (digits2_pos p) + e))
    by (rewrite <- Hcan at 1; apply fexp_mono; exact Hdig).
  assert (Hmin : -1074 <= ez) by (rewrite <- Hcan, fexp_unfold; lia).
  pose proof (binary_round_cases false p e) as H. cbv zeta in H.
  set (E := fexp (Zpos (digits2_pos p) + e)) in *.
  replace (Z.min e E) with e in H by lia.
  rewrite Z.sub_diag, Z.pow_0_r, Z.mul_1_r in H.
  assert (Hq : E = ez -> Zpos mz <= Zpos p / 2 ^ (E - e)).
  { intros ->. apply Z.div_le_lower_bound; [assumption|]. lia. }
  fold r in H.
  destruct H as [[_ [Hq0 HEmin]]|[H|[mr [er [H [Hbr [HEr Hqr]]]]]]].
  - exfalso. assert (E = ez) by lia. specialize (Hq H). lia.
  - left. exact H.
  - right. exists mr, er. split; [exact H|]. split; [exact Hbr|].
    destruct (Z.eq_dec er ez) as [->|Hne]; [right|left; lia].
    split; [reflexivity|].
    assert (E = ez) by lia.
    specialize (Hq H0). specialize (Hqr (eq_sym H0)).
    apply Pos2Z.pos_le_pos. lia.
Qed.

(** ** Order and addition on the non-negative numbers *)

Lemma leb_refl x : nonNegative x = true -> leb x x = true.
Proof.
  destruct x as [[]|[]| |[] m e]; try discriminate; intros _; try reflexivity.
  unfold leb, SFleb, SFcompare.
  rewrite Z.compare_refl.
  change (Pos.compare_cont Eq m m) with (m ?= m)%positive.
  rewrite Pos.compare_refl. reflexivity.
Qed.

Lemma leb_zero x : nonNegative x = true -> leb zero x = true.
Proof. destruct x as [[]|[]| |[] m e]; try discriminate; reflexivity. Qed.

Lemma leb_finite mx ex mr er :
  ex < er \/ (ex = er /\ (mx <= mr)%positive) ->
  leb (S754_finite false mx ex) (S754_finite false mr er) = true.
Proof.
  intros H. unfold leb, SFleb, SFcompare.
  destruct H as [H|[-> H]].
  - apply Z.compare_lt_iff in H. rewrite H. reflexivity.
  - rewrite Z.compare_refl.
    change (Pos.compare_cont Eq mx mr) with (mx ?= mr)%positive.
    unfold Pos.le in H. destruct (mx ?= mr)%positive; congruence.
Qed.

Lemma add_finite mx ex my ey :
  add (S754_finite false mx ex) (S754_finite false my ey) =
  binary_round prec emax false
    (fst (shl_align mx ex (Z.min ex ey)) + fst (shl_align my ey (Z.min ex ey)))
    (Z.min ex ey).
Proof. reflexivity. Qed.

(** Adding two non-negative numbers gives a non-negative number that is
    not below either of them. *)
Lemma add_nonNegative x y :
  nonNegative x = true -> nonNegative y = true ->
  nonNegative (add x y) = true
  /\ leb x (add x y) = true /\ leb y (add x y) = true.
Proof.
  intros Hx Hy.
  destruct x as [[]|[]| |[] mx ex]; try discriminate;
  destruct y as [[]|[]| |[] my ey]; try discriminate;
  try (split; [assumption || reflexivity|split; first [reflexivity|apply leb_refl; assumption]]).
  simpl in Hx, Hy. rewrite add_finite.
  set (ez := Z.min ex ey).
  destruct (shl_align_spec mx ex ez) as [_ Hax].
  destruct (shl_align_spec my ey ez) as [_ Hay].
  replace (Z.min ex ez) with ez in Hax by lia.
  replace (Z.min ey ez) with ez in Hay by lia.
  set (a := fst (shl_align mx ex ez)) in *.
  set (b := fst (shl_align my ey ez)) in *.
  assert (Hvx : Zpos mx * 2 ^ (ex - ez) <= Zpos (a + b)) by lia.
  assert (Hvy : Zpos my * 2 ^ (ey - ez) <= Zpos (a + b)) by lia.
  pose proof (binary_round_lower_bound (a + b) ez mx ex Hx ltac:(lia) Hvx) as Rx.
  pose proof (binary_round_lower_bound (a + b) ez my ey Hy ltac:(lia) Hvy) as Ry.
  cbv zeta in Rx, Ry.
  destruct Rx as [Rx|[mr [er [Rx [Hb Hox]]]]].
  - rewrite Rx. repeat split; reflexivity.
  - rewrite Rx in Ry |- *.
    destruct Ry as [Ry|[mr' [er' [Ry [_ Hoy]]]]]; [discriminate|].
    injection Ry as <- <-.
    split; [exact Hb|]. split; apply leb_finite; assumption.
Qed.

(** ** Decimal literals *)

Lemma div_core_precondition m k :
  0 < m -> 0 < k ->
  let '(q, e, _) := SFdiv_core_binary prec emax m 0 k 0 in
  0 <= q /\ e <= fexp (Zdigits2 q + e).
Proof.
  intros Hm Hk. unfold SFdiv_core_binary.
  rewrite !Z.add_0_r. change (0 - 0) with 0.
  set (d1 := Zdigits2 m). set (d2 := Zdigits2 k).
  set (e' := Z.min (fexp (d1 - d2)) 0).
  assert (He' : e' <= 0) by (subst e'; lia).
  assert (Hm' : match 0 - e' with
                | Z0 => m | Zpos _ => Z.shiftl m (0 - e') | Zneg _ => 0
                end = m * 2 ^ (- e')).
  { remember (0 - e') as s eqn:Hs. destruct s as [|p|p]; try lia.
    - replace (- e') with 0 by lia. simpl. lia.
    - rewrite Z.shiftl_mul_pow2 by lia. f_equal. f_equal. lia. }
  rewrite Hm'. clear Hm'.
  assert (Hp : 0 < 2 ^ (- e')) by (apply Z.pow_pos_nonneg; lia).
  pose proof (Z.div_eucl_eq (m * 2 ^ (- e')) k ltac:(lia)) as Heq.
  pose proof (Z.mod_pos_bound (m * 2 ^ (- e')) k Hk) as Hr.
  unfold Z.modulo in Hr.
  assert (Hq : fst (Z.div_eucl (m * 2 ^ (- e')) k) = (m * 2 ^ (- e')) / k)
    by reflexivity.
  destruct (Z.div_eucl (m * 2 ^ (- e')) k) as [q r]. simpl fst in Hq.
  assert (Hq0 : 0 <= q) by (rewrite Hq; apply Z.div_pos; nia).
  split; [exact Hq0|].
  assert (Hd : d1 - d2 <= Zdigits2 q + e').
  { destruct (Z_le_gt_dec 1 (d1 - e' - d2)) as [Hc|Hc].
    - assert (d1 - e' - d2 <= Zdigits2 q); [|lia].
      apply Zdigits2_ge; [lia|].
      rewrite Hq. apply Z.div_le_lower_bound; [lia|].
      assert (B1 := Zdigits2_bounds m Hm). assert (B2 := Zdigits2_bounds k Hk).
      fold d1 in B1. fold d2 in B2.
      assert (Hd2 : 0 < d2) by (apply Zdigits2_pos; assumption).
      assert (Hd1 : 0 < d1) by (apply Zdigits2_pos; assumption).
      assert (2 ^ (d1 - 1) * 2 ^ (- e') = 2 ^ d2 * 2 ^ (d1 - e' - d2 - 1)).
      { rewrite <- !Z.pow_add_r by lia. f_equal. lia. }
      assert (0 < 2 ^ (d1 - e' - d2 - 1)) by (apply Z.pow_pos_nonneg; lia).
      nia.
    - assert (0 <= Zdigits2 q) by apply Zdigits2_nonneg. lia. }
  transitivity (fexp (d1 - d2)); [subst e'; lia|apply fexp_mono; exact Hd].
Qed.

Lemma digitVal_range c d : digitVal c = Some d -> 0 <= d <= 9.
Proof.
  unfold digitVal. destruct ((48 <=? code c) && (code c <=? 57)) eqn:H; [|discriminate].
  intros [= <-]. apply andb_prop in H. destruct H as [H1 H2].
  apply Z.leb_le in H1. apply Z.leb_le in H2. lia.
Qed.

Lemma readDigits_nonneg s : forall acc count,
  0 <= acc -> 0 <= fst (fst (readDigits s acc count)).
Proof.
  induction s as [|c s IH]; intros acc count Hacc; cbn [readDigits]; [exact Hacc|].
  destruct (digitVal c) as [d|] eqn:Hd; [|exact Hacc].
  apply IH. apply digitVal_range in Hd. lia.
Qed.

Lemma ofDecimal_wellFormed neg m e10 :
  0 <= m -> wellFormed (ofDecimal neg m e10) = true.
Proof.
  intros Hm. unfold ofDecimal.
  destruct (m =? 0) eqn:Hz; [reflexivity|]. apply Z.eqb_neq in Hz.
  destruct (0 <=? e10) eqn:He; [apply binary_normalize_wellFormed|].
  apply Z.leb_gt in He.
  assert (Hk : 0 < 10 ^ (- e10)) by (apply Z.pow_pos_nonneg; lia).
  pose proof (div_core_precondition m (10 ^ (- e10)) ltac:(lia) Hk) as H.
  destruct (SFdiv_core_binary prec emax m 0 (10 ^ (- e10)) 0) as [[q e] l].
  destruct H as [Hq Hpre].
  destruct (binary_round_aux_cases neg q e l Hq Hpre) as [[H _]|[H|[mr [er [H [Hb _]]]]]];
    rewrite H; try reflexivity. exact Hb.
Qed.

Lemma parseFloat_wellFormed s : wellFormed (parseFloat s) = true.
Proof.
  unfold parseFloat.
  set (t := trimStart s).
  set (sg := match t with
             | String "-"%char r => (true, r)
             | String "+"%char r => (false, r)
             | _ => (false, t)
             end).
  destruct sg as [neg s1].
  destruct (prefix "Infinity" s1); [reflexivity|].
  pose proof (readDigits_nonneg s1 0 0 ltac:(lia)) as H1.
  destruct (readDigits s1 0 0) as [[m1 n1] s2]. simpl in H1.
  set (fr := match s2 with
             | String "."%char r => readDigits r m1 0
             | _ => (m1, 0, s2)
             end).
  assert (H2 : 0 <= fst (fst fr)).
  { subst fr. destruct s2 as [|c r]; [exact H1|].
    destruct (Ascii.eqb c "."%char) eqn:Hc.
    - apply Ascii.eqb_eq in Hc. subst c. apply readDigits_nonneg. exact H1.
    - destruct c as [[] [] [] [] [] [] [] []]; try exact H1; discriminate. }
  destruct fr as [[m2 n2] s3]. simpl in H2.
  destruct (n1 + n2 =? 0); [reflexivity|].
  apply ofDecimal_wellFormed. exact H2.
Qed.

Lemma abs_nonNegative x :
  wellFormed x = true -> isNaN x = false -> nonNegative (abs x) = true.
Proof. destruct x as [s|s| |s m e]; simpl; intros H1 H2; try discriminate; auto. Qed.

End NumFacts.

(* ================================================================== *)
(** * The field tokenizer *)

Module Tokenizer.

Lemma append_assoc_char (s : string) (c : ascii) (t : string) :
  (s ++ String c EmptyString) ++ t = s ++ String c t.
Proof. induction s as [|x s IH]; simpl; [reflexivity|rewrite IH; reflexivity]. Qed.

Lemma append_empty_r (s : string) : s ++ EmptyString = s.
Proof. induction s as [|x s IH]; simpl; [reflexivity|rewrite IH; reflexivity]. Qed.

(** Inside a quoted field the scanner copies the field, reading every
    doubled quote as one, up to the closing quote. *)
Lemma scan_quoted field : forall tail current result,
  (match tail with String c _ => Ascii.eqb c quoteChar = false | EmptyString => True end) ->
  parseCSVLine_loop (doubleQuotes field ++ String quoteChar tail) current true result
  = parseCSVLine_loop tail (current ++ field) false result.
Proof.
  induction field as [|c field IH]; intros tail current result Htail.
  - simpl doubleQuotes. simpl append. rewrite append_empty_r.
    cbn [parseCSVLine_loop]. rewrite Ascii.eqb_refl.
    destruct tail as [|c tail]; [reflexivity|].
    rewrite Htail. reflexivity.
  - cbn [doubleQuotes].
    destruct (Ascii.eqb c quoteChar) eqn:Hc.
    + apply Ascii.eqb_eq in Hc. subst c.
      cbn [append parseCSVLine_loop]. rewrite Ascii.eqb_refl. cbn [andb].
      rewrite IH by assumption. rewrite append_assoc_char. reflexivity.
    + cbn [append parseCSVLine_loop]. rewrite Hc.
      replace (Ascii.eqb c commaChar && negb true) with false
        by (rewrite andb_false_r; reflexivity).
      rewrite IH by assumption. rewrite append_assoc_char. reflexivity.
Qed.

Lemma scan_record first : forall others result,
  parseCSVLine_loop (writeRecord first others) EmptyString false result
  = (result ++ map trim (first :: others))%list.
Proof.
  intros others. revert first.
  induction others as [|f rest IH]; intros first result.
  - cbn [writeRecord]. unfold writeField.
    cbn [parseCSVLine_loop]. rewrite Ascii.eqb_refl.
    destruct (doubleQuotes first ++ String quoteChar EmptyString) eqn:E.
    + destruct (doubleQuotes first); discriminate.
    + cbn [andb negb]. rewrite <- E.
      rewrite scan_quoted by exact I. reflexivity.
  - cbn [writeRecord]. unfold writeField at 1.
    cbn [append parseCSVLine_loop]. rewrite Ascii.eqb_refl.
    rewrite append_assoc_char.
    destruct (doubleQuotes first ++ String quoteChar (String commaChar (writeRecord f rest))) eqn:E.
    + destruct (doubleQuotes first); discriminate.
    + cbn [andb negb]. rewrite <- E.
      rewrite scan_quoted by reflexivity.
      cbn [parseCSVLine_loop].
      replace (Ascii.eqb commaChar quoteChar) with false by reflexivity.
      rewrite Ascii.eqb_refl. cbn [andb negb append].
      rewrite (IH f). cbn [map].
      rewrite <- app_assoc. reflexivity.
Qed.

End Tokenizer.

(* ================================================================== *)
(** * The header resolver *)

Module Resolver.

Lemma findIndex_from_first (p : string -> bool) l : forall k i x,
  nth_error l i = Some x -> p x = true ->
  (forall j y, (j < i)%nat -> nth_error l j = Some y -> p y = false) ->
  findIndex_from k p l = k + Z.of_nat i.
Proof.
  induction l as [|h t IH]; intros k i x Hn Hp Hbefore.
  - destruct i; discriminate.
  - destruct i as [|i]; simpl in Hn.
    + injection Hn as ->. simpl. rewrite Hp. lia.
    + simpl. rewrite (Hbefore 0%nat h) by (try reflexivity; lia).
      rewrite (IH (k + 1) i x Hn Hp).
      * lia.
      * intros j y Hj Hy. apply (Hbefore (S j) y); [lia|exact Hy].
Qed.

Lemma findIndex_from_none (p : string -> bool) l : forall k,
  (forall x, In x l -> p x = false) -> findIndex_from k p l = -1.
Proof.
  induction l as [|h t IH]; intros k Hall; simpl; [reflexivity|].
  rewrite (Hall h) by (left; reflexivity).
  apply IH. intros x Hx. apply Hall. right. exact Hx.
Qed.

Lemma findIndex_from_ext (p q : string -> bool) l : forall k,
  (forall x, p x = q x) -> findIndex_from k p l = findIndex_from k q l.
Proof.
  induction l as [|h t IH]; intros k Hpq; simpl; [reflexivity|].
  rewrite Hpq. destruct (q h); [reflexivity|apply IH; exact Hpq].
Qed.

Lemma indexOf_from_fresh pre : forall k x t,
  (forall y, In y pre -> String.eqb y x = false) ->
  indexOf_from k (pre ++ x :: t)%list x = k + Z.of_nat (List.length pre).
Proof.
  induction pre as [|h pre IH]; intros k x t Hfresh; simpl.
  - rewrite String.eqb_refl. lia.
  - rewrite (Hfresh h) by (left; reflexivity).
    rewrite IH by (intros y Hy; apply Hfresh; right; exact Hy). lia.
Qed.

(** The loop returns the position of the first header that matches: the
    call of [indexOf] finds that very header, since an equal header
    earlier in the row would have matched first. *)
Lemma findColumnIndex_loop_findIndex patterns rest : forall pre,
  (forall y, In y pre -> headerMatches patterns y = false) ->
  findColumnIndex_loop (pre ++ rest)%list rest patterns
  = findIndex_from (Z.of_nat (List.length pre)) (headerMatches patterns) rest.
Proof.
  induction rest as [|header rest IH]; intros pre Hpre; simpl; [reflexivity|].
  destruct (headerMatches patterns header) eqn:Hm.
  - unfold indexOf. rewrite indexOf_from_fresh; [lia|].
    intros y Hy. destruct (String.eqb y header) eqn:E; [|reflexivity].
    apply String.eqb_eq in E. subst y. rewrite (Hpre header Hy) in Hm. discriminate.
  - replace (pre ++ header :: rest)%list with ((pre ++ [header]) ++ rest)%list
      by (rewrite <- app_assoc; reflexivity).
    rewrite IH.
    + rewrite length_app. simpl List.length. f_equal. lia.
    + intros y Hy. apply in_app_or in Hy. destruct Hy as [Hy|[<-|[]]]; auto.
Qed.

Lemma findColumnIndex_findIndex headers patterns :
  findColumnIndex headers patterns = findIndex (headerMatches patterns) headers.
Proof.
  unfold findColumnIndex, findIndex.
  apply (findColumnIndex_loop_findIndex patterns headers []).
  intros y [].
Qed.

Lemma existsb_Permutation {A} (f : A -> bool) l l' :
  Permutation l l' -> existsb f l = existsb f l'.
Proof.
  induction 1; simpl.
  - reflexivity.
  - rewrite IHPermutation. reflexivity.
  - destruct (f x), (f y); reflexivity.
  - congruence.
Qed.

End Resolver.

(* ================================================================== *)
(** * Maps, buckets and sorting *)

Module Buckets.
Import NumFacts.

Section MapFacts.
Context {V : Type}.
Implicit Types (m : list (string * V)) (k : string) (v : V).

Lemma mapGet_mapSet m k v k' :
  mapGet (mapSet m k v) k' = if String.eqb k k' then Some v else mapGet m k'.
Proof.
  induction m as [|[k0 v0] m IH]; simpl.
  - destruct (String.eqb k k'); reflexivity.
  - destruct (String.eqb k0 k) eqn:E0; simpl.
    + apply String.eqb_eq in E0. subst k0.
      destruct (String.eqb k k'); reflexivity.
    + rewrite IH. destruct (String.eqb k k') eqn:E1; [|reflexivity].
      apply String.eqb_eq in E1. subst k'. rewrite E0. reflexivity.
Qed.

Lemma mapGet_None m k : mapGet m k = None <-> ~ In k (map fst m).
Proof.
  induction m as [|[k0 v0] m IH]; simpl.
  - split; [intros _ []|reflexivity].
  - destruct (String.eqb k0 k) eqn:E0.
    + apply String.eqb_eq in E0. split; [discriminate|]. intros H. exfalso. auto.
    + apply String.eqb_neq in E0. rewrite IH. tauto.
Qed.

Lemma mapSet_keys m k v :
  map fst (mapSet m k v)
  = match mapGet m k with
    | Some _ => map fst m
    | None => (map fst m ++ [k])%list
    end.
Proof.
  induction m as [|[k0 v0] m IH]; simpl; [reflexivity|].
  destruct (String.eqb k0 k) eqn:E0; simpl; [reflexivity|].
  rewrite IH. destruct (mapGet m k); reflexivity.
Qed.

Lemma mapSet_NoDup m k v : NoDup (map fst m) -> NoDup (map fst (mapSet m k v)).
Proof.
  intros Hnd. rewrite mapSet_keys.
  destruct (mapGet m k) eqn:E; [exact Hnd|].
  apply mapGet_None in E.
  apply NoDup_rev in Hnd. rewrite <- (rev_involutive (map fst m ++ [k])).
  apply NoDup_rev. rewrite rev_app_distr. simpl.
  constructor; [rewrite <- in_rev; exact E|exact Hnd].
Qed.

(** With distinct keys every entry is the one [get] finds. *)
Lemma mapGet_of_entry m k v :
  NoDup (map fst m) -> In (k, v) m -> mapGet m k = Some v.
Proof.
  induction m as [|[k0 v0] m IH]; simpl; [intros _ []|].
  intros Hnd [H|H].
  - injection H as -> ->. rewrite String.eqb_refl. reflexivity.
  - inversion Hnd as [|? ? Hnotin Hnd']; subst.
    destruct (String.eqb k0 k) eqn:E0.
    + apply String.eqb_eq in E0. subst k0. exfalso. apply Hnotin.
      apply (in_map fst) in H. exact H.
    + apply IH; assumption.
Qed.
End MapFacts.

Lemma mapGet_map {V W} (f : V -> W) (m : list (string * V)) k :
  mapGet (map (fun kv => (fst kv, f (snd kv))) m) k = option_map f (mapGet m k).
Proof.
  induction m as [|[k0 v0] m IH]; simpl; [reflexivity|].
  destruct (String.eqb k0 k); [reflexivity|exact IH].
Qed.

Lemma mapSet_map {V W} (f : V -> W) (m : list (string * V)) k v :
  map (fun kv => (fst kv, f (snd kv))) (mapSet m k v)
  = mapSet (map (fun kv => (fst kv, f (snd kv))) m) k (f v).
Proof.
  induction m as [|[k0 v0] m IH]; simpl; [reflexivity|].
  destruct (String.eqb k0 k); simpl; [reflexivity|rewrite IH; reflexivity].
Qed.

(** ** Sums *)

Lemma sumOf_snoc l a : sumOf (l ++ [a]) = add (sumOf l) a.
Proof. unfold sumOf. rewrite fold_left_app. reflexivity. Qed.

Lemma fold_add_nonNegative l : forall acc,
  nonNegative acc = true -> Forall (fun a => nonNegative a = true) l ->
  nonNegative (fold_left add l acc) = true.
Proof.
  induction l as [|a l IH]; intros acc Hacc Hl; simpl; [exact Hacc|].
  inversion Hl; subst. apply IH; [|assumption].
  apply add_nonNegative; assumption.
Qed.

Lemma sumOf_nonNegative l :
  Forall (fun a => nonNegative a = true) l -> nonNegative (sumOf l) = true.
Proof. intros H. apply fold_add_nonNegative; [reflexivity|exact H]. Qed.

Lemma bucket_nonNegative rows k :
  amountsNonNegative rows -> nonNegative (bucket rows k) = true.
Proof.
  intros H. unfold bucket. apply sumOf_nonNegative.
  apply Forall_map. apply Forall_forall. intros r Hr.
  apply filter_In in Hr. destruct Hr as [Hr _].
  unfold amountsNonNegative in H. rewrite Forall_forall in H. apply H. exact Hr.
Qed.

Lemma bucket_snoc rows k a k' :
  bucket (rows ++ [(k, a)]) k'
  = if String.eqb k k' then add (bucket rows k') a else bucket rows k'.
Proof.
  unfold bucket. rewrite filter_app. simpl.
  destruct (String.eqb k k').
  - rewrite map_app. simpl. apply sumOf_snoc.
  - rewrite app_nil_r. reflexivity.
Qed.

Lemma bucket_absent rows k : ~ In k (map fst rows) -> bucket rows k = zero.
Proof.
  intros H. unfold bucket.
  replace (filter (fun r => String.eqb (fst r) k) rows) with (@nil (string * number));
    [reflexivity|].
  symmetry. induction rows as [|[k0 a0] rows IH]; simpl; [reflexivity|].
  simpl in H. destruct (String.eqb k0 k) eqn:E.
  - apply String.eqb_eq in E. exfalso. auto.
  - apply IH. tauto.
Qed.

(** ** A map that holds one running sum per key *)

Lemma holds_nil : holds [] [].
Proof. split; [constructor|intros k; reflexivity|discriminate]. Qed.

Lemma holds_valueAt m rows k : holds m rows -> valueAt m k = bucket rows k.
Proof.
  intros H. unfold valueAt. destruct (mapGet m k) as [v|] eqn:E.
  - apply (holds_value _ _ H). exact E.
  - symmetry. apply bucket_absent. rewrite <- (holds_keys _ _ H).
    apply mapGet_None. exact E.
Qed.

Lemma nonNegative_falsy v : nonNegative v = true -> truthy v = false -> v = zero.
Proof. destruct v as [[]|[]| |[] ? ?]; simpl; try discriminate; reflexivity. Qed.

Lemma holds_getOrZero m rows k :
  holds m rows -> amountsNonNegative rows -> getOrZero m k = bucket rows k.
Proof.
  intros H Hnn. rewrite <- (holds_valueAt m rows k H).
  unfold getOrZero, valueAt. destruct (mapGet m k) as [v|] eqn:E; [|reflexivity].
  destruct (truthy v) eqn:Ht; [reflexivity|].
  symmetry. apply nonNegative_falsy; [|exact Ht].
  rewrite (holds_value _ _ H k v E). apply bucket_nonNegative. exact Hnn.
Qed.

Lemma holds_step m rows k a :
  holds m rows ->
  holds (mapSet m k (add (bucket rows k) a)) (rows ++ [(k, a)]).
Proof.
  intros H. split.
  - apply mapSet_NoDup. apply (holds_NoDup _ _ H).
  - intros k'. rewrite mapSet_keys, map_app. simpl.
    pose proof (holds_keys _ _ H k') as Hk.
    destruct (mapGet m k) eqn:E.
    + rewrite in_app_iff. simpl.
      assert (In k (map fst m)).
      { destruct (in_dec string_dec k (map fst m)) as [Hi|Hi]; [exact Hi|].
        apply mapGet_None in Hi. congruence. }
      split; [tauto|]. intros [H1|[<-|[]]]; tauto.
    + rewrite !in_app_iff. simpl. tauto.
  - intros k' v. rewrite mapGet_mapSet, bucket_snoc.
    destruct (String.eqb k k') eqn:E.
    + apply String.eqb_eq in E. subst k'. intros [= <-]. reflexivity.
    + apply (holds_value _ _ H).
Qed.

Lemma holds_values m rows :
  holds m rows -> Permutation (map snd m) (bucketSums rows).
Proof.
  intros H. unfold bucketSums.
  assert (Hv : map snd m = map (bucket rows) (map fst m)).
  { rewrite map_map. apply map_ext_in. intros [k v] Hin. simpl.
    apply (holds_value _ _ H). apply mapGet_of_entry; [apply (holds_NoDup _ _ H)|exact Hin]. }
  rewrite Hv. apply Permutation_map.
  apply NoDup_Permutation.
  - apply (holds_NoDup _ _ H).
  - apply NoDup_nodup.
  - intros k. rewrite nodup_In. apply (holds_keys _ _ H).
Qed.

(** ** Sorting permutes *)

Lemma insertSorted_Permutation {A} (gt : A -> A -> bool) x l :
  Permutation (insertSorted gt x l) (x :: l).
Proof.
  induction l as [|y l IH]; simpl; [reflexivity|].
  destruct (gt y x); [reflexivity|].
  rewrite IH. apply perm_swap.
Qed.

Lemma sortBy_Permutation {A} (gt : A -> A -> bool) l :
  Permutation (sortBy gt l) l.
Proof.
  unfold sortBy.
  assert (G : forall acc, Permutation (fold_left (fun acc x => insertSorted gt x acc) l acc)
                                      (acc ++ l)).
  { induction l as [|x l IH]; intros acc; simpl.
    - rewrite app_nil_r. reflexivity.
    - rewrite IH, insertSorted_Permutation. simpl. apply Permutation_middle. }
  apply (G []).
Qed.

End Buckets.

(* ================================================================== *)
(** * The loop of [parseCSV] *)

Module Loop.
Import NumFacts Buckets.

Lemma checkRow_nonNegative cols rawLine dateStr desc a :
  checkRow cols rawLine = Some (dateStr, desc, a) -> nonNegative a = true.
Proof.
  unfold checkRow.
  destruct (negb (nonEmpty (trim rawLine))); [discriminate|].
  destruct (Z.of_nat _ <=? _); [discriminate|].
  destruct (isNaN (parseAmount _)) eqn:Hnan; [discriminate|].
  destruct (_ && _); [discriminate|].
  intros [= _ _ <-].
  apply abs_nonNegative; [apply parseFloat_wellFormed|exact Hnan].
Qed.

Section WithHost.
Variable h : Host.

Lemma aggregates_initial : aggregates h [] initialState.
Proof.
  split; try reflexivity; try apply holds_nil. constructor.
Qed.

Lemma amountsNonNegative_keyed {K} (key : K -> string) (rows : list (K * number)) :
  Forall (fun r => nonNegative (snd r) = true) rows ->
  amountsNonNegative (map (fun r => (key (fst r), snd r)) rows).
Proof.
  intros H. unfold amountsNonNegative. apply Forall_map.
  apply (Forall_impl _ (P := fun r => nonNegative (snd r) = true)); [|exact H].
  intros r Hr. exact Hr.
Qed.

(** What a successful [accumulate] did. *)
Lemma accumulate_Ok st d desc a st' :
  accumulate h st d desc a = Ok st' ->
  exists t ws,
    d = Some t /\ getWeekStart h (Some t) = Some ws /\
    st' = {|
      st_transactions :=
        (st_transactions st
           ++ [{| date := datePart (isoString t); description := desc; amount := a |}])%list;
      monthlyMap :=
        mapSet (monthlyMap st) (monthYearLabel h t)
               (add (getOrZero (monthlyMap st) (monthYearLabel h t)) a);
      dailyMap :=
        mapSet (dailyMap st) (dayKey t) (add (getOrZero (dailyMap st) (dayKey t)) a);
      weeklyMap :=
        mapSet (weeklyMap st) (weekKeyOf h t)
               {| weekSpending :=
                    add (weekValueAt (weeklyMap st) (weekKeyOf h t)) a;
                  startDate :=
                    match mapGet (weeklyMap st) (weekKeyOf h t) with
                    | Some wd => startDate wd
                    | None => ws
                    end |};
      st_totalSpending := add (st_totalSpending st) a
    |}.
Proof.
  unfold accumulate. destruct d as [t|]; [|discriminate].
  cbn [toISOString bind].
  destruct (getWeekStart h (Some t)) as [ws|] eqn:Hws; [|discriminate].
  cbn [toISOString bind]. intros [= <-].
  exists t, ws. split; [reflexivity|]. split; [exact Hws|].
  unfold weekKeyOf, weekValueAt. rewrite Hws.
  destruct (mapGet (weeklyMap st) (datePart (isoString ws))); reflexivity.
Qed.

Lemma weekValueAt_valueAt m k :
  weekValueAt m k = valueAt (map (fun kv => (fst kv, weekSpending (snd kv))) m) k.
Proof.
  unfold weekValueAt, valueAt. rewrite mapGet_map.
  destruct (mapGet m k); reflexivity.
Qed.

Lemma accumulate_aggregates rows st t desc a st' :
  aggregates h rows st -> nonNegative a = true ->
  accumulate h st (Some t) desc a = Ok st' ->
  aggregates h (rows ++ [(t, a)]) st'.
Proof.
  intros Hagg Ha Hacc.
  destruct (accumulate_Ok _ _ _ _ _ Hacc) as [t' [ws [Ht [Hws ->]]]].
  injection Ht as <-.
  destruct Hagg as [Ham Htot Hmo Hda Hwe Hnn].
  split; cbn [st_transactions monthlyMap dailyMap weeklyMap st_totalSpending].
  - rewrite !map_app, Ham. reflexivity.
  - rewrite map_app. simpl map. rewrite sumOf_snoc, Htot. reflexivity.
  - unfold monthRows. rewrite map_app. simpl map.
    rewrite (holds_getOrZero _ _ _ Hmo) by (apply amountsNonNegative_keyed; exact Hnn).
    apply holds_step. exact Hmo.
  - unfold dayRows. rewrite map_app. simpl map.
    rewrite (holds_getOrZero _ _ _ Hda) by (apply amountsNonNegative_keyed; exact Hnn).
    apply holds_step. exact Hda.
  - unfold weekRows. rewrite map_app. simpl map.
    rewrite mapSet_map. cbn [weekSpending].
    rewrite weekValueAt_valueAt, (holds_valueAt _ _ _ Hwe).
    apply holds_step. exact Hwe.
  - apply Forall_app. split; [exact Hnn|]. constructor; [exact Ha|constructor].
Qed.

Lemma normalizeRow_Keep cols l d desc a :
  normalizeRow h cols l = Keep d desc a -> nonNegative a = true.
Proof.
  unfold normalizeRow.
  destruct (checkRow cols l) as [[[dateStr desc'] a']|] eqn:Hc; [|discriminate].
  apply checkRow_nonNegative in Hc.
  destruct (nonEmpty dateStr).
  - destruct (newDateParse h dateStr); [|discriminate]. intros [= _ _ <-]. exact Hc.
  - intros [= _ _ <-]. exact Hc.
Qed.

(** One iteration either leaves the state as it is, or accumulates the
    row that [keptRows] lists. *)
Lemma processLine_Ok cols st l st' :
  processLine h cols st l = Ok st' ->
  (keptRows h cols [l] = [] /\ st' = st)
  \/ (exists t desc a,
        normalizeRow h cols l = Keep (Some t) desc a
        /\ keptRows h cols [l] = [(t, a)]
        /\ nonNegative a = true
        /\ accumulate h st (Some t) desc a = Ok st').
Proof.
  unfold processLine, keptRows. simpl flat_map.
  destruct (normalizeRow h cols l) as [|d desc a] eqn:Hn.
  - intros [= <-]. left. split; reflexivity.
  - intros Hacc. right.
    destruct (accumulate_Ok _ _ _ _ _ Hacc) as [t [ws [-> _]]].
    exists t, desc, a. repeat split; try assumption.
    apply (normalizeRow_Keep _ _ _ _ _ Hn).
Qed.

Lemma keptRows_cons cols l lines :
  keptRows h cols (l :: lines) = (keptRows h cols [l] ++ keptRows h cols lines)%list.
Proof. unfold keptRows. simpl. rewrite app_nil_r. reflexivity. Qed.

Lemma processLines_aggregates cols lines : forall rows st st',
  aggregates h rows st ->
  processLines h cols st lines = Ok st' ->
  aggregates h (rows ++ keptRows h cols lines) st'.
Proof.
  induction lines as [|l lines IH]; intros rows st st' Hagg Hrun.
  - simpl in Hrun. injection Hrun as <-. unfold keptRows. simpl.
    rewrite app_nil_r. exact Hagg.
  - simpl in Hrun.
    destruct (processLine h cols st l) as [st1|e] eqn:Hstep; [|discriminate].
    cbn [bind] in Hrun. rewrite keptRows_cons, app_assoc.
    apply (IH _ st1); [|exact Hrun].
    destruct (processLine_Ok _ _ _ _ Hstep) as [[Hk ->]|[t [desc [a [_ [Hk [Ha Hacc]]]]]]];
      rewrite Hk.
    + rewrite app_nil_r. exact Hagg.
    + apply (accumulate_aggregates _ _ _ _ _ _ Hagg Ha Hacc).
Qed.

(** ** The assembled result *)

Lemma assembleMonthly_spending m :
  Permutation (map spending (assembleMonthly h m)) (map snd m).
Proof.
  unfold assembleMonthly.
  rewrite (Permutation_map spending (sortBy_Permutation _ _)).
  rewrite map_map. reflexivity.
Qed.

Lemma assembleDaily_spending m :
  Permutation (map spending (assembleDaily h m)) (map snd m).
Proof.
  unfold assembleDaily. rewrite map_map. cbn [spending].
  rewrite (Permutation_map _ (sortBy_Permutation _ _)).
  rewrite map_map. reflexivity.
Qed.

Lemma assembleWeekly_spending m :
  Permutation (map spending (assembleWeekly h m))
              (map snd (map (fun kv => (fst kv, weekSpending (snd kv))) m)).
Proof.
  unfold assembleWeekly. rewrite map_map. cbn [spending].
  rewrite (Permutation_map _ (sortBy_Permutation _ _)).
  rewrite !map_map. reflexivity.
Qed.

(** The lists of the result are the sums that the maps hold. *)
Lemma assemble_buckets rows st :
  aggregates h rows st ->
  map amount (transactions (assemble h st)) = map snd rows
  /\ Permutation (map spending (monthlySpending (assemble h st)))
                 (bucketSums (monthRows h rows))
  /\ Permutation (map spending (dailySpending (assemble h st)))
                 (bucketSums (dayRows rows))
  /\ Permutation (map spending (weeklySpending (assemble h st)))
                 (bucketSums (weekRows h rows)).
Proof.
  intros Hagg.
  cbn [transactions monthlySpending dailySpending weeklySpending assemble].
  split; [apply (agg_amounts _ _ _ Hagg)|].
  split; [rewrite assembleMonthly_spending; apply holds_values, (agg_monthly _ _ _ Hagg)|].
  split; [rewrite assembleDaily_spending; apply holds_values, (agg_daily _ _ _ Hagg)|].
  rewrite assembleWeekly_spending. apply holds_values, (agg_weekly _ _ _ Hagg).
Qed.

Lemma assemble_initial : assemble h initialState = emptyResult.
Proof. reflexivity. Qed.

(** [parseCSV] returns what the loop leaves, assembled; the early returns
    are the loop that never ran. *)
Lemma parseCSV_Ok csvContent r :
  parseCSV h csvContent = Ok r ->
  exists st, aggregates h (survivors h csvContent) st /\ r = assemble h st.
Proof.
  unfold parseCSV, parseLines, survivors, columnsOf, dataLines.
  destruct (contentLines csvContent) as [|headerLine [|l rest]].
  - intros [= <-]. exists initialState.
    split; [|symmetry; apply assemble_initial].
    cbn [hd tl keptRows flat_map].
    match goal with |- context [if ?c then _ else _] => destruct c end;
      apply aggregates_initial.
  - intros [= <-]. exists initialState.
    split; [|symmetry; apply assemble_initial].
    cbn [hd tl keptRows flat_map].
    match goal with |- context [if ?c then _ else _] => destruct c end;
      apply aggregates_initial.
  - cbn [hd tl].
    destruct (_ || _).
    + intros [= <-]. exists initialState.
      split; [apply aggregates_initial|symmetry; apply assemble_initial].
    + destruct (processLines h _ initialState (l :: rest)) as [st|e] eqn:Hrun;
        [|discriminate].
      cbn [bind]. intros [= <-]. exists st. split; [|reflexivity].
      apply (processLines_aggregates _ _ [] initialState st aggregates_initial Hrun).
Qed.
End WithHost.

End Loop.

(* ================================================================== *)
(** * The calendar *)

Module Calendar.

(** The year of the era lies in the era, and the day of the year in the
    year (which starts on the 1st of March). *)
Lemma year_of_era_range doe :
  0 <= doe < 146097 ->
  let yoe := (doe - doe / 1460 + doe / 36524 - doe / 146096) / 365 in
  0 <= yoe <= 399 /\ 0 <= doe - (365 * yoe + yoe / 4 - yoe / 100) <= 365.
Proof. intros H yoe. subst yoe. Z.div_mod_to_equations. lia. Qed.

(** [MakeDay] on the year and the month of a day counts from the first of
    that month. *)
Lemma daysFromCivil_first z k :
  daysFromCivil (fst (fst (civilFromDays z))) (snd (fst (civilFromDays z))) k
  = z - snd (civilFromDays z) + k.
Proof.
  unfold civilFromDays, daysFromCivil. cbv zeta. cbn [fst snd].
  set (era := (z + 719468) / 146097).
  set (doe := (z + 719468) mod 146097).
  assert (Hdoe : 0 <= doe < 146097) by (subst doe; apply Z.mod_pos_bound; lia).
  assert (Hz : z + 719468 = 146097 * era + doe)
    by (subst era doe; apply Z.div_mod; lia).
  destruct (year_of_era_range doe Hdoe) as [Hyoe Hdoy].
  set (yoe := (doe - doe / 1460 + doe / 36524 - doe / 146096) / 365) in *.
  set (doy := doe - (365 * yoe + yoe / 4 - yoe / 100)) in *.
  set (mp := (5 * doy + 2) / 153).
  assert (Hmp : 0 <= mp <= 11) by (subst mp; Z.div_mod_to_equations; lia).
  set (m := if mp <? 10 then mp + 3 else mp - 9).
  assert (Hm : (if m <=? 2 then 1 else 0) = (if mp <? 10 then 0 else 1)
               /\ (if 2 <? m then m - 3 else m + 9) = mp).
  { subst m. destruct (mp <? 10) eqn:E.
    - apply Z.ltb_lt in E.
      replace (mp + 3 <=? 2) with false by (symmetry; apply Z.leb_gt; lia).
      replace (2 <? mp + 3) with true by (symmetry; apply Z.ltb_lt; lia).
      split; [reflexivity|lia].
    - apply Z.ltb_ge in E.
      replace (mp - 9 <=? 2) with true by (symmetry; apply Z.leb_le; lia).
      replace (2 <? mp - 9) with false by (symmetry; apply Z.ltb_ge; lia).
      split; [reflexivity|lia]. }
  destruct Hm as [Hm1 Hm2]. rewrite Hm2.
  set (y := yoe + era * 400 + (if m <=? 2 then 1 else 0)).
  assert (Hy : (if m <=? 2 then y - 1 else y) = yoe + era * 400).
  { subst y. destruct (m <=? 2); lia. }
  rewrite Hy.
  assert (Hera : (yoe + era * 400) / 400 = era)
    by (symmetry; apply (Z.div_unique _ _ _ yoe); lia).
  assert (Hyoe' : (yoe + era * 400) mod 400 = yoe)
    by (symmetry; apply (Z.mod_unique _ _ era); lia).
  rewrite Hera, Hyoe'. subst doy. lia.
Qed.

Lemma MakeDay_same_month t k :
  MakeDay (YearFromTime t) (MonthFromTime t) k = Day t - DateFromTime t + k.
Proof.
  unfold MakeDay, YearFromTime, MonthFromTime, DateFromTime.
  replace (snd (fst (civilFromDays (Day t))) - 1 + 1)
    with (snd (fst (civilFromDays (Day t)))) by lia.
  rewrite daysFromCivil_first. lia.
Qed.

Lemma time_decomposition t : t = Day t * msPerDay + TimeWithinDay t.
Proof.
  unfold Day, TimeWithinDay. rewrite Z.mul_comm. apply Z.div_mod. discriminate.
Qed.

Section LocalCalendar.
Variable h : Host.

(** [setDate] moves the local time by whole days. *)
Lemma setDate_shift t dt :
  setDate h t dt
  = TimeClip (UTC h (LocalTime h t + (dt - getDate h t) * msPerDay)).
Proof.
  unfold setDate, getDate, MakeDate. rewrite MakeDay_same_month. f_equal. f_equal.
  rewrite (time_decomposition (LocalTime h t)) at 4. ring.
Qed.

(** The week start is the local time moved back to the Monday of its
    week: no day on a Monday, six days on a Sunday. *)
Lemma getWeekStart_shift t :
  getWeekStart h (Some t)
  = newDateValue
      (TimeClip (UTC h (LocalTime h t - ((getDay h t + 6) mod 7) * msPerDay))).
Proof.
  unfold getWeekStart. rewrite setDate_shift. f_equal. f_equal. f_equal.
  assert (Hd : 0 <= getDay h t < 7)
    by (unfold getDay, WeekDay; apply Z.mod_pos_bound; lia).
  destruct (getDay h t =? 0) eqn:E.
  - apply Z.eqb_eq in E. rewrite E. change ((0 + 6) mod 7) with 6. lia.
  - apply Z.eqb_neq in E.
    replace ((getDay h t + 6) mod 7) with (getDay h t - 1); [lia|].
    apply (Z.mod_unique _ _ 1); lia.
Qed.
End LocalCalendar.

Lemma TimeClip_idempotent t : newDateValue (TimeClip t) = TimeClip t.
Proof.
  unfold newDateValue, TimeClip.
  destruct ((- maxTime <=? t) && (t <=? maxTime)) eqn:E; [|reflexivity].
  unfold TimeClip. rewrite E. reflexivity.
Qed.

(** On a host whose local time is UTC the week start is the Monday (in
    UTC) on or before the date, at the same time of day. *)
Lemma getWeekStart_utc h t :
  (forall u b, LocalTZA h u b = 0) ->
  let monday := t - ((WeekDay t + 6) mod 7) * msPerDay in
  getWeekStart h (Some t) = TimeClip monday
  /\ WeekDay monday = 1
  /\ TimeWithinDay monday = TimeWithinDay t
  /\ 0 <= Day t - Day monday <= 6
  /\ (WeekDay t = 0 -> Day t - Day monday = 6).
Proof.
  intros Hutc monday.
  assert (Hw : 0 <= WeekDay t < 7) by (unfold WeekDay; apply Z.mod_pos_bound; lia).
  set (k := (WeekDay t + 6) mod 7) in *.
  assert (Hk : 0 <= k < 7) by (subst k; apply Z.mod_pos_bound; lia).
  assert (Hday : Day monday = Day t - k).
  { subst monday. unfold Day.
    replace (t - k * msPerDay) with (t + (- k) * msPerDay) by ring.
    rewrite Z.div_add by discriminate. lia. }
  split; [|split; [|split; [|split]]].
  - rewrite getWeekStart_shift, TimeClip_idempotent.
    unfold getDay, UTC, LocalTime. rewrite !Hutc, !Z.add_0_r, Z.sub_0_r. reflexivity.
  - unfold WeekDay. rewrite Hday. subst k. unfold WeekDay.
    Z.div_mod_to_equations. lia.
  - subst monday. unfold TimeWithinDay.
    replace (t - k * msPerDay) with (t + (- k) * msPerDay) by ring.
    apply Z.mod_add. discriminate.
  - rewrite Hday. lia.
  - intros H0. rewrite Hday. subst k. rewrite H0. change ((0 + 6) mod 7) with 6. lia.
Qed.

End Calendar.

(* ================================================================== *)
(** * Runs of the parser *)

Module Runs.
Import NumFacts Buckets Loop Calendar.

Lemma processLines_app h cols l1 : forall st l2,
  processLines h cols st (l1 ++ l2)
  = bind (processLines h cols st l1) (fun st1 => processLines h cols st1 l2).
Proof.
  induction l1 as [|l l1 IH]; intros st l2; simpl; [reflexivity|].
  destruct (processLine h cols st l) as [st1|e]; simpl; [apply IH|reflexivity].
Qed.

(** The rows stored so far are never dropped. *)
Lemma processLines_keeps_transactions h cols lines : forall st st' tx,
  processLines h cols st lines = Ok st' ->
  In tx (st_transactions st) -> In tx (st_transactions st').
Proof.
  induction lines as [|l lines IH]; intros st st' tx Hrun Hin; simpl in Hrun.
  - injection Hrun as <-. exact Hin.
  - destruct (processLine h cols st l) as [st1|e] eqn:Hstep; [|discriminate].
    apply (IH st1 st' tx Hrun).
    destruct (processLine_Ok h _ _ _ _ Hstep) as [[_ ->]|[t [desc [a [_ [_ [_ Hacc]]]]]]];
      [exact Hin|].
    destruct (accumulate_Ok h _ _ _ _ _ Hacc) as [t' [ws [_ [_ ->]]]].
    cbn [st_transactions]. apply in_or_app. left. exact Hin.
Qed.

(** The early return for a header alone is what the loop over no row
    returns. *)
Lemma parseLines_cons h header rows :
  parseLines h (header :: rows)
  = let cols := resolveColumns (parseCSVLine header) in
    if (dateColIndex cols =? -1) || (amountColIndex cols =? -1) then Ok emptyResult
    else bind (processLines h cols initialState rows) (fun st => Ok (assemble h st)).
Proof.
  destruct rows as [|l rest]; [|reflexivity].
  cbv zeta. cbn [parseLines processLines bind].
  destruct (_ || _); reflexivity.
Qed.

Lemma checkRow_not_debit cols row :
  0 <= typeColIndex cols ->
  toLowerCase (fieldAt (parseCSVLine (trim row)) (typeColIndex cols)) <> "debit" ->
  checkRow cols row = None.
Proof.
  intros Hcol Htype. unfold checkRow.
  destruct (negb (nonEmpty (trim row))); [reflexivity|].
  destruct (Z.of_nat _ <=? _); [reflexivity|].
  destruct (isNaN _); [reflexivity|].
  apply Z.leb_le in Hcol. rewrite Hcol. cbn [andb].
  apply String.eqb_neq in Htype. rewrite Htype. reflexivity.
Qed.

Lemma nonBlank_contentLines csvContent row :
  In row (contentLines csvContent) -> nonEmpty (trim row) = true.
Proof. unfold contentLines. intros H. apply filter_In in H. apply H. Qed.

Lemma normalizeRow_dated h cols row dateStr desc a t :
  checkRow cols row = Some (dateStr, desc, a) ->
  nonEmpty dateStr = true ->
  dateParse h dateStr = Some t ->
  normalizeRow h cols row = Keep (TimeClip t) desc a
  \/ (TimeClip t = None /\ normalizeRow h cols row = Discard).
Proof.
  intros Hc Hne Hp. unfold normalizeRow, newDateParse. rewrite Hc, Hne, Hp.
  destruct (TimeClip t) as [u|]; [left|right; split]; reflexivity.
Qed.

(** A host at a fixed offset finds the day of the week on the local
    calendar and moves the UTC time by that many days. *)
Lemma getWeekStart_fixed_offset h offset t :
  (forall u b, LocalTZA h u b = offset) ->
  getWeekStart h (Some t)
  = TimeClip (t - ((WeekDay (t + offset) + 6) mod 7) * msPerDay).
Proof.
  intros Hoff. rewrite getWeekStart_shift, TimeClip_idempotent.
  unfold getDay, UTC, LocalTime. rewrite !Hoff. f_equal. ring.
Qed.

Lemma weekKeyOf_eq h t ws :
  getWeekStart h (Some t) = Some ws -> weekKeyOf h t = datePart (isoString ws).
Proof. unfold weekKeyOf. intros ->. reflexivity. Qed.

(** What [accumulate] does for a valid date with a valid week start.  The
    date stays a variable until the week start is known, so that no proof
    has to compute with an open calendar term. *)
Lemma accumulate_run h st d t desc a ws :
  d = Some t -> getWeekStart h d = Some ws ->
  accumulate h st d desc a
  = Ok {|
      st_transactions :=
        (st_transactions st
           ++ [{| date := datePart (isoString t); description := desc; amount := a |}])%list;
      monthlyMap :=
        mapSet (monthlyMap st) (monthYearLabel h t)
               (add (getOrZero (monthlyMap st) (monthYearLabel h t)) a);
      dailyMap :=
        mapSet (dailyMap st) (dayKey t) (add (getOrZero (dailyMap st) (dayKey t)) a);
      weeklyMap :=
        mapSet (weeklyMap st) (datePart (isoString ws))
               {| weekSpending :=
                    add (weekSpending
                           match mapGet (weeklyMap st) (datePart (isoString ws)) with
                           | Some wd => wd
                           | None => {| weekSpending := zero; startDate := ws |}
                           end) a;
                  startDate :=
                    startDate
                      match mapGet (weeklyMap st) (datePart (isoString ws)) with
                      | Some wd => wd
                      | None => {| weekSpending := zero; startDate := ws |}
                      end |};
      st_totalSpending := add (st_totalSpending st) a
    |}.
Proof.
  intros Hd Hws. unfold accumulate. rewrite Hws. subst d. reflexivity.
Qed.

Lemma accumulate_throws h st d t desc a :
  d = Some t -> getWeekStart h d = None ->
  accumulate h st d desc a = Throw (RangeError "Invalid time value").
Proof.
  intros Hd Hws. unfold accumulate. rewrite Hws. subst d. reflexivity.
Qed.

Lemma assembleWeekly_length h m :
  List.length (assembleWeekly h m) = List.length m.
Proof.
  unfold assembleWeekly. rewrite length_map.
  rewrite (Permutation_length (sortBy_Permutation _ _)). apply length_map.
Qed.

Lemma processLines_ext h1 h2 cols lines : forall st,
  (forall st d desc a, accumulate h1 st d desc a = accumulate h2 st d desc a) ->
  (forall l, In l lines -> normalizeRow h1 cols l = normalizeRow h2 cols l) ->
  processLines h1 cols st lines = processLines h2 cols st lines.
Proof.
  induction lines as [|l lines IH]; intros st Hacc Hrows; simpl; [reflexivity|].
  unfold processLine. rewrite (Hrows l) by (left; reflexivity).
  destruct (normalizeRow h2 cols l) as [|d desc a].
  - cbn [bind]. apply IH; [exact Hacc|]. intros l' Hl'. apply Hrows. right. exact Hl'.
  - rewrite Hacc. destruct (accumulate h2 st d desc a) as [st1|e]; [|reflexivity].
    cbn [bind]. apply IH; [exact Hacc|]. intros l' Hl'. apply Hrows. right. exact Hl'.
Qed.

(** Only [new Date()] reads the clock. *)
Lemma withNow_LocalTime h clock : LocalTime (withNow h clock) = LocalTime h.
Proof. reflexivity. Qed.

Lemma withNow_UTC h clock : UTC (withNow h clock) = UTC h.
Proof. reflexivity. Qed.

Lemma withNow_newDateParse h clock : newDateParse (withNow h clock) = newDateParse h.
Proof. reflexivity. Qed.

Lemma withNow_getDate h clock t : getDate (withNow h clock) t = getDate h t.
Proof. unfold getDate. rewrite withNow_LocalTime. reflexivity. Qed.

Lemma withNow_getDay h clock t : getDay (withNow h clock) t = getDay h t.
Proof. unfold getDay. rewrite withNow_LocalTime. reflexivity. Qed.

Lemma withNow_setDate h clock t dt : setDate (withNow h clock) t dt = setDate h t dt.
Proof. unfold setDate. rewrite withNow_LocalTime, withNow_UTC. reflexivity. Qed.

Lemma withNow_getWeekStart h clock d :
  getWeekStart (withNow h clock) d = getWeekStart h d.
Proof.
  unfold getWeekStart. destruct d as [t|]; [|reflexivity].
  rewrite withNow_getDay, withNow_getDate, withNow_setDate. reflexivity.
Qed.

Lemma withNow_accumulate h clock st d desc a :
  accumulate (withNow h clock) st d desc a = accumulate h st d desc a.
Proof.
  unfold accumulate. rewrite withNow_getWeekStart.
  change (monthYearLabel (withNow h clock)) with (monthYearLabel h).
  reflexivity.
Qed.

Lemma withNow_weekLabel h clock wd : weekLabel (withNow h clock) wd = weekLabel h wd.
Proof.
  unfold weekLabel. rewrite withNow_getDate, withNow_setDate.
  change (monthDayLabel (withNow h clock)) with (monthDayLabel h).
  destruct (setDate h _ _) as [t|]; [|reflexivity].
  rewrite withNow_getDate. reflexivity.
Qed.

Lemma withNow_assembleMonthly h clock m :
  assembleMonthly (withNow h clock) m = assembleMonthly h m.
Proof. unfold assembleMonthly. rewrite withNow_newDateParse. reflexivity. Qed.

Lemma withNow_assembleDaily h clock m :
  assembleDaily (withNow h clock) m = assembleDaily h m.
Proof. unfold assembleDaily, dayLabel. rewrite withNow_newDateParse. reflexivity. Qed.

Lemma withNow_assembleWeekly h clock m :
  assembleWeekly (withNow h clock) m = assembleWeekly h m.
Proof.
  unfold assembleWeekly.
  rewrite (map_ext
             (fun kv => (startDate (snd kv),
                         (weekLabel (withNow h clock) (snd kv), weekSpending (snd kv))))
             (fun kv => (startDate (snd kv),
                         (weekLabel h (snd kv), weekSpending (snd kv))))).
  - reflexivity.
  - intros kv. rewrite withNow_weekLabel. reflexivity.
Qed.

Lemma withNow_assemble h clock st : assemble (withNow h clock) st = assemble h st.
Proof.
  unfold assemble.
  rewrite withNow_assembleMonthly, withNow_assembleDaily, withNow_assembleWeekly.
  reflexivity.
Qed.

Lemma withNow_parseCSV h clock csvContent :
  (forall row dateStr desc a,
     In row (dataLines csvContent) ->
     checkRow (columnsOf csvContent) row = Some (dateStr, desc, a) ->
     dateStr <> EmptyString) ->
  parseCSV (withNow h clock) csvContent = parseCSV h csvContent.
Proof.
  unfold parseCSV, dataLines, columnsOf.
  destruct (contentLines csvContent) as [|header rows]; [reflexivity|].
  cbn [hd tl]. intros Hdates. rewrite !parseLines_cons. cbv zeta.
  destruct (_ || _); [reflexivity|].
  rewrite (processLines_ext (withNow h clock) h).
  - destruct (processLines h _ _ _) as [st|e]; cbn [bind]; [|reflexivity].
    rewrite withNow_assemble. reflexivity.
  - intros st d desc a. apply withNow_accumulate.
  - intros l Hl. unfold normalizeRow.
    destruct (checkRow _ l) as [[[dateStr desc] a]|] eqn:Hc; [|reflexivity].
    specialize (Hdates l dateStr desc a Hl Hc).
    destruct dateStr as [|c s]; [exfalso; apply Hdates; reflexivity|].
    cbn [nonEmpty]. rewrite withNow_newDateParse. reflexivity.
Qed.

Lemma bucketSums_nonNegative rows v :
  amountsNonNegative rows -> In v (bucketSums rows) -> nonNegative v = true.
Proof.
  intros Hnn Hin. unfold bucketSums in Hin. apply in_map_iff in Hin.
  destruct Hin as [k [<- _]]. apply bucket_nonNegative. exact Hnn.
Qed.

Lemma entries_nonNegative (entries : list SpendingEntry) rows e :
  Permutation (map spending entries) (bucketSums rows) ->
  amountsNonNegative rows -> In e entries -> leb zero (spending e) = true.
Proof.
  intros Hperm Hnn Hin. apply leb_zero.
  apply (bucketSums_nonNegative rows); [exact Hnn|].
  apply (Permutation_in _ Hperm). apply in_map. exact Hin.
Qed.

(** A running sum is non-negative and one more row does not lower it. *)
Lemma holds_monotone m rows m' k0 a k :
  holds m rows -> holds m' (rows ++ [(k0, a)]) ->
  amountsNonNegative rows -> nonNegative a = true ->
  leb zero (valueAt m k) = true /\ leb (valueAt m k) (valueAt m' k) = true.
Proof.
  intros H H' Hnn Ha.
  rewrite (holds_valueAt _ _ k H), (holds_valueAt _ _ k H'), bucket_snoc.
  pose proof (bucket_nonNegative rows k Hnn) as Hb.
  split; [apply leb_zero; exact Hb|].
  destruct (String.eqb k0 k).
  - apply add_nonNegative; assumption.
  - apply leb_refl. exact Hb.
Qed.

Lemma holds_stable m rows k :
  holds m rows -> amountsNonNegative rows ->
  leb zero (valueAt m k) = true /\ leb (valueAt m k) (valueAt m k) = true.
Proof.
  intros H Hnn. rewrite (holds_valueAt _ _ k H).
  pose proof (bucket_nonNegative rows k Hnn) as Hb.
  split; [apply leb_zero|apply leb_refl]; exact Hb.
Qed.

(** A line that is not blank is not empty. *)
Lemma filter_length_le {A} (p q : A -> bool) l :
  (forall x, p x = true -> q x = true) ->
  (List.length (filter p l) <= List.length (filter q l))%nat.
Proof.
  intros Hpq. induction l as [|x l IH]; simpl; [lia|].
  destruct (p x) eqn:Hp.
  - rewrite (Hpq x Hp). simpl. lia.
  - destruct (q x); simpl; lia.
Qed.

Lemma nonBlank_nonEmpty line : nonBlank line = true -> nonEmpty line = true.
Proof. destruct line; [discriminate|reflexivity]. Qed.

Lemma contentLines_le_nonEmpty csvContent :
  (List.length (contentLines csvContent)
   <= List.length (filter nonEmpty (splitOn newline csvContent)))%nat.
Proof. apply filter_length_le. exact nonBlank_nonEmpty. Qed.

(** ** One row among the kept rows *)

Lemma keptRows_app h cols l1 l2 :
  keptRows h cols (l1 ++ l2) = (keptRows h cols l1 ++ keptRows h cols l2)%list.
Proof. unfold keptRows. apply flat_map_app. Qed.

(** The sum of a key once one more row has been filed under it. *)
Lemma bucket_middle before k a after :
  bucket (before ++ (k, a) :: after) k
  = fold_left add (map snd (filter (fun r => String.eqb (fst r) k) after))
              (add (bucket before k) a).
Proof.
  unfold bucket, sumOf. rewrite filter_app. cbn [filter fst].
  rewrite String.eqb_refl, map_app, fold_left_app. reflexivity.
Qed.

Lemma sumOf_middle before a after :
  sumOf (before ++ a :: after) = fold_left add after (add (sumOf before) a).
Proof. unfold sumOf. rewrite fold_left_app. reflexivity. Qed.

(** Every key of the rows has its entry. *)
Lemma entry_of_key (entries : list SpendingEntry) rows k :
  Permutation (map spending entries) (bucketSums rows) ->
  In k (map fst rows) ->
  exists e, In e entries /\ spending e = bucket rows k.
Proof.
  intros Hperm Hk.
  assert (Hin : In (bucket rows k) (map spending entries)).
  { apply (Permutation_in _ (Permutation_sym Hperm)).
    unfold bucketSums. apply in_map. apply nodup_In. exact Hk. }
  apply in_map_iff in Hin. destruct Hin as [e [He Hin]].
  exists e. split; [exact Hin|exact He].
Qed.

(** The rows stored so far stay where they are. *)
Lemma processLines_transactions h cols lines : forall st st',
  processLines h cols st lines = Ok st' ->
  exists more, st_transactions st' = (st_transactions st ++ more)%list.
Proof.
  induction lines as [|l lines IH]; intros st st' Hrun; cbn [processLines] in Hrun.
  - injection Hrun as <-. exists []. rewrite app_nil_r. reflexivity.
  - destruct (processLine h cols st l) as [st1|e] eqn:Hstep; [|discriminate].
    cbn [bind] in Hrun. destruct (IH st1 st' Hrun) as [more Hmore].
    destruct (processLine_Ok h _ _ _ _ Hstep) as [[_ ->]|[t [desc [a [_ [_ [_ Hacc]]]]]]].
    + exists more. exact Hmore.
    + destruct (accumulate_Ok h _ _ _ _ _ Hacc) as [t' [ws [_ [_ E]]]].
      rewrite E in Hmore. cbn [st_transactions] in Hmore.
      eexists. rewrite Hmore, <- app_assoc. reflexivity.
Qed.

End Runs.

(* ================================================================== *)
(** * More on binary64 arithmetic *)

Module NumMore.
Import NumFacts.

Local Abbreviation fexp := (SpecFloat.fexp prec emax).

(** ** The sign does not change the rounding *)

Lemma binary_round_aux_abs s m e l :
  abs (binary_round_aux prec emax s m e l)
  = abs (binary_round_aux prec emax false m e l).
Proof.
  rewrite !binary_round_aux_unfold. unfold finishRound.
  destruct (shr_fexp prec emax _ _ loc_Exact) as [mrs e'].
  destruct (shr_m mrs); [reflexivity| |reflexivity].
  destruct (e' <=? emax - prec); reflexivity.
Qed.

Lemma binary_round_abs s m e :
  abs (binary_round prec emax s m e) = abs (binary_round prec emax false m e).
Proof.
  unfold binary_round. destruct (shl_align m e _) as [mz ez].
  apply binary_round_aux_abs.
Qed.

Lemma ofDecimal_abs m e10 :
  0 <= m -> abs (ofDecimal true m e10) = abs (ofDecimal false m e10).
Proof.
  intros Hm. unfold ofDecimal.
  destruct (m =? 0) eqn:Hz; [reflexivity|]. apply Z.eqb_neq in Hz.
  destruct (0 <=? e10) eqn:He.
  - apply Z.leb_le in He.
    assert (Hp : 0 < m * 10 ^ e10)
      by (apply Z.mul_pos_pos; [lia|apply Z.pow_pos_nonneg; lia]).
    replace (- m * 10 ^ e10) with (- (m * 10 ^ e10)) by ring.
    destruct (m * 10 ^ e10) as [|p|p]; try lia.
    cbn [Z.opp binary_normalize]. apply binary_round_abs.
  - destruct (SFdiv_core_binary prec emax m 0 (10 ^ (- e10)) 0) as [[q e] l].
    apply binary_round_aux_abs.
Qed.

(** A minus sign in front of a numeral changes the sign of the value and
    nothing else; a plus sign changes nothing. *)
Lemma parseFloat_signed c rest :
  isWhiteSpace c = false -> c <> "-"%char -> c <> "+"%char ->
  abs (parseFloat (String "-" (String c rest))) = abs (parseFloat (String c rest))
  /\ parseFloat (String "+" (String c rest)) = parseFloat (String c rest).
Proof.
  intros Hws Hminus Hplus.
  assert (Hm : match String c rest with
               | String "-"%char r => (true, r)
               | String "+"%char r => (false, r)
               | _ => (false, String c rest)
               end = (false, String c rest)).
  { destruct c as [[] [] [] [] [] [] [] []]; try reflexivity; exfalso; auto. }
  unfold parseFloat.
  change (trimStart (String "-" (String c rest))) with (String "-" (String c rest)).
  change (trimStart (String "+" (String c rest))) with (String "+" (String c rest)).
  replace (trimStart (String c rest)) with (String c rest)
    by (cbn [trimStart]; rewrite Hws; reflexivity).
  rewrite Hm. cbv iota beta.
  split; [|reflexivity].
  set (u := String c rest).
  destruct (prefix "Infinity" u); [reflexivity|].
  pose proof (readDigits_nonneg u 0 0 ltac:(lia)) as H1.
  destruct (readDigits u 0 0) as [[m1 n1] s2]. simpl in H1.
  set (fr := match s2 with
             | String "."%char r => readDigits r m1 0
             | _ => (m1, 0, s2)
             end).
  assert (H2 : 0 <= fst (fst fr)).
  { subst fr. destruct s2 as [|d r]; [exact H1|].
    destruct (Ascii.eqb d "."%char) eqn:Hd.
    - apply Ascii.eqb_eq in Hd. subst d. apply readDigits_nonneg. exact H1.
    - destruct d as [[] [] [] [] [] [] [] []]; try exact H1; discriminate. }
  destruct fr as [[m2 n2] s3]. simpl in H2.
  destruct (n1 + n2 =? 0); [reflexivity|].
  apply ofDecimal_abs. exact H2.
Qed.

(** ** Products, quotients and [Math.round] of non-negative numbers *)

Lemma binary_round_aux_nonNegative m e l :
  0 <= m -> e <= fexp (Zdigits2 m + e) ->
  nonNegative (binary_round_aux prec emax false m e l) = true.
Proof.
  intros Hm He.
  destruct (binary_round_aux_cases false m e l Hm He) as [[H _]|[H|[mr [er [H [Hb _]]]]]];
    rewrite H; try reflexivity. exact Hb.
Qed.

Lemma binary_round_nonNegative m e :
  nonNegative (binary_round prec emax false m e) = true.
Proof.
  destruct (binary_round_cases false m e) as [[H _]|[H|[mr [er [H [Hb _]]]]]];
    rewrite H; try reflexivity. exact Hb.
Qed.

Lemma Zdigits2_mul a b :
  0 < a -> 0 < b -> Zdigits2 a + Zdigits2 b - 1 <= Zdigits2 (a * b).
Proof.
  intros Ha Hb.
  pose proof (Zdigits2_bounds a Ha) as Ba. pose proof (Zdigits2_bounds b Hb) as Bb.
  pose proof (Zdigits2_pos a Ha) as Pa. pose proof (Zdigits2_pos b Hb) as Pb.
  apply Zdigits2_ge; [lia|].
  replace (Zdigits2 a + Zdigits2 b - 1 - 1) with ((Zdigits2 a - 1) + (Zdigits2 b - 1))
    by lia.
  rewrite Z.pow_add_r by lia.
  assert (0 < 2 ^ (Zdigits2 a - 1)) by (apply Z.pow_pos_nonneg; lia).
  assert (0 < 2 ^ (Zdigits2 b - 1)) by (apply Z.pow_pos_nonneg; lia).
  nia.
Qed.

Lemma mul_nonNegative x my ey :
  nonNegative x = true -> bounded prec emax my ey = true ->
  nonNegative (mul x (S754_finite false my ey)) = true.
Proof.
  intros Hx Hy.
  destruct x as [[]|[]| |[] mx ex]; try discriminate; try reflexivity.
  cbn [nonNegative negb andb wellFormed valid_binary] in Hx.
  unfold mul, SFmul. cbn [xorb].
  apply binary_round_aux_nonNegative; [lia|].
  destruct (bounded_canonical mx ex Hx) as [Cx _].
  destruct (bounded_canonical my ey Hy) as [Cy _].
  change (Zpos (digits2_pos mx)) with (Zdigits2 (Zpos mx)) in Cx.
  change (Zpos (digits2_pos my)) with (Zdigits2 (Zpos my)) in Cy.
  pose proof (Zdigits2_mul (Zpos mx) (Zpos my) ltac:(lia) ltac:(lia)) as Hd.
  pose proof (Zdigits2_pos (Zpos mx) ltac:(lia)).
  pose proof (Zdigits2_pos (Zpos my) ltac:(lia)).
  change (Zpos (mx * my)) with (Zpos mx * Zpos my).
  rewrite fexp_unfold in *. lia.
Qed.

Lemma round_nonNegative x : nonNegative x = true -> nonNegative (Num.round x) = true.
Proof.
  intros Hx. destruct x as [[]|[]| |[] m e]; try discriminate; try reflexivity.
  unfold Num.round. destruct (0 <=? e) eqn:He; [exact Hx|].
  apply Z.leb_gt in He.
  assert (Hn : 0 <= (2 * Zpos m + 2 ^ (- e)) / 2 ^ (1 - e)).
  { apply Z.div_pos; [|apply Z.pow_pos_nonneg; lia].
    assert (0 < 2 ^ (- e)) by (apply Z.pow_pos_nonneg; lia). lia. }
  destruct ((2 * Zpos m + 2 ^ (- e)) / 2 ^ (1 - e)) as [|p|p]; [reflexivity| |lia].
  apply binary_round_nonNegative.
Qed.

Lemma div_core_precondition_gen m1 e1 m2 e2 :
  0 < m1 -> 0 < m2 ->
  let '(q, e, _) := SFdiv_core_binary prec emax m1 e1 m2 e2 in
  0 <= q /\ e <= fexp (Zdigits2 q + e).
Proof.
  intros Hm Hk. unfold SFdiv_core_binary.
  set (d1 := Zdigits2 m1). set (d2 := Zdigits2 m2).
  set (e' := Z.min (fexp (d1 + e1 - (d2 + e2))) (e1 - e2)).
  assert (He' : e' <= e1 - e2) by (subst e'; lia).
  assert (Hm' : match e1 - e2 - e' with
                | Z0 => m1 | Zpos _ => Z.shiftl m1 (e1 - e2 - e') | Zneg _ => 0
                end = m1 * 2 ^ (e1 - e2 - e')).
  { remember (e1 - e2 - e') as s eqn:Hs. destruct s as [|p|p]; try lia.
    rewrite Z.shiftl_mul_pow2 by lia. reflexivity. }
  rewrite Hm'. clear Hm'.
  set (s := e1 - e2 - e') in *.
  assert (Hs : 0 <= s) by (subst s; lia).
  assert (Hp : 0 < 2 ^ s) by (apply Z.pow_pos_nonneg; lia).
  assert (Hq : fst (Z.div_eucl (m1 * 2 ^ s) m2) = (m1 * 2 ^ s) / m2) by reflexivity.
  destruct (Z.div_eucl (m1 * 2 ^ s) m2) as [q r]. simpl fst in Hq.
  assert (Hq0 : 0 <= q) by (rewrite Hq; apply Z.div_pos; nia).
  split; [exact Hq0|].
  assert (Hd : d1 + e1 - (d2 + e2) <= Zdigits2 q + e').
  { destruct (Z_le_gt_dec 1 (d1 + s - d2)) as [Hc|Hc].
    - assert (d1 + s - d2 <= Zdigits2 q); [|subst s; lia].
      apply Zdigits2_ge; [lia|].
      rewrite Hq. apply Z.div_le_lower_bound; [lia|].
      assert (B1 := Zdigits2_bounds m1 Hm). assert (B2 := Zdigits2_bounds m2 Hk).
      fold d1 in B1. fold d2 in B2.
      assert (Hd2 : 0 < d2) by (apply Zdigits2_pos; assumption).
      assert (Hd1 : 0 < d1) by (apply Zdigits2_pos; assumption).
      assert (2 ^ (d1 - 1) * 2 ^ s = 2 ^ d2 * 2 ^ (d1 + s - d2 - 1)).
      { rewrite <- !Z.pow_add_r by lia. f_equal. lia. }
      assert (0 < 2 ^ (d1 + s - d2 - 1)) by (apply Z.pow_pos_nonneg; lia).
      nia.
    - assert (0 <= Zdigits2 q) by apply Zdigits2_nonneg. subst s. lia. }
  transitivity (fexp (d1 + e1 - (d2 + e2))); [subst e'; lia|apply fexp_mono; exact Hd].
Qed.

Lemma div_nonNegative x my ey :
  nonNegative x = true -> nonNegative (div x (S754_finite false my ey)) = true.
Proof.
  intros Hx. destruct x as [[]|[]| |[] mx ex]; try discriminate; try reflexivity.
  unfold div, SFdiv. cbn [xorb].
  pose proof (div_core_precondition_gen (Zpos mx) ex (Zpos my) ey ltac:(lia) ltac:(lia)) as H.
  destruct (SFdiv_core_binary prec emax (Zpos mx) ex (Zpos my) ey) as [[q e] l].
  destruct H as [Hq Hpre]. apply binary_round_aux_nonNegative; assumption.
Qed.

Lemma hundred : ofZ 100 = S754_finite false 7036874417766400 (-46).
Proof. reflexivity. Qed.

Lemma roundToCents_nonNegative x :
  nonNegative x = true -> nonNegative (roundToCents x) = true.
Proof.
  intros Hx. unfold roundToCents. rewrite hundred.
  apply div_nonNegative, round_nonNegative, mul_nonNegative; [exact Hx|reflexivity].
Qed.

End NumMore.

(* ================================================================== *)
(** * Whole numbers and [Math.round] *)

Module Cents.
Import NumFacts.

Local Abbreviation fexp := (SpecFloat.fexp prec emax).

(** ** Shifting out zeros is exact *)

Lemma shr_1_even k :
  0 <= k ->
  shr_1 {| shr_m := 2 * k; shr_r := false; shr_s := false |}
  = {| shr_m := k; shr_r := false; shr_s := false |}.
Proof.
  intros Hk. destruct k as [|p|p]; [reflexivity|reflexivity|lia].
Qed.

Lemma iter_shr_1_exact p : forall k,
  0 <= k ->
  iter_pos shr_1 p {| shr_m := k * 2 ^ Zpos p; shr_r := false; shr_s := false |}
  = {| shr_m := k; shr_r := false; shr_s := false |}.
Proof.
  induction p as [p IH|p IH|]; intros k Hk; cbn [iter_pos].
  - replace (k * 2 ^ Zpos p~1) with (2 * ((k * 2 ^ Zpos p) * 2 ^ Zpos p)).
    + assert (Hp : 0 < 2 ^ Zpos p) by (apply Z.pow_pos_nonneg; lia).
      rewrite shr_1_even by nia. rewrite IH by nia. apply IH. exact Hk.
    + replace (Zpos p~1) with (Zpos p + Zpos p + 1) by lia.
      rewrite !Z.pow_add_r, Z.pow_1_r by lia. ring.
  - replace (k * 2 ^ Zpos p~0) with ((k * 2 ^ Zpos p) * 2 ^ Zpos p).
    + assert (Hp : 0 < 2 ^ Zpos p) by (apply Z.pow_pos_nonneg; lia).
      rewrite IH by nia. apply IH. exact Hk.
    + replace (Zpos p~0) with (Zpos p + Zpos p) by lia.
      rewrite !Z.pow_add_r by lia. ring.
  - change (2 ^ 1) with 2. rewrite Z.mul_comm. apply shr_1_even. exact Hk.
Qed.

(** ** A whole number that is a binary64 value is that value *)

Lemma ofZ_exact m e :
  bounded prec emax m e = true -> 0 <= e ->
  ofZ (Zpos m * 2 ^ e) = S754_finite false m e.
Proof.
  intros Hb He.
  destruct (bounded_canonical m e Hb) as [Hcan Hmax].
  change (Zpos (digits2_pos m)) with (Zdigits2 (Zpos m)) in Hcan.
  assert (Hpow : 0 < 2 ^ e) by (apply Z.pow_pos_nonneg; lia).
  assert (Hdig : Zdigits2 (Zpos m * 2 ^ e) = Zdigits2 (Zpos m) + e)
    by (apply Zdigits2_shift; lia).
  unfold ofZ.
  destruct (Zpos m * 2 ^ e) as [|P|P] eqn:EP; try lia.
  cbn [binary_normalize]. unfold binary_round.
  change (Zpos (digits2_pos P)) with (Zdigits2 (Zpos P)).
  rewrite Hdig, Z.add_0_r, Hcan.
  assert (Halign : shl_align P 0 e = (P, 0)).
  { unfold shl_align. rewrite Z.sub_0_r. destruct e; try reflexivity; lia. }
  rewrite Halign, binary_round_aux_unfold.
  assert (Hshift : shr_fexp prec emax (Zpos P) 0 loc_Exact
                   = ({| shr_m := Zpos m; shr_r := false; shr_s := false |}, e)).
  { unfold shr_fexp. rewrite Hdig, Z.add_0_r, Hcan, Z.sub_0_r.
    cbn [shr_record_of_loc]. unfold shr.
    destruct e as [|p|p]; try lia.
    - rewrite <- EP, Z.pow_0_r, Z.mul_1_r. reflexivity.
    - rewrite <- EP, iter_shr_1_exact by lia. reflexivity. }
  rewrite Hshift. cbn [fst snd shr_m loc_of_shr_record round_nearest_even].
  unfold finishRound, shr_fexp. rewrite Hcan, Z.sub_diag.
  cbn [shr_record_of_loc shr shr_m].
  replace (e <=? emax - prec) with true by (symmetry; apply Z.leb_le; exact Hmax).
  reflexivity.
Qed.

(** ** [Math.round] *)

(** [Math.round] of a positive binary64 number is the whole number nearest
    to it, the larger one at a tie. *)
Lemma round_nearest m e :
  bounded prec emax m e = true ->
  exists c, isNearestInteger (Zpos m) e c
            /\ Num.round (S754_finite false m e) = ofZ c.
Proof.
  intros Hb. unfold Num.round, isNearestInteger.
  destruct (0 <=? e) eqn:He.
  - apply Z.leb_le in He. exists (Zpos m * 2 ^ e).
    split; [|symmetry; apply ofZ_exact; assumption].
    replace (Z.max 0 (- e)) with 0 by lia. replace (Z.max 0 e) with e by lia.
    rewrite Z.pow_0_r. lia.
  - apply Z.leb_gt in He.
    exists ((2 * Zpos m + 2 ^ (- e)) / 2 ^ (1 - e)).
    split; [|reflexivity].
    replace (Z.max 0 (- e)) with (- e) by lia. replace (Z.max 0 e) with 0 by lia.
    rewrite Z.pow_0_r.
    assert (Hp : 0 < 2 ^ (- e)) by (apply Z.pow_pos_nonneg; lia).
    replace (2 ^ (1 - e)) with (2 * 2 ^ (- e))
      by (replace (1 - e) with (Z.succ (- e)) by lia; rewrite Z.pow_succ_r by lia;
          reflexivity).
    set (P := 2 ^ (- e)) in *.
    pose proof (Z.div_mod (2 * Zpos m + P) (2 * P) ltac:(lia)) as Hdm.
    pose proof (Z.mod_pos_bound (2 * Zpos m + P) (2 * P) ltac:(lia)) as Hmod.
    set (c := (2 * Zpos m + P) / (2 * P)) in *.
    nia.
Qed.

(** The quotient by 100 of the whole number nearest to a non-negative
    product. *)
Lemma roundToCents_cases x :
  nonNegative x = true ->
  let product := mul x (ofZ 100) in
  nonNegative product = true
  /\ match product with
     | S754_zero _ => roundToCents x = zero
     | S754_infinity _ => roundToCents x = S754_infinity false
     | S754_finite _ m e =>
         exists cents, isNearestInteger (Zpos m) e cents
                       /\ roundToCents x = div (ofZ cents) (ofZ 100)
     | S754_nan => False
     end.
Proof.
  intros Hx product.
  assert (Hp : nonNegative product = true)
    by (subst product; rewrite NumMore.hundred; apply NumMore.mul_nonNegative;
        [exact Hx|reflexivity]).
  split; [exact Hp|].
  unfold roundToCents. fold product.
  destruct product as [[]|[]| |[] m e]; try discriminate; try reflexivity.
  cbn [nonNegative negb andb wellFormed valid_binary] in Hp.
  destruct (round_nearest m e Hp) as [c [Hc Hr]].
  exists c. split; [exact Hc|]. rewrite Hr. reflexivity.
Qed.

End Cents.

(* ================================================================== *)
(** * The properties of the specification *)

Import NumFacts Buckets Calendar Loop Runs.

(** ** The total and the buckets *)

(** C1, amended. For every input, [totalSpending] of the result is
    computed from the sum of the amounts of its transactions, added in
    order, in three steps of binary64 arithmetic: the sum is multiplied by
    100, the product is replaced by the whole number nearest to it (the
    larger one at a tie), and that whole number is divided by 100.  The
    product is never NaN and never negative; when it is zero the total is
    zero, and when it is infinite the total is infinite. *)
Theorem total_is_nearest_cents h csvContent r :
  parseCSV h csvContent = Ok r ->
  let product := mul (sumOf (map amount (transactions r))) (ofZ 100) in
  totalSpending r = roundToCents (sumOf (map amount (transactions r)))
  /\ nonNegative product = true
  /\ match product with
     | S754_zero _ => totalSpending r = zero
     | S754_infinity _ => totalSpending r = S754_infinity false
     | S754_finite _ m e =>
         exists cents, isNearestInteger (Zpos m) e cents
                       /\ totalSpending r = div (ofZ cents) (ofZ 100)
     | S754_nan => False
     end.
Proof.
  intros Hr. destruct (parseCSV_Ok h csvContent r Hr) as [st [Hagg ->]].
  cbn [totalSpending transactions assemble].
  rewrite (agg_total _ _ _ Hagg), (agg_amounts _ _ _ Hagg).
  split; [reflexivity|].
  apply Cents.roundToCents_cases.
  apply sumOf_nonNegative, Forall_map. exact (agg_nonNegative _ _ _ Hagg).
Qed.

Lemma total_is_nearest_cents_witness :
  exists r, parseCSV Reference.utc eighthInput = Ok r
    /\ sumOf (map amount (transactions r)) = parseFloat "0.125"
    /\ mul (parseFloat "0.125") (ofZ 100) = parseFloat "12.5"
    /\ totalSpending r = div (ofZ 13) (ofZ 100)
    /\ (let product := mul (sumOf (map amount (transactions r))) (ofZ 100) in
        totalSpending r = roundToCents (sumOf (map amount (transactions r)))
        /\ nonNegative product = true
        /\ match product with
           | S754_zero _ => totalSpending r = zero
           | S754_infinity _ => totalSpending r = S754_infinity false
           | S754_finite _ m e =>
               exists cents, isNearestInteger (Zpos m) e cents
                             /\ totalSpending r = div (ofZ cents) (ofZ 100)
           | S754_nan => False
           end).
Proof.
  eexists. split; [vm_compute; reflexivity|].
  split; [vm_compute; reflexivity|].
  split; [vm_compute; reflexivity|].
  split; [vm_compute; reflexivity|].
  apply (total_is_nearest_cents Reference.utc eighthInput). vm_compute. reflexivity.
Defined.

(** C1, as stated, fails.  One row of 1e307: the sum is finite and has no
    fraction, so that rounded to two decimals it is itself, and the total
    is Infinity.  One row of 1.345: the sum is below 1.345, the whole
    number nearest to a hundred times it is 134, and the total is 1.35. *)
Lemma total_is_not_the_rounded_sum :
  (exists r m e,
      parseCSV Reference.utc hugeAmountInput = Ok r
      /\ sumOf (map amount (transactions r)) = S754_finite false m e
      /\ isNearestInteger (100 * Zpos m) e (100 * (Zpos m * 2 ^ e))
      /\ ofDecimal false (100 * (Zpos m * 2 ^ e)) (-2) = S754_finite false m e
      /\ totalSpending r = S754_infinity false)
  /\ (exists r m e,
      parseCSV Reference.utc halfCentInput = Ok r
      /\ sumOf (map amount (transactions r)) = S754_finite false m e
      /\ isNearestInteger (100 * Zpos m) e 134
      /\ totalSpending r = ofDecimal false 135 (-2)
      /\ ofDecimal false 135 (-2) <> ofDecimal false 134 (-2)
      /\ Num.eqb (totalSpending r) (ofDecimal false 134 (-2)) = false).
Proof.
  split.
  - eexists. eexists. eexists.
    split; [vm_compute; reflexivity|].
    split; [vm_compute; reflexivity|].
    split; [unfold isNearestInteger; split;
            [apply Z.leb_le|apply Z.ltb_lt]; vm_compute; reflexivity|].
    split; vm_compute; reflexivity.
  - eexists. eexists. eexists.
    split; [vm_compute; reflexivity|].
    split; [vm_compute; reflexivity|].
    split; [unfold isNearestInteger; split;
            [apply Z.leb_le|apply Z.ltb_lt]; vm_compute; reflexivity|].
    split; [vm_compute; reflexivity|].
    split; [vm_compute; discriminate|vm_compute; reflexivity].
Qed.

(** The rounding on two values: 1204.5 is kept, 0.125 goes up to 0.13. *)
Lemma roundToCents_examples :
  roundToCents (parseFloat "1204.5") = parseFloat "1204.5"
  /\ roundToCents (parseFloat "0.125") = parseFloat "0.13".
Proof. split; vm_compute; reflexivity. Qed.




(** ** Exceptions and early returns *)

(** C3 fails on the code: [Date.parse] reads the ISO form of the earliest
    date that a [Date] can hold, a Tuesday; the Monday before it is not a
    date, and [toISOString] throws on it.  On every host on UTC [parseCSV]
    raises a RangeError on a row with that date. *)
Theorem earliest_date_throws h :
  (forall u b, LocalTZA h u b = 0) ->
  dateParse h "-271821-04-20T00:00:00.000Z" = Some (- maxTime) ->
  parseCSV h earliestDateInput = Throw (RangeError "Invalid time value").
Proof.
  intros Hutc Hparse. unfold parseCSV.
  change (contentLines earliestDateInput)
    with ["Date,Amount"; "-271821-04-20T00:00:00.000Z,5"].
  rewrite parseLines_cons. cbv zeta.
  set (cols := resolveColumns (parseCSVLine "Date,Amount")).
  assert (Hd : dateColIndex cols = 0) by (vm_compute; reflexivity).
  assert (Ha : amountColIndex cols = 1) by (vm_compute; reflexivity).
  rewrite Hd, Ha. cbn [Z.eqb orb processLines processLine].
  assert (Hc : checkRow cols "-271821-04-20T00:00:00.000Z,5"
               = Some ("-271821-04-20T00:00:00.000Z", EmptyString, ofZ 5))
    by (vm_compute; reflexivity).
  destruct (normalizeRow_dated h cols _ _ _ _ _ Hc eq_refl Hparse) as [Hn|[Hclip _]];
    [|discriminate].
  unfold processLine. rewrite Hn. change (TimeClip (- maxTime)) with (Some (- maxTime)).
  rewrite (accumulate_throws h _ _ (- maxTime)); [reflexivity|reflexivity|].
  rewrite (getWeekStart_fixed_offset h 0 _ Hutc). vm_compute. reflexivity.
Qed.

Lemma earliest_date_throws_witness :
  parseCSV Reference.utc earliestDateInput = Throw (RangeError "Invalid time value").
Proof.
  apply (earliest_date_throws Reference.utc).
  - intros u b. reflexivity.
  - vm_compute. reflexivity.
Defined.

(** C4. A text with fewer than two non-empty lines (a fortiori one with
    fewer than two lines that are not blank, which are the lines the parser
    keeps), or whose header has no date column or no amount column, gives
    the empty result, and no exception. *)
Theorem unusable_input_gives_empty_result h csvContent :
  (List.length (filter nonEmpty (splitOn newline csvContent)) < 2)%nat
  \/ (List.length (contentLines csvContent) < 2)%nat
  \/ findColumnIndex (parseCSVLine (hd EmptyString (contentLines csvContent))) datePatterns = -1
  \/ findColumnIndex (parseCSVLine (hd EmptyString (contentLines csvContent))) amountPatterns = -1 ->
  parseCSV h csvContent = Ok emptyResult.
Proof.
  intros H.
  assert (H' : (List.length (contentLines csvContent) < 2)%nat
               \/ findColumnIndex (parseCSVLine (hd EmptyString (contentLines csvContent)))
                                  datePatterns = -1
               \/ findColumnIndex (parseCSVLine (hd EmptyString (contentLines csvContent)))
                                  amountPatterns = -1).
  { destruct H as [H|[H|H]]; [left|left; exact H|right; exact H].
    pose proof (contentLines_le_nonEmpty csvContent). lia. }
  clear H. revert H'.
  unfold parseCSV, parseLines.
  destruct (contentLines csvContent) as [|headerLine [|l rest]]; try reflexivity.
  cbn [hd List.length]. intros [H|H]; [lia|].
  cbn [dateColIndex amountColIndex resolveColumns].
  destruct H as [-> | ->]; [reflexivity|].
  rewrite orb_true_r. reflexivity.
Qed.

Lemma unusable_input_gives_empty_result_witness :
  parseCSV Reference.utc scenarioD = Ok emptyResult
  /\ parseCSV Reference.utc ("When,Amount" ++ nl ++ "2024-01-05,3") = Ok emptyResult.
Proof.
  split.
  - apply (unusable_input_gives_empty_result Reference.utc scenarioD).
    left. vm_compute. lia.
  - apply (unusable_input_gives_empty_result Reference.utc).
    right. right. left. vm_compute. reflexivity.
Defined.

(** ** Rows and the type column *)

(** C5. With a type column, a row whose type is not [debit] changes no
    output: the result is that of the text without the row.  Without a type
    column, a row with enough fields, an amount that parses and a date that
    is empty or parses is kept and reaches every output: it stands between
    the rows kept before it and those kept after it, its transaction stands
    at that place in [transactions], it counts in [transactionCount], and
    its amount is added to the running total and to the running sums of its
    month, its day and its week. *)
Theorem type_column_filters_rows h header pre row post :
  let cols := resolveColumns (parseCSVLine header) in
  let fields := parseCSVLine (trim row) in
  let dateStr := fieldAt fields (dateColIndex cols) in
  let amountStr := fieldAt fields (amountColIndex cols) in
  let desc :=
    if 0 <=? descColIndex cols then fieldAt fields (descColIndex cols)
    else EmptyString in
  (0 <= typeColIndex cols ->
   toLowerCase (fieldAt fields (typeColIndex cols)) <> "debit" ->
   forall csvContent csvContent',
     contentLines csvContent = header :: (pre ++ row :: post)%list ->
     contentLines csvContent' = header :: (pre ++ post)%list ->
     parseCSV h csvContent = parseCSV h csvContent')
  /\
  (typeColIndex cols = -1 ->
   dateColIndex cols <> -1 -> amountColIndex cols <> -1 ->
   Z.max (dateColIndex cols) (amountColIndex cols) < Z.of_nat (List.length fields) ->
   isNaN (parseAmount amountStr) = false ->
   (nonEmpty dateStr = true -> newDateParse h dateStr <> None) ->
   forall csvContent r,
     contentLines csvContent = header :: (pre ++ row :: post)%list ->
     parseCSV h csvContent = Ok r ->
     let a := abs (parseAmount amountStr) in
     let before := keptRows h cols pre in
     let after := keptRows h cols post in
     let later (rows : list (string * number)) (key : string) :=
       map snd (filter (fun x => String.eqb (fst x) key) rows) in
     exists t,
       (if nonEmpty dateStr then newDateParse h dateStr else newDateNow h) = Some t
       /\ In {| date := datePart (isoString t); description := desc; amount := a |}
             (transactions r)
       /\ survivors h csvContent = (before ++ (t, a) :: after)%list
       /\ (exists txsBefore txsAfter,
             transactions r
             = (txsBefore
                  ++ {| date := datePart (isoString t); description := desc; amount := a |}
                  :: txsAfter)%list
             /\ List.length txsBefore = List.length before
             /\ List.length txsAfter = List.length after)
       /\ transactionCount r
          = Z.of_nat (List.length before) + 1 + Z.of_nat (List.length after)
       /\ totalSpending r
          = roundToCents (fold_left add (map snd after) (add (sumOf (map snd before)) a))
       /\ (exists e, In e (monthlySpending r)
             /\ spending e
                = fold_left add (later (monthRows h after) (monthYearLabel h t))
                            (add (bucket (monthRows h before) (monthYearLabel h t)) a))
       /\ (exists e, In e (dailySpending r)
             /\ spending e
                = fold_left add (later (dayRows after) (dayKey t))
                            (add (bucket (dayRows before) (dayKey t)) a))
       /\ (exists e, In e (weeklySpending r)
             /\ spending e
                = fold_left add (later (weekRows h after) (weekKeyOf h t))
                            (add (bucket (weekRows h before) (weekKeyOf h t)) a))).
Proof.
  intros cols fields dateStr amountStr desc. split.
  - intros Hcol Htype csvContent csvContent' Hl Hl'.
    unfold parseCSV. rewrite Hl, Hl'. clear Hl Hl'.
    assert (Hrow : forall st, processLine h cols st row = Ok st).
    { intros st. unfold processLine, normalizeRow.
      rewrite (checkRow_not_debit cols row Hcol Htype). reflexivity. }
    assert (Hrun : forall st, processLines h cols st (pre ++ row :: post)
                              = processLines h cols st (pre ++ post)).
    { intros st. rewrite !processLines_app.
      destruct (processLines h cols st pre) as [st1|e]; [|reflexivity].
      cbn [bind processLines]. rewrite Hrow. reflexivity. }
    rewrite !parseLines_cons. cbv zeta. fold cols.
    rewrite Hrun. reflexivity.
  - intros Htype Hdate Hamount Hlen Hnan Hparse csvContent r Hl Hr a before after later.
    assert (Hnb : nonEmpty (trim row) = true).
    { apply (nonBlank_contentLines csvContent). rewrite Hl.
      right. apply in_or_app. right. left. reflexivity. }
    assert (Hcheck : checkRow cols row = Some (dateStr, desc, a)).
    { unfold checkRow. rewrite Hnb. cbn [negb].
      fold fields. replace (Z.of_nat (List.length fields) <=? _) with false
        by (symmetry; apply Z.leb_gt; exact Hlen).
      fold amountStr. rewrite Hnan, Htype. reflexivity. }
    apply Z.eqb_neq in Hdate. apply Z.eqb_neq in Hamount.
    assert (Hsurv : survivors h csvContent = keptRows h cols (pre ++ row :: post)).
    { unfold survivors, columnsOf, dataLines. rewrite Hl. cbn [hd tl]. fold cols.
      rewrite Hdate, Hamount. reflexivity. }
    unfold parseCSV in Hr. rewrite Hl in Hr. clear Hl.
    rewrite parseLines_cons in Hr. cbv zeta in Hr. fold cols in Hr.
    rewrite Hdate, Hamount in Hr. cbn [orb] in Hr.
    destruct (processLines h cols initialState (pre ++ row :: post)) as [st|e] eqn:Hrun;
      [|discriminate].
    cbn [bind] in Hr. injection Hr as <-.
    pose proof (processLines_aggregates h cols _ [] initialState st
                  (aggregates_initial h) Hrun) as Hagg.
    cbn [app] in Hagg.
    rewrite processLines_app in Hrun.
    destruct (processLines h cols initialState pre) as [st0|e] eqn:Hpre; [|discriminate].
    cbn [bind processLines] in Hrun.
    destruct (processLine h cols st0 row) as [st1|e] eqn:Hstep; [|discriminate].
    cbn [bind] in Hrun.
    pose proof (processLines_aggregates h cols _ [] initialState st0
                  (aggregates_initial h) Hpre) as Hagg0.
    cbn [app] in Hagg0. fold before in Hagg0.
    assert (Hkeep : exists t,
               (if nonEmpty dateStr then newDateParse h dateStr else newDateNow h) = Some t
               /\ normalizeRow h cols row = Keep (Some t) desc a
               /\ accumulate h st0 (Some t) desc a = Ok st1).
    { unfold processLine in Hstep. unfold normalizeRow in *. rewrite Hcheck in *.
      destruct (nonEmpty dateStr) eqn:Hne.
      - destruct (newDateParse h dateStr) as [t|] eqn:Hp;
          [|exfalso; apply Hparse; reflexivity].
        exists t. split; [reflexivity|]. split; [reflexivity|exact Hstep].
      - destruct (accumulate_Ok h _ _ _ _ _ Hstep) as [t [ws [Ht _]]].
        exists t. split; [exact Ht|]. rewrite Ht in *. split; [reflexivity|exact Hstep]. }
    destruct Hkeep as [t [Ht [Hnorm Hacc]]]. exists t. split; [exact Ht|].
    assert (Hkept : keptRows h cols (pre ++ row :: post)
                    = (before ++ (t, a) :: after)%list).
    { rewrite keptRows_app. change (row :: post) with ([row] ++ post)%list.
      rewrite keptRows_app. fold before after.
      unfold keptRows at 1. cbn [flat_map]. rewrite Hnorm. reflexivity. }
    rewrite Hkept in Hagg, Hsurv.
    destruct (accumulate_Ok h _ _ _ _ _ Hacc) as [t' [ws [Ht' [_ Hst1]]]].
    injection Ht' as <-.
    destruct (processLines_transactions h cols post st1 st Hrun) as [more Hmore].
    rewrite Hst1 in Hmore. cbn [st_transactions] in Hmore.
    rewrite <- app_assoc in Hmore. cbn [app] in Hmore.
    pose proof (f_equal (@List.length _) (agg_amounts _ _ _ Hagg0)) as Hlen0.
    pose proof (f_equal (@List.length _) (agg_amounts _ _ _ Hagg)) as Hlen1.
    rewrite !length_map in Hlen0. rewrite Hmore in Hlen1.
    rewrite !length_map, !length_app in Hlen1. cbn [List.length] in Hlen1.
    fold before in Hlen0.
    assert (Hkey : forall (key : Z -> string),
               In (key t)
                  (map fst (map (fun x : Z * number => (key (fst x), snd x))
                                (before ++ (t, a) :: after)))).
    { intros key. rewrite map_map. cbn [fst].
      apply (in_map (fun x : Z * number => key (fst x)) _ (t, a)).
      apply in_or_app. right. left. reflexivity. }
    assert (Hsplit : forall (key : Z -> string),
               bucket (map (fun x : Z * number => (key (fst x), snd x))
                           (before ++ (t, a) :: after)) (key t)
               = fold_left add
                   (later (map (fun x : Z * number => (key (fst x), snd x)) after) (key t))
                   (add (bucket (map (fun x : Z * number => (key (fst x), snd x)) before)
                                (key t)) a)).
    { intros key. rewrite map_app. cbn [map fst snd]. apply bucket_middle. }
    destruct (assemble_buckets h _ st Hagg) as [_ [Hmo [Hda Hwe]]].
    split; [|split; [|split; [|split; [|split; [|split; [|split]]]]]].
    + cbn [transactions assemble]. rewrite Hmore.
      apply in_or_app. right. left. reflexivity.
    + exact Hsurv.
    + exists (st_transactions st0), more. cbn [transactions assemble].
      split; [exact Hmore|]. split; [exact Hlen0|lia].
    + cbn [transactionCount assemble]. rewrite Hmore, length_app.
      cbn [List.length]. lia.
    + cbn [totalSpending assemble]. rewrite (agg_total _ _ _ Hagg).
      rewrite map_app. cbn [map snd]. rewrite sumOf_middle. reflexivity.
    + destruct (entry_of_key _ _ _ Hmo (Hkey (monthYearLabel h))) as [e [Hin He]].
      exists e. split; [exact Hin|]. rewrite He. apply (Hsplit (monthYearLabel h)).
    + destruct (entry_of_key _ _ _ Hda (Hkey dayKey)) as [e [Hin He]].
      exists e. split; [exact Hin|]. rewrite He. apply (Hsplit dayKey).
    + destruct (entry_of_key _ _ _ Hwe (Hkey (weekKeyOf h))) as [e [Hin He]].
      exists e. split; [exact Hin|]. rewrite He. apply (Hsplit (weekKeyOf h)).
Qed.

Lemma type_column_filters_rows_witness :
  parseCSV Reference.utc scenarioB = parseCSV Reference.utc scenarioB_debit_only
  /\ (forall r,
        parseCSV Reference.utc scenarioB_untyped = Ok r ->
        let cols := resolveColumns (parseCSVLine "Posted Date,Merchant,Amount") in
        let a := abs (parseAmount "30.00") in
        let before := keptRows Reference.utc cols ["2024-02-01,Gym,30.00"] in
        let after := keptRows Reference.utc cols [] in
        let later (rows : list (string * number)) (key : string) :=
          map snd (filter (fun x => String.eqb (fst x) key) rows) in
        exists t,
          newDateParse Reference.utc "2024-02-02" = Some t
          /\ In {| date := datePart (isoString t); description := "Refund"; amount := a |}
                (transactions r)
          /\ survivors Reference.utc scenarioB_untyped = (before ++ (t, a) :: after)%list
          /\ (exists txsBefore txsAfter,
                transactions r
                = (txsBefore
                     ++ {| date := datePart (isoString t); description := "Refund";
                           amount := a |}
                     :: txsAfter)%list
                /\ List.length txsBefore = List.length before
                /\ List.length txsAfter = List.length after)
          /\ transactionCount r
             = Z.of_nat (List.length before) + 1 + Z.of_nat (List.length after)
          /\ totalSpending r
             = roundToCents
                 (fold_left add (map snd after) (add (sumOf (map snd before)) a))
          /\ (exists e, In e (monthlySpending r)
                /\ spending e
                   = fold_left add
                       (later (monthRows Reference.utc after)
                              (monthYearLabel Reference.utc t))
                       (add (bucket (monthRows Reference.utc before)
                                    (monthYearLabel Reference.utc t)) a))
          /\ (exists e, In e (dailySpending r)
                /\ spending e
                   = fold_left add (later (dayRows after) (dayKey t))
                               (add (bucket (dayRows before) (dayKey t)) a))
          /\ (exists e, In e (weeklySpending r)
                /\ spending e
                   = fold_left add
                       (later (weekRows Reference.utc after) (weekKeyOf Reference.utc t))
                       (add (bucket (weekRows Reference.utc before)
                                    (weekKeyOf Reference.utc t)) a))).
Proof.
  split.
  - apply (proj1 (type_column_filters_rows Reference.utc
                    "Posted Date,Merchant,Amount,Type"
                    ["2024-02-01,Gym,30.00,debit"] "2024-02-02,Refund,30.00,credit" [])).
    + vm_compute. discriminate.
    + vm_compute. discriminate.
    + vm_compute. reflexivity.
    + vm_compute. reflexivity.
  - intros r Hr.
    refine (proj2 (type_column_filters_rows Reference.utc
                    "Posted Date,Merchant,Amount"
                    ["2024-02-01,Gym,30.00"] "2024-02-02,Refund,30.00" [])
              _ _ _ _ _ _ scenarioB_untyped r _ Hr).
    + vm_compute. reflexivity.
    + vm_compute. discriminate.
    + vm_compute. discriminate.
    + vm_compute. reflexivity.
    + vm_compute. reflexivity.
    + intros _. vm_compute. discriminate.
    + vm_compute. reflexivity.
Defined.

(** The untyped text of scenario B: the second row is the second
    transaction, and its 30 is in the total and in the sums of February
    2024, of 2 February and of the week of 29 January. *)
Example untyped_row_reaches_every_output :
  exists r, parseCSV Reference.utc scenarioB_untyped = Ok r
    /\ map description (transactions r) = ["Gym"; "Refund"]
    /\ transactionCount r = 2
    /\ totalSpending r = ofZ 60
    /\ map spending (monthlySpending r) = [ofZ 60]
    /\ map spending (dailySpending r) = [ofZ 30; ofZ 30]
    /\ map spending (weeklySpending r) = [ofZ 60].
Proof.
  eexists. split; [vm_compute; reflexivity|]. vm_compute. repeat split.
Qed.

(** ** The header resolver *)

(** C6, as stated, fails: a header that only contains [type] wins over the
    more specific [Transaction Type] to its right. *)
Lemma generic_type_header_comes_first :
  let headers := parseCSVLine "Account Type,Date,Amount,Transaction Type" in
  headerMatches ["transaction type"] (nth 3 headers EmptyString) = true
  /\ headerMatches ["type"] (nth 0 headers EmptyString) = true
  /\ headerMatches ["type of transaction"; "trans type"; "transaction type";
                    "debit/credit"; "dr/cr"] (nth 0 headers EmptyString) = false
  /\ actualTypeColIndex headers = 0
  /\ actualTypeColIndex headers <> 3.
Proof. vm_compute. repeat split; discriminate. Qed.

(** C6, amended. The type column is the first header, in column order, that
    contains any of the six synonyms, whatever the order of the synonyms;
    only when no header contains one is it the first header that is exactly
    [transaction], and [-1] when there is none. *)
Theorem type_column_is_first_matching_header headers :
  (forall i header,
     nth_error headers i = Some header ->
     headerMatches typePatterns header = true ->
     (forall j other, (j < i)%nat -> nth_error headers j = Some other ->
                      headerMatches typePatterns other = false) ->
     actualTypeColIndex headers = Z.of_nat i)
  /\ ((forall header, In header headers -> headerMatches typePatterns header = false) ->
      (forall i header,
         nth_error headers i = Some header ->
         isTransactionHeader header = true ->
         (forall j other, (j < i)%nat -> nth_error headers j = Some other ->
                          isTransactionHeader other = false) ->
         actualTypeColIndex headers = Z.of_nat i)
      /\ ((forall header, In header headers -> isTransactionHeader header = false) ->
          actualTypeColIndex headers = -1))
  /\ (forall patterns,
        Permutation typePatterns patterns ->
        findColumnIndex headers patterns = findColumnIndex headers typePatterns).
Proof.
  unfold actualTypeColIndex. rewrite Resolver.findColumnIndex_findIndex.
  split; [|split].
  - intros i header Hn Hm Hbefore. unfold findIndex.
    rewrite (Resolver.findIndex_from_first _ headers 0 i header Hn Hm Hbefore).
    replace (0 + Z.of_nat i =? -1) with false by (symmetry; apply Z.eqb_neq; lia).
    lia.
  - intros Hnone.
    assert (E : findIndex (headerMatches typePatterns) headers = -1)
      by (apply Resolver.findIndex_from_none; exact Hnone).
    rewrite E. change (-1 =? -1) with true. cbv iota.
    split.
    + intros i header Hn Hm Hbefore. unfold findIndex.
      rewrite (Resolver.findIndex_from_first _ headers 0 i header Hn Hm Hbefore). lia.
    + intros Hnone'. apply Resolver.findIndex_from_none. exact Hnone'.
  - intros patterns Hperm. rewrite Resolver.findColumnIndex_findIndex.
    apply Resolver.findIndex_from_ext. intros x. unfold headerMatches.
    symmetry. apply Resolver.existsb_Permutation. exact Hperm.
Qed.

Lemma type_column_is_first_matching_header_witness :
  actualTypeColIndex ["Account Type"; "Date"; "Amount"; "Transaction Type"] = 0
  /\ actualTypeColIndex ["Date"; "Transaction"; "Amount"] = 1
  /\ findColumnIndex ["Date"; "Dr/Cr"; "Trans Type"] (rev typePatterns)
     = findColumnIndex ["Date"; "Dr/Cr"; "Trans Type"] typePatterns.
Proof.
  split; [|split].
  - apply (proj1 (type_column_is_first_matching_header
                    ["Account Type"; "Date"; "Amount"; "Transaction Type"])
             0%nat "Account Type").
    + reflexivity.
    + vm_compute. reflexivity.
    + intros j other Hj. lia.
  - apply (proj1 (proj1 (proj2 (type_column_is_first_matching_header
                                  ["Date"; "Transaction"; "Amount"]))
                    ltac:(intros header [<-|[<-|[<-|[]]]]; vm_compute; reflexivity))
             1%nat "Transaction").
    + reflexivity.
    + vm_compute. reflexivity.
    + intros [|j] other Hj Hn; [|lia]. injection Hn as <-. vm_compute. reflexivity.
  - apply (proj2 (proj2 (type_column_is_first_matching_header
                           ["Date"; "Dr/Cr"; "Trans Type"]))).
    apply Permutation_rev.
Defined.

(** ** The field tokenizer *)

(** C7, as stated, fails: a field that starts with a space does not come
    back. *)
Lemma written_field_comes_back_trimmed :
  includes " a,b" "," = true
  /\ parseCSVLine (writeField " a,b") = ["a,b"]
  /\ parseCSVLine (writeField " a,b") <> [" a,b"].
Proof. vm_compute. repeat split; discriminate. Qed.

(** C7, amended. A field written by the reference writer and tokenized
    again comes back without its leading and trailing white space, and
    otherwise unchanged: commas and quotes inside it are kept. *)
Theorem written_field_roundtrip field :
  parseCSVLine (writeField field) = [trim field].
Proof. apply (Tokenizer.scan_record field [] []). Qed.

(** The same for a whole record. *)
Lemma written_record_roundtrip first others :
  parseCSVLine (writeRecord first others) = map trim (first :: others).
Proof. apply (Tokenizer.scan_record first others []). Qed.

(** ** Amounts and running sums *)

(** C8. Every transaction of the result has an amount that is at least
    zero, whatever the sign or the currency mark of the amount field: the
    fields [-42.50] and [$42.50] both give 42.5.  So every bucket of the
    result is at least zero, and during the loop no running sum of a bucket
    is negative or decreases. *)
Theorem amounts_are_non_negative h csvContent r :
  parseCSV h csvContent = Ok r ->
  (forall tx, In tx (transactions r) -> leb zero (amount tx) = true)
  /\ (forall e,
        In e (monthlySpending r) \/ In e (dailySpending r) \/ In e (weeklySpending r) ->
        leb zero (spending e) = true)
  /\ (abs (parseAmount "-42.50") = fortyTwoAndAHalf
      /\ abs (parseAmount "$42.50") = fortyTwoAndAHalf)
  /\ (forall cols pre row st st',
        processLines h cols initialState pre = Ok st ->
        processLine h cols st row = Ok st' ->
        forall k,
          (leb zero (valueAt (monthlyMap st) k) = true
           /\ leb (valueAt (monthlyMap st) k) (valueAt (monthlyMap st') k) = true)
          /\ (leb zero (valueAt (dailyMap st) k) = true
              /\ leb (valueAt (dailyMap st) k) (valueAt (dailyMap st') k) = true)
          /\ (leb zero (weekValueAt (weeklyMap st) k) = true
              /\ leb (weekValueAt (weeklyMap st) k) (weekValueAt (weeklyMap st') k) = true)).
Proof.
  intros Hr.
  destruct (parseCSV_Ok h csvContent r Hr) as [st0 [Hagg0 ->]].
  pose proof (assemble_buckets h _ _ Hagg0) as [Ham [Hmo [Hda Hwe]]].
  pose proof (agg_nonNegative _ _ _ Hagg0) as Hnn.
  split; [|split; [|split]].
  - intros tx Hin. apply leb_zero.
    apply (in_map amount) in Hin. rewrite Ham in Hin.
    apply in_map_iff in Hin. destruct Hin as [row [<- Hrow]].
    rewrite Forall_forall in Hnn. apply Hnn. exact Hrow.
  - intros e [Hin|[Hin|Hin]].
    + apply (entries_nonNegative _ _ e Hmo); [|exact Hin].
      apply amountsNonNegative_keyed. exact Hnn.
    + apply (entries_nonNegative _ _ e Hda); [|exact Hin].
      apply amountsNonNegative_keyed. exact Hnn.
    + apply (entries_nonNegative _ _ e Hwe); [|exact Hin].
      apply amountsNonNegative_keyed. exact Hnn.
  - split; vm_compute; reflexivity.
  - intros cols pre row st st' Hpre Hstep k.
    pose proof (processLines_aggregates h cols pre [] initialState st
                  (aggregates_initial h) Hpre) as Hagg.
    cbn [app] in Hagg.
    pose proof (agg_nonNegative _ _ _ Hagg) as Hnn'.
    rewrite !weekValueAt_valueAt.
    destruct (processLine_Ok h _ _ _ _ Hstep) as [[_ ->]|[t [desc [a [_ [_ [Ha Hacc]]]]]]].
    + split; [|split].
      * apply (holds_stable _ _ k (agg_monthly _ _ _ Hagg)).
        apply amountsNonNegative_keyed. exact Hnn'.
      * apply (holds_stable _ _ k (agg_daily _ _ _ Hagg)).
        apply amountsNonNegative_keyed. exact Hnn'.
      * apply (holds_stable _ _ k (agg_weekly _ _ _ Hagg)).
        apply amountsNonNegative_keyed. exact Hnn'.
    + pose proof (accumulate_aggregates h _ _ _ _ _ _ Hagg Ha Hacc) as Hagg'.
      split; [|split].
      * apply (holds_monotone _ (monthRows h (keptRows h cols pre)) _
                 (monthYearLabel h t) a k (agg_monthly _ _ _ Hagg)).
        -- pose proof (agg_monthly _ _ _ Hagg') as H'.
           unfold monthRows in H'. rewrite map_app in H'. exact H'.
        -- apply amountsNonNegative_keyed. exact Hnn'.
        -- exact Ha.
      * apply (holds_monotone _ (dayRows (keptRows h cols pre)) _
                 (dayKey t) a k (agg_daily _ _ _ Hagg)).
        -- pose proof (agg_daily _ _ _ Hagg') as H'.
           unfold dayRows in H'. rewrite map_app in H'. exact H'.
        -- apply amountsNonNegative_keyed. exact Hnn'.
        -- exact Ha.
      * apply (holds_monotone _ (weekRows h (keptRows h cols pre)) _
                 (weekKeyOf h t) a k (agg_weekly _ _ _ Hagg)).
        -- pose proof (agg_weekly _ _ _ Hagg') as H'.
           unfold weekRows in H'. rewrite map_app in H'. exact H'.
        -- apply amountsNonNegative_keyed. exact Hnn'.
        -- exact Ha.
Qed.

Lemma amounts_are_non_negative_witness :
  exists r, parseCSV Reference.utc signedAmountsInput = Ok r
    /\ map amount (transactions r) = [fortyTwoAndAHalf; fortyTwoAndAHalf]
    /\ (forall tx, In tx (transactions r) -> leb zero (amount tx) = true).
Proof.
  eexists. split; [vm_compute; reflexivity|]. split; [vm_compute; reflexivity|].
  apply (amounts_are_non_negative Reference.utc signedAmountsInput).
  vm_compute. reflexivity.
Defined.

(** ** Weeks *)

(** C9 fails on the code: the week is found on the local calendar and its
    key is printed in UTC.  On every host five hours west of UTC whose
    [Date.parse] reads the two dates of scenario E as the midnights (UTC)
    that the standard prescribes, the two rows fall into two weekly
    buckets, whose keys are Tuesdays. *)
Theorem weeks_split_west_of_utc h :
  (forall u b, LocalTZA h u b = -18000000) ->
  dateParse h "2024-03-04" = Some 1709510400000 ->
  dateParse h "2024-03-10" = Some 1710028800000 ->
  exists r,
    parseCSV h scenarioE = Ok r
    /\ map date (transactions r) = ["2024-03-04"; "2024-03-10"]
    /\ List.length (weeklySpending r) = 2%nat
    /\ weekKeyOf h 1709510400000 = "2024-02-27"
    /\ weekKeyOf h 1710028800000 = "2024-03-05".
Proof.
  intros Hwest Hp1 Hp2.
  assert (Hws1 : getWeekStart h (Some 1709510400000) = Some 1708992000000)
    by (rewrite (getWeekStart_fixed_offset h _ _ Hwest); vm_compute; reflexivity).
  assert (Hws2 : getWeekStart h (Some 1710028800000) = Some 1709596800000)
    by (rewrite (getWeekStart_fixed_offset h _ _ Hwest); vm_compute; reflexivity).
  unfold parseCSV.
  change (contentLines scenarioE) with ["Date,Amount"; "2024-03-04,10"; "2024-03-10,20"].
  rewrite parseLines_cons. cbv zeta.
  set (cols := resolveColumns (parseCSVLine "Date,Amount")).
  assert (Hd : dateColIndex cols = 0) by (vm_compute; reflexivity).
  assert (Ha : amountColIndex cols = 1) by (vm_compute; reflexivity).
  rewrite Hd, Ha. cbn [Z.eqb orb processLines]. unfold processLine.
  assert (Hc1 : checkRow cols "2024-03-04,10" = Some ("2024-03-04", EmptyString, ofZ 10))
    by (vm_compute; reflexivity).
  assert (Hc2 : checkRow cols "2024-03-10,20" = Some ("2024-03-10", EmptyString, ofZ 20))
    by (vm_compute; reflexivity).
  destruct (normalizeRow_dated h cols _ _ _ _ _ Hc1 eq_refl Hp1) as [Hn1|[Hclip _]];
    [|discriminate].
  destruct (normalizeRow_dated h cols _ _ _ _ _ Hc2 eq_refl Hp2) as [Hn2|[Hclip _]];
    [|discriminate].
  rewrite Hn1. change (TimeClip 1709510400000) with (Some 1709510400000).
  rewrite (accumulate_run h _ _ 1709510400000 _ _ _ eq_refl Hws1). cbn [bind].
  rewrite Hn2. change (TimeClip 1710028800000) with (Some 1710028800000).
  rewrite (accumulate_run h _ _ 1710028800000 _ _ _ eq_refl Hws2). cbn [bind].
  eexists. split; [reflexivity|].
  split; [|split; [|split]].
  - cbn [assemble transactions st_transactions initialState]. vm_compute. reflexivity.
  - cbn [assemble weeklySpending weeklyMap initialState].
    rewrite assembleWeekly_length. vm_compute. reflexivity.
  - rewrite (weekKeyOf_eq h _ _ Hws1). vm_compute. reflexivity.
  - rewrite (weekKeyOf_eq h _ _ Hws2). vm_compute. reflexivity.
Qed.

Lemma weeks_split_west_of_utc_witness :
  exists r,
    parseCSV Reference.west5 scenarioE = Ok r
    /\ map date (transactions r) = ["2024-03-04"; "2024-03-10"]
    /\ List.length (weeklySpending r) = 2%nat
    /\ weekKeyOf Reference.west5 1709510400000 = "2024-02-27"
    /\ weekKeyOf Reference.west5 1710028800000 = "2024-03-05".
Proof.
  apply (weeks_split_west_of_utc Reference.west5).
  - intros u b. reflexivity.
  - vm_compute. reflexivity.
  - vm_compute. reflexivity.
Defined.

(** The labels of the two buckets on the reference host. *)
Lemma weeks_west_of_utc_labels :
  exists r, parseCSV Reference.west5 scenarioE = Ok r
    /\ map name (weeklySpending r) = ["Feb 26 - 3"; "Mar 4 - 10"].
Proof. eexists. split; vm_compute; reflexivity. Qed.

(** On a host whose local time is UTC the scenario is as the specification
    has it. *)
Lemma weeks_on_utc :
  exists r, parseCSV Reference.utc scenarioE = Ok r
    /\ map name (weeklySpending r) = ["Mar 4 - 10"]
    /\ weekKeyOf Reference.utc 1709510400000 = "2024-03-04"
    /\ weekKeyOf Reference.utc 1710028800000 = "2024-03-04".
Proof.
  eexists. split; [vm_compute; reflexivity|].
  repeat split; vm_compute; reflexivity.
Qed.

(** On a host whose local time is UTC the week key is the ISO date of the
    Monday on or before the date, as the specification has it. *)
Lemma week_key_on_utc h t :
  (forall u b, LocalTZA h u b = 0) ->
  let monday := t - ((WeekDay t + 6) mod 7) * msPerDay in
  - maxTime <= monday -> t <= maxTime ->
  weekKeyOf h t = datePart (isoString monday)
  /\ WeekDay monday = 1
  /\ 0 <= Day t - Day monday <= 6
  /\ (WeekDay t = 0 -> Day t - Day monday = 6).
Proof.
  intros Hutc monday Hlo Hhi.
  destruct (getWeekStart_utc h t Hutc) as [Hws [Hmon [_ [Hrange Hsun]]]].
  fold monday in Hws, Hmon, Hrange, Hsun.
  assert (Hclip : TimeClip monday = Some monday).
  { unfold TimeClip.
    assert (monday <= t).
    { subst monday.
      assert (0 <= (WeekDay t + 6) mod 7) by (apply Z.mod_pos_bound; lia).
      unfold msPerDay. lia. }
    replace (- maxTime <=? monday) with true by (symmetry; apply Z.leb_le; lia).
    replace (monday <=? maxTime) with true by (symmetry; apply Z.leb_le; lia).
    reflexivity. }
  rewrite Hclip in Hws.
  split; [apply weekKeyOf_eq; exact Hws|].
  split; [exact Hmon|]. split; [exact Hrange|exact Hsun].
Qed.

(** ** The clock *)

(** C10. When every row that passes the field-count, amount and type
    checks has a date field that is not empty, the result does not depend
    on the clock: the clock is read only for a row whose date field is
    empty. *)
Theorem result_independent_of_the_clock h clock1 clock2 csvContent :
  (forall row dateStr desc a,
     In row (dataLines csvContent) ->
     checkRow (columnsOf csvContent) row = Some (dateStr, desc, a) ->
     dateStr <> EmptyString) ->
  parseCSV (withNow h clock1) csvContent = parseCSV (withNow h clock2) csvContent.
Proof.
  intros Hdates.
  rewrite (withNow_parseCSV h clock1 csvContent Hdates).
  rewrite (withNow_parseCSV h clock2 csvContent Hdates).
  reflexivity.
Qed.

Lemma result_independent_of_the_clock_witness :
  parseCSV (withNow Reference.utc 0) scenarioA
  = parseCSV (withNow Reference.utc 1718452800000) scenarioA.
Proof.
  apply (result_independent_of_the_clock Reference.utc 0 1718452800000 scenarioA).
  intros row dateStr desc a Hin.
  change (dataLines scenarioA) with ["2024-01-05,Coffee,-4.50"; "2024-01-20,Rent,1200.00"] in Hin.
  destruct Hin as [<-|[<-|[]]]; vm_compute; intros [= <- _ _]; discriminate.
Defined.

(** The clock does show when a kept row has no date. *)
Lemma clock_read_for_an_empty_date :
  parseCSV (withNow Reference.utc 0) undatedInput
  <> parseCSV (withNow Reference.utc 1718452800000) undatedInput.
Proof. vm_compute. discriminate. Qed.

(* ================================================================== *)
(** * The scenarios of the specification, on the reference host *)

(** Decimal literals are read to the nearest binary64 value: 0.1 is
    [0x1.999999999999ap-4], and 0.1 + 0.2 is not 0.3. *)
Example binary64_literals :
  parseFloat "0.1" = S754_finite false 7205759403792794 (-56)
  /\ add (parseFloat "0.1") (parseFloat "0.2") = parseFloat "0.30000000000000004"
  /\ Num.eqb (add (parseFloat "0.1") (parseFloat "0.2")) (parseFloat "0.3") = false
  /\ parseFloat "1e23" = S754_finite false 5960464477539062 24
  /\ parseFloat "5e-324" = S754_finite false 1 (-1074)
  /\ parseFloat "1.7976931348623159e308" = S754_infinity false
  /\ parseFloat "12abc" = ofZ 12
  /\ parseFloat "abc" = NaN.
Proof. repeat apply conj; vm_compute; reflexivity. Qed.

(** Scenario A: two rows, one month. *)
Example scenarioA_result :
  exists r, parseCSV Reference.utc scenarioA = Ok r
    /\ transactionCount r = 2
    /\ totalSpending r = parseFloat "1204.50"
    /\ monthlySpending r
       = [{| name := "January 2024"; spending := parseFloat "1204.50" |}].
Proof.
  eexists. split; [vm_compute; reflexivity|].
  repeat apply conj; vm_compute; reflexivity.
Qed.

(** Scenario B: only the debit row is kept. *)
Example scenarioB_result :
  exists r, parseCSV Reference.utc scenarioB = Ok r
    /\ transactionCount r = 1
    /\ totalSpending r = parseFloat "30.00"
    /\ map description (transactions r) = ["Gym"].
Proof.
  eexists. split; [vm_compute; reflexivity|].
  repeat apply conj; vm_compute; reflexivity.
Qed.

(** Scenario C: a quoted amount with a thousands comma. *)
Example scenarioC_result :
  exists r, parseCSV Reference.utc scenarioC = Ok r
    /\ map amount (transactions r) = [parseFloat "1234.56"].
Proof.
  eexists. split; [vm_compute; reflexivity|].
  repeat apply conj; vm_compute; reflexivity.
Qed.

(** Scenario D: a header and no row. *)
Example scenarioD_result : parseCSV Reference.utc scenarioD = Ok emptyResult.
Proof. vm_compute. reflexivity. Qed.

(** Scenario E, on UTC: one week. *)
Example scenarioE_result :
  exists r, parseCSV Reference.utc scenarioE = Ok r
    /\ weeklySpending r = [{| name := "Mar 4 - 10"; spending := ofZ 30 |}].
Proof.
  eexists. split; [vm_compute; reflexivity|].
  repeat apply conj; vm_compute; reflexivity.
Qed.

(* ================================================================== *)
(** * More on strings *)

Module StrFacts.

Lemma append_assoc (a b c : string) : (a ++ b) ++ c = a ++ (b ++ c).
Proof. induction a as [|x a IH]; simpl; [reflexivity|rewrite IH; reflexivity]. Qed.

Lemma trimEnd_cons c s :
  isWhiteSpace c = false -> trimEnd (String c s) = String c (trimEnd s).
Proof. intros Hc. cbn [trimEnd]. rewrite Hc. destruct (trimEnd s); reflexivity. Qed.

Lemma trimEnd_idempotent s : trimEnd (trimEnd s) = trimEnd s.
Proof.
  induction s as [|c s IH]; [reflexivity|].
  cbn [trimEnd]. destruct (trimEnd s) as [|d t] eqn:E.
  - destruct (isWhiteSpace c) eqn:Hc; [reflexivity|].
    cbn [trimEnd]. rewrite Hc. reflexivity.
  - cbn [trimEnd]. cbn [trimEnd] in IH. rewrite IH. reflexivity.
Qed.

Lemma trimStart_head s :
  match trimStart s with
  | EmptyString => True
  | String c _ => isWhiteSpace c = false
  end.
Proof.
  induction s as [|c s IH]; [exact I|].
  cbn [trimStart]. destruct (isWhiteSpace c) eqn:Hc; [exact IH|exact Hc].
Qed.

Lemma trim_idempotent s : trim (trim s) = trim s.
Proof.
  unfold trim. pose proof (trimStart_head s) as H.
  destruct (trimStart s) as [|c r]; [reflexivity|].
  rewrite (trimEnd_cons c r H). cbn [trimStart]. rewrite H.
  rewrite (trimEnd_cons c _ H), trimEnd_idempotent. reflexivity.
Qed.

(** A string is all white space when nothing of it is left by [trimStart]. *)
Lemma trimStart_app w s : trimStart w = EmptyString -> trimStart (w ++ s) = trimStart s.
Proof.
  induction w as [|c w IH]; [reflexivity|].
  cbn [trimStart append]. destruct (isWhiteSpace c); [exact IH|discriminate].
Qed.

Lemma trimEnd_white w : trimStart w = EmptyString -> trimEnd w = EmptyString.
Proof.
  induction w as [|c w IH]; [reflexivity|].
  cbn [trimStart trimEnd]. destruct (isWhiteSpace c); [|discriminate].
  intros H. rewrite (IH H). reflexivity.
Qed.

Lemma trimEnd_app s w : trimStart w = EmptyString -> trimEnd (s ++ w) = trimEnd s.
Proof.
  intros Hw. induction s as [|c s IH]; [apply trimEnd_white; exact Hw|].
  cbn [append trimEnd]. rewrite IH. reflexivity.
Qed.

Lemma trimStart_app_r s w :
  trimStart w = EmptyString ->
  trimStart (s ++ w) = match trimStart s with
                       | EmptyString => EmptyString
                       | t => t ++ w
                       end.
Proof.
  intros Hw. induction s as [|c s IH]; [exact Hw|].
  cbn [append trimStart]. destruct (isWhiteSpace c); [exact IH|reflexivity].
Qed.

Lemma trim_app_l w s : trimStart w = EmptyString -> trim (w ++ s) = trim s.
Proof. intros Hw. unfold trim. rewrite trimStart_app by exact Hw. reflexivity. Qed.

Lemma trim_app_r s w : trimStart w = EmptyString -> trim (s ++ w) = trim s.
Proof.
  intros Hw. unfold trim. rewrite trimStart_app_r by exact Hw.
  destruct (trimStart s) as [|c t]; [reflexivity|].
  apply (trimEnd_app (String c t) w Hw).
Qed.

(** What [trimStart] and [trimEnd] cut off is white space. *)
Lemma trimStart_split s :
  exists w, trimStart w = EmptyString /\ s = w ++ trimStart s.
Proof.
  induction s as [|c s [w [Hw Hs]]]; [exists EmptyString; split; reflexivity|].
  cbn [trimStart]. destruct (isWhiteSpace c) eqn:Hc.
  - exists (String c w). split; [cbn [trimStart]; rewrite Hc; exact Hw|].
    cbn [append]. rewrite <- Hs. reflexivity.
  - exists EmptyString. split; reflexivity.
Qed.

Lemma trimEnd_split s :
  exists w, trimStart w = EmptyString /\ s = trimEnd s ++ w.
Proof.
  induction s as [|c s [w [Hw Hs]]]; [exists EmptyString; split; reflexivity|].
  cbn [trimEnd]. destruct (trimEnd s) as [|d t] eqn:E.
  - destruct (isWhiteSpace c) eqn:Hc.
    + exists (String c w). split; [cbn [trimStart]; rewrite Hc; exact Hw|].
      cbn [append] in *. rewrite <- Hs. reflexivity.
    + exists w. split; [exact Hw|]. cbn [append] in *. rewrite <- Hs. reflexivity.
  - exists w. split; [exact Hw|]. cbn [append] in *. rewrite <- Hs. reflexivity.
Qed.

Lemma white_not c s :
  trimStart (String c s) = EmptyString -> isWhiteSpace c = true /\ trimStart s = EmptyString.
Proof. cbn [trimStart]. destruct (isWhiteSpace c); [auto|discriminate]. Qed.

Lemma white_no_quote c : isWhiteSpace c = true -> Ascii.eqb c quoteChar = false.
Proof.
  intros H. destruct (Ascii.eqb c quoteChar) eqn:E; [|reflexivity].
  apply Ascii.eqb_eq in E. subst c. discriminate.
Qed.

Lemma white_no_comma c : isWhiteSpace c = true -> Ascii.eqb c commaChar = false.
Proof.
  intros H. destruct (Ascii.eqb c commaChar) eqn:E; [|reflexivity].
  apply Ascii.eqb_eq in E. subst c. discriminate.
Qed.

(** ** Substrings *)

Lemma prefix_app p : forall s, prefix p s = true <-> exists b, s = p ++ b.
Proof.
  induction p as [|c p IH]; intros s.
  - split; [intros _; exists s; reflexivity|intros _; destruct s; reflexivity].
  - destruct s as [|d s]; cbn [prefix].
    + split; [discriminate|intros [b Hb]; discriminate].
    + destruct (Ascii.ascii_dec c d) as [->|Hne].
      * rewrite IH. split; intros [b Hb]; exists b.
        -- cbn [append]. rewrite Hb. reflexivity.
        -- cbn [append] in Hb. injection Hb as ->. reflexivity.
      * split; [discriminate|].
        intros [b Hb]. cbn [append] in Hb. injection Hb as -> _.
        exfalso. apply Hne. reflexivity.
Qed.

Lemma includes_app s p : includes s p = true <-> exists a b, s = a ++ p ++ b.
Proof.
  induction s as [|c s IH].
  - cbn [includes]. rewrite orb_false_r, prefix_app. split.
    + intros [b Hb]. exists EmptyString, b. exact Hb.
    + intros [a [b Hb]]. destruct a; [exists b; exact Hb|discriminate].
  - cbn [includes]. rewrite orb_true_iff, prefix_app, IH. split.
    + intros [[b Hb]|[a [b Hb]]].
      * exists EmptyString, b. exact Hb.
      * exists (String c a), b. cbn [append]. rewrite Hb. reflexivity.
    + intros [a [b Hb]]. destruct a as [|d a].
      * left. exists b. exact Hb.
      * right. cbn [append] in Hb. injection Hb as _ ->. exists a, b. reflexivity.
Qed.

(** A string that includes [p] includes what [p] includes. *)
Lemma includes_trans s p q :
  includes s p = true -> includes p q = true -> includes s q = true.
Proof.
  rewrite !includes_app. intros [a [b ->]] [a' [b' ->]].
  exists (a ++ a'), (b' ++ b). rewrite !append_assoc. reflexivity.
Qed.

End StrFacts.

(* ================================================================== *)
(** * More on the field tokenizer *)

Module Fields.
Import StrFacts Tokenizer.

(** The scanner consumes one or two characters at a time: induction on the
    length of what is left. *)
Ltac by_length := unfold Wf_nat.ltof; cbn [String.length]; lia.

(** The scanner looks at the field under construction only when it trims
    it, so white space in front of it does not count. *)
Lemma scan_ext line : forall current current' inQuotes result,
  (forall x, trim (current ++ x) = trim (current' ++ x)) ->
  parseCSVLine_loop line current inQuotes result
  = parseCSVLine_loop line current' inQuotes result.
Proof.
  assert (Hext : forall (a b : string) c,
             (forall x, trim (a ++ x) = trim (b ++ x)) ->
             forall x, trim ((a ++ String c EmptyString) ++ x)
                       = trim ((b ++ String c EmptyString) ++ x)).
  { intros a b c H x. rewrite !append_assoc_char. apply H. }
  assert (Hnil : forall (a b : string),
             (forall x, trim (a ++ x) = trim (b ++ x)) -> trim a = trim b).
  { intros a b H. specialize (H EmptyString). rewrite !append_empty_r in H. exact H. }
  induction line as [line IH] using (well_founded_induction
                                      (Wf_nat.well_founded_ltof _ String.length)).
  intros current current' inQuotes result H.
  destruct line as [|char rest]; cbn [parseCSVLine_loop].
  - rewrite (Hnil _ _ H). reflexivity.
  - destruct (Ascii.eqb char quoteChar).
    + destruct rest as [|nextChar rest'].
      * apply IH; [by_length|exact H].
      * destruct (inQuotes && Ascii.eqb nextChar quoteChar).
        -- apply IH; [by_length|apply Hext; exact H].
        -- apply IH; [by_length|exact H].
    + destruct (Ascii.eqb char commaChar && negb inQuotes).
      * rewrite (Hnil _ _ H). reflexivity.
      * apply IH; [by_length|apply Hext; exact H].
Qed.

Lemma scan_leading w : forall line current,
  trimStart w = EmptyString -> trimStart current = EmptyString ->
  parseCSVLine_loop (w ++ line) current false []
  = parseCSVLine_loop line EmptyString false [].
Proof.
  induction w as [|c w IH]; intros line current Hw Hcur.
  - cbn [append]. apply scan_ext. intros x. cbn [append].
    apply trim_app_l. exact Hcur.
  - apply white_not in Hw. destruct Hw as [Hc Hw].
    cbn [append parseCSVLine_loop].
    rewrite (white_no_quote c Hc), (white_no_comma c Hc). cbn [andb].
    apply IH; [exact Hw|].
    rewrite trimStart_app by exact Hcur. cbn [trimStart]. rewrite Hc. reflexivity.
Qed.

Lemma scan_white w : forall current inQuotes result,
  trimStart w = EmptyString ->
  parseCSVLine_loop w current inQuotes result = (result ++ [trim current])%list.
Proof.
  induction w as [|c w IH]; intros current inQuotes result Hw; [reflexivity|].
  apply white_not in Hw. destruct Hw as [Hc Hw].
  cbn [parseCSVLine_loop].
  rewrite (white_no_quote c Hc), (white_no_comma c Hc). cbn [andb].
  rewrite IH by exact Hw.
  rewrite trim_app_r; [reflexivity|]. cbn [trimStart]. rewrite Hc. reflexivity.
Qed.

Lemma scan_trailing w line : forall current inQuotes result,
  trimStart w = EmptyString ->
  parseCSVLine_loop (line ++ w) current inQuotes result
  = parseCSVLine_loop line current inQuotes result.
Proof.
  induction line as [line IH] using (well_founded_induction
                                      (Wf_nat.well_founded_ltof _ String.length)).
  intros current inQuotes result Hw.
  destruct line as [|char rest].
  - cbn [append]. rewrite scan_white by exact Hw. reflexivity.
  - cbn [append parseCSVLine_loop].
    destruct (Ascii.eqb char quoteChar).
    + destruct rest as [|nextChar rest'].
      * cbn [append].
        replace (match w with
                 | EmptyString => parseCSVLine_loop w current (negb inQuotes) result
                 | String nextChar rest' =>
                     if inQuotes && Ascii.eqb nextChar quoteChar
                     then parseCSVLine_loop rest' (current ++ String quoteChar EmptyString)
                                            inQuotes result
                     else parseCSVLine_loop w current (negb inQuotes) result
                 end) with (parseCSVLine_loop w current (negb inQuotes) result).
        -- rewrite scan_white by exact Hw. reflexivity.
        -- destruct w as [|c w']; [reflexivity|].
           apply white_not in Hw. destruct Hw as [Hc _].
           rewrite (white_no_quote c Hc), andb_false_r. reflexivity.
      * cbn [append].
        destruct (inQuotes && Ascii.eqb nextChar quoteChar).
        -- apply IH; [by_length|exact Hw].
        -- apply (IH (String nextChar rest')); [by_length|exact Hw].
    + destruct (Ascii.eqb char commaChar && negb inQuotes);
        (apply IH; [by_length|exact Hw]).
Qed.

Lemma parseCSVLine_trim line : parseCSVLine (trim line) = parseCSVLine line.
Proof.
  unfold parseCSVLine, trim.
  destruct (trimStart_split line) as [w1 [Hw1 H1]].
  destruct (trimEnd_split (trimStart line)) as [w2 [Hw2 H2]].
  rewrite <- (scan_trailing w2 (trimEnd (trimStart line)) _ _ _ Hw2), <- H2.
  rewrite <- (scan_leading w1 (trimStart line) EmptyString Hw1 eq_refl), <- H1.
  reflexivity.
Qed.

(** Every field that the scanner stores is trimmed. *)
Lemma scan_fields line : forall current inQuotes result,
  Forall (fun f => trim f = f) result ->
  Forall (fun f => trim f = f) (parseCSVLine_loop line current inQuotes result)
  /\ parseCSVLine_loop line current inQuotes result <> [].
Proof.
  induction line as [line IH] using (well_founded_induction
                                      (Wf_nat.well_founded_ltof _ String.length)).
  intros current inQuotes result Hres.
  assert (Hpush : Forall (fun f => trim f = f) (result ++ [trim current])).
  { apply Forall_app. split; [exact Hres|].
    constructor; [apply trim_idempotent|constructor]. }
  destruct line as [|char rest]; cbn [parseCSVLine_loop].
  - split; [exact Hpush|]. destruct result; discriminate.
  - destruct (Ascii.eqb char quoteChar).
    + destruct rest as [|nextChar rest'].
      * apply IH; [by_length|exact Hres].
      * destruct (inQuotes && Ascii.eqb nextChar quoteChar);
          (apply IH; [by_length|exact Hres]).
    + destruct (Ascii.eqb char commaChar && negb inQuotes).
      * apply IH; [by_length|exact Hpush].
      * apply IH; [by_length|exact Hres].
Qed.

(** Outside quotes the scanner cuts the line at its commas. *)
Lemma scan_unquoted line : forall current result,
  includes line (String quoteChar EmptyString) = false ->
  parseCSVLine_loop line current false result
  = (result ++ match splitOn commaChar line with
               | x :: xs => trim (current ++ x) :: map trim xs
               | [] => []
               end)%list.
Proof.
  induction line as [|c line IH]; intros current result Hq.
  - cbn [parseCSVLine_loop splitOn map]. rewrite append_empty_r. reflexivity.
  - cbn [includes] in Hq. apply orb_false_iff in Hq. destruct Hq as [Hc Hq].
    assert (Hcq : Ascii.eqb c quoteChar = false).
    { destruct (Ascii.eqb c quoteChar) eqn:E; [|reflexivity].
      apply Ascii.eqb_eq in E. subst c. cbn [prefix] in Hc.
      destruct (Ascii.ascii_dec quoteChar quoteChar) as [_|N];
        [destruct line; discriminate|exfalso; apply N; reflexivity]. }
    cbn [parseCSVLine_loop splitOn]. rewrite Hcq.
    destruct (Ascii.eqb c commaChar) eqn:Hcomma; cbn [andb negb].
    + rewrite IH by exact Hq. rewrite append_empty_r, <- app_assoc.
      cbn [app map append].
      destruct (splitOn commaChar line) as [|x xs] eqn:E.
      * destruct line; cbn [splitOn] in E; [discriminate|].
        destruct (Ascii.eqb a commaChar); [discriminate|].
        destruct (splitOn commaChar line); discriminate.
      * reflexivity.
    + rewrite IH by exact Hq.
      destruct (splitOn commaChar line) as [|x xs] eqn:E.
      * destruct line; cbn [splitOn] in E; [discriminate|].
        destruct (Ascii.eqb a commaChar); [discriminate|].
        destruct (splitOn commaChar line); discriminate.
      * rewrite append_assoc_char. reflexivity.
Qed.

End Fields.

(* ================================================================== *)
(** * More on the header resolver *)

Module Headers.
Import StrFacts Resolver.

(** What [findIndex] returns: [-1] when nothing matches, and otherwise the
    position of the first match. *)
Lemma findIndex_from_spec (p : string -> bool) l : forall k,
  (findIndex_from k p l = -1 /\ forall x, In x l -> p x = false)
  \/ (exists n x,
        findIndex_from k p l = k + Z.of_nat n
        /\ nth_error l n = Some x /\ p x = true
        /\ forall j y, (j < n)%nat -> nth_error l j = Some y -> p y = false).
Proof.
  induction l as [|h t IH]; intros k.
  - left. split; [reflexivity|intros x []].
  - cbn [findIndex_from]. destruct (p h) eqn:Hp.
    + right. exists 0%nat, h. split; [cbn; lia|]. split; [reflexivity|].
      split; [exact Hp|]. intros j y Hj. lia.
    + destruct (IH (k + 1)) as [[E Hnone]|[n [x [E [Hn [Hx Hbefore]]]]]].
      * left. split; [exact E|]. intros x [<-|Hx]; [exact Hp|apply Hnone; exact Hx].
      * right. exists (S n), x. split; [rewrite E; lia|]. split; [exact Hn|].
        split; [exact Hx|]. intros [|j] y Hj Hy.
        -- injection Hy as <-. exact Hp.
        -- apply (Hbefore j y); [lia|exact Hy].
Qed.

Lemma headerMatches_normalized patterns x y :
  normalizeHeader x = normalizeHeader y ->
  headerMatches patterns x = headerMatches patterns y.
Proof. unfold headerMatches. intros ->. reflexivity. Qed.

Lemma findIndex_from_normalized patterns hs : forall hs' k,
  map normalizeHeader hs = map normalizeHeader hs' ->
  findIndex_from k (headerMatches patterns) hs
  = findIndex_from k (headerMatches patterns) hs'.
Proof.
  induction hs as [|x hs IH]; intros [|y hs'] k H; try discriminate; [reflexivity|].
  cbn [map] in H. injection H as Hxy Hrest.
  cbn [findIndex_from]. rewrite (headerMatches_normalized patterns x y Hxy).
  destruct (headerMatches patterns y); [reflexivity|apply IH; exact Hrest].
Qed.

(** A synonym that contains another synonym adds nothing. *)
Lemma headerMatches_date x :
  headerMatches datePatterns x = headerMatches ["date"; "posted"] x.
Proof.
  unfold headerMatches, datePatterns. cbn [existsb].
  change (toLowerCase "date") with "date".
  change (toLowerCase "transaction date") with "transaction date".
  change (toLowerCase "posted") with "posted".
  change (toLowerCase "posted date") with "posted date".
  set (n := normalizeHeader x).
  pose proof (fun H => includes_trans n "transaction date" "date" H eq_refl) as H1.
  pose proof (fun H => includes_trans n "posted date" "date" H eq_refl) as H2.
  destruct (includes n "date"); [reflexivity|].
  destruct (includes n "transaction date"); [discriminate (H1 eq_refl)|].
  destruct (includes n "posted"); [reflexivity|].
  destruct (includes n "posted date"); [discriminate (H2 eq_refl)|reflexivity].
Qed.

Lemma headerMatches_type x :
  headerMatches typePatterns x = headerMatches ["type"; "debit/credit"; "dr/cr"] x.
Proof.
  unfold headerMatches, typePatterns. cbn [existsb].
  change (toLowerCase "type of transaction") with "type of transaction".
  change (toLowerCase "trans type") with "trans type".
  change (toLowerCase "transaction type") with "transaction type".
  change (toLowerCase "type") with "type".
  change (toLowerCase "debit/credit") with "debit/credit".
  change (toLowerCase "dr/cr") with "dr/cr".
  set (n := normalizeHeader x).
  pose proof (fun H => includes_trans n "type of transaction" "type" H eq_refl) as H1.
  pose proof (fun H => includes_trans n "trans type" "type" H eq_refl) as H2.
  pose proof (fun H => includes_trans n "transaction type" "type" H eq_refl) as H3.
  destruct (includes n "type").
  - rewrite !orb_true_r. reflexivity.
  - destruct (includes n "type of transaction"); [discriminate (H1 eq_refl)|].
    destruct (includes n "trans type"); [discriminate (H2 eq_refl)|].
    destruct (includes n "transaction type"); [discriminate (H3 eq_refl)|].
    reflexivity.
Qed.

End Headers.

(* ================================================================== *)
(** * More on the runs of the parser *)

Module Rows.
Import StrFacts Fields.

Lemma checkRow_trim cols row : checkRow cols (trim row) = checkRow cols row.
Proof. unfold checkRow. rewrite trim_idempotent. reflexivity. Qed.

Lemma processLines_trim h cols rows : forall st,
  processLines h cols st (map trim rows) = processLines h cols st rows.
Proof.
  induction rows as [|row rows IH]; intros st; [reflexivity|].
  cbn [map processLines]. unfold processLine, normalizeRow.
  rewrite checkRow_trim.
  destruct (checkRow cols row) as [[[dateStr desc] a]|]; cbn [bind]; [|apply IH].
  destruct (nonEmpty dateStr).
  - destruct (newDateParse h dateStr); cbn [bind]; [|apply IH].
    destruct (accumulate h st _ desc a); cbn [bind]; [apply IH|reflexivity].
  - destruct (accumulate h st _ desc a); cbn [bind]; [apply IH|reflexivity].
Qed.

Lemma parseLines_trim h lines : parseLines h (map trim lines) = parseLines h lines.
Proof.
  destruct lines as [|header rows]; [reflexivity|].
  cbn [map]. rewrite !parseLines_cons. cbv zeta.
  rewrite parseCSVLine_trim, processLines_trim. reflexivity.
Qed.

(** A row that the loop skips can be taken out. *)
Lemma processLines_skip h cols row pre post : forall st,
  (forall st', processLine h cols st' row = Ok st') ->
  processLines h cols st (pre ++ row :: post) = processLines h cols st (pre ++ post).
Proof.
  intros st Hrow. rewrite !processLines_app.
  destruct (processLines h cols st pre) as [st1|e]; [|reflexivity].
  cbn [bind processLines]. rewrite Hrow. reflexivity.
Qed.

Lemma parseCSV_skip h header row pre post csvContent csvContent' :
  (forall st, processLine h (resolveColumns (parseCSVLine header)) st row = Ok st) ->
  contentLines csvContent = header :: (pre ++ row :: post)%list ->
  contentLines csvContent' = header :: (pre ++ post)%list ->
  parseCSV h csvContent = parseCSV h csvContent'.
Proof.
  intros Hrow Hl Hl'. unfold parseCSV. rewrite Hl, Hl'.
  rewrite !parseLines_cons. cbv zeta.
  rewrite (processLines_skip h _ row pre post initialState Hrow). reflexivity.
Qed.

(** ** Exceptions *)

Lemma accumulate_Throw h st d desc a e :
  accumulate h st d desc a = Throw e ->
  e = RangeError "Invalid time value" /\ (d = None \/ getWeekStart h d = None).
Proof.
  unfold accumulate. destruct d as [t|].
  - cbn [toISOString bind].
    destruct (getWeekStart h (Some t)) as [ws|] eqn:Hws; cbn [toISOString bind];
      [discriminate|].
    intros [= <-]. split; [reflexivity|right; reflexivity].
  - cbn [toISOString bind]. intros [= <-]. split; [reflexivity|left; reflexivity].
Qed.

Lemma processLines_Throw h cols lines : forall st e,
  processLines h cols st lines = Throw e ->
  e = RangeError "Invalid time value"
  /\ exists row d desc a,
       In row lines /\ normalizeRow h cols row = Keep d desc a
       /\ (d = None \/ getWeekStart h d = None).
Proof.
  induction lines as [|l lines IH]; intros st e Hrun; [discriminate|].
  cbn [processLines] in Hrun.
  destruct (processLine h cols st l) as [st1|e1] eqn:Hstep; cbn [bind] in Hrun.
  - destruct (IH st1 e Hrun) as [He [row [d [desc [a [Hin H]]]]]].
    split; [exact He|]. exists row, d, desc, a. split; [right; exact Hin|exact H].
  - injection Hrun as <-. unfold processLine in Hstep.
    destruct (normalizeRow h cols l) as [|d desc a] eqn:Hn; [discriminate|].
    destruct (accumulate_Throw h st d desc a e1 Hstep) as [He Hd].
    split; [exact He|]. exists l, d, desc, a.
    split; [left; reflexivity|]. split; [exact Hn|exact Hd].
Qed.

(** Away from the two ends of the range of time values, and with a local
    offset of less than a day, every date has a week start. *)
Lemma getWeekStart_valid h t :
  (forall u b, - msPerDay <= LocalTZA h u b <= msPerDay) ->
  - maxTime + 8 * msPerDay <= t <= maxTime - 2 * msPerDay ->
  exists ws, getWeekStart h (Some t) = Some ws.
Proof.
  intros Hoff Ht. rewrite getWeekStart_shift, TimeClip_idempotent.
  assert (Hk : 0 <= (getDay h t + 6) mod 7 < 7) by (apply Z.mod_pos_bound; lia).
  set (k := (getDay h t + 6) mod 7) in *.
  unfold UTC, LocalTime.
  set (x := t + LocalTZA h t true - k * msPerDay).
  pose proof (Hoff t true) as H1. pose proof (Hoff x false) as H2.
  exists (x - LocalTZA h x false). unfold TimeClip.
  replace (- maxTime <=? x - LocalTZA h x false) with true
    by (symmetry; apply Z.leb_le; subst x; unfold msPerDay in *; lia).
  replace (x - LocalTZA h x false <=? maxTime) with true
    by (symmetry; apply Z.leb_le; subst x; unfold msPerDay in *; lia).
  reflexivity.
Qed.

Lemma accumulate_succeeds h st d desc a :
  (exists t ws, d = Some t /\ getWeekStart h d = Some ws) ->
  exists st', accumulate h st d desc a = Ok st'.
Proof.
  intros [t [ws [Hd Hws]]].
  rewrite (accumulate_run h st d t desc a ws Hd Hws). eexists. reflexivity.
Qed.

Lemma processLines_succeeds h cols lines :
  (forall row d desc a,
     In row lines -> normalizeRow h cols row = Keep d desc a ->
     exists t ws, d = Some t /\ getWeekStart h d = Some ws) ->
  forall st, exists st', processLines h cols st lines = Ok st'.
Proof.
  induction lines as [|l lines IH]; intros Hrows st; [exists st; reflexivity|].
  cbn [processLines]. unfold processLine.
  assert (Hrest : forall row d desc a,
             In row lines -> normalizeRow h cols row = Keep d desc a ->
             exists t ws, d = Some t /\ getWeekStart h d = Some ws).
  { intros row d desc a Hin. apply Hrows. right. exact Hin. }
  destruct (normalizeRow h cols l) as [|d desc a] eqn:Hn; cbn [bind].
  - apply (IH Hrest).
  - destruct (accumulate_succeeds h st d desc a
                (Hrows l d desc a (or_introl eq_refl) Hn)) as [st1 ->].
    cbn [bind]. apply (IH Hrest).
Qed.

(** ** Sizes *)

Lemma keptRows_length h cols lines :
  (List.length (keptRows h cols lines) <= List.length lines)%nat.
Proof.
  induction lines as [|l lines IH]; [cbn; lia|].
  rewrite keptRows_cons, length_app. cbn [List.length].
  assert (List.length (keptRows h cols [l]) <= 1)%nat; [|lia].
  unfold keptRows. cbn [flat_map].
  destruct (normalizeRow h cols l) as [|[t|] desc a]; cbn; lia.
Qed.

Lemma nodup_length_le (l : list string) :
  (List.length (nodup string_dec l) <= List.length l)%nat.
Proof.
  apply NoDup_incl_length; [apply NoDup_nodup|].
  intros x Hx. apply nodup_In in Hx. exact Hx.
Qed.

Lemma bucketSums_length rows :
  (List.length (bucketSums rows) <= List.length rows)%nat
  /\ (rows <> [] -> (0 < List.length (bucketSums rows))%nat).
Proof.
  unfold bucketSums. rewrite length_map. split.
  - rewrite <- (length_map fst rows). apply nodup_length_le.
  - intros Hne. destruct rows as [|r rows]; [contradiction|].
    assert (Hin : In (fst r) (nodup string_dec (map fst (r :: rows))))
      by (apply nodup_In; left; reflexivity).
    destruct (nodup string_dec (map fst (r :: rows))); [destruct Hin|cbn; lia].
Qed.

Lemma holds_empty {m : list (string * number)} : holds m [] -> m = [].
Proof.
  intros H. destruct m as [|[k v] m]; [reflexivity|].
  exfalso. apply (proj1 (holds_keys _ _ H k)). left. reflexivity.
Qed.

Lemma aggregates_empty h st : aggregates h [] st -> st = initialState.
Proof.
  intros [Ham Htot Hmo Hda Hwe _].
  destruct st as [txs mm dm wm tot]. cbn in *.
  apply holds_empty in Hmo. apply holds_empty in Hda. apply holds_empty in Hwe.
  destruct txs; [|discriminate]. destruct wm; [|discriminate].
  subst. reflexivity.
Qed.

(** ** The stored transactions *)

(** The date and the amount of every stored transaction, row by row. *)
Lemma processLines_dates h cols lines : forall st st',
  processLines h cols st lines = Ok st' ->
  map (fun tx => (date tx, amount tx)) (st_transactions st')
  = (map (fun tx => (date tx, amount tx)) (st_transactions st)
       ++ map (fun r => (datePart (isoString (fst r)), snd r)) (keptRows h cols lines))%list.
Proof.
  induction lines as [|l lines IH]; intros st st' Hrun; cbn [processLines] in Hrun.
  - injection Hrun as <-. cbn. rewrite app_nil_r. reflexivity.
  - destruct (processLine h cols st l) as [st1|e] eqn:Hstep; [|discriminate].
    cbn [bind] in Hrun. rewrite (IH st1 st' Hrun), keptRows_cons, map_app, app_assoc.
    f_equal.
    destruct (processLine_Ok h _ _ _ _ Hstep) as [[Hk ->]|[t [desc [a [_ [Hk [_ Hacc]]]]]]];
      rewrite Hk.
    + cbn. rewrite app_nil_r. reflexivity.
    + destruct (accumulate_Ok h _ _ _ _ _ Hacc) as [t' [ws [Ht [_ ->]]]].
      injection Ht as <-. cbn [st_transactions]. rewrite map_app. reflexivity.
Qed.

(** Every kept row has a time value in the range of [Date]. *)
Lemma keptRows_valid h cols lines :
  Forall (fun r => TimeClip (fst r) = Some (fst r)) (keptRows h cols lines).
Proof.
  assert (Hclip : forall u t, TimeClip u = Some t -> TimeClip t = Some t).
  { intros u t. unfold TimeClip.
    destruct ((- maxTime <=? u) && (u <=? maxTime)) eqn:E; [|discriminate].
    intros [= <-]. rewrite E. reflexivity. }
  induction lines as [|l lines IH]; [constructor|].
  rewrite keptRows_cons. apply Forall_app. split; [|exact IH].
  unfold keptRows. cbn [flat_map]. rewrite app_nil_r.
  destruct (normalizeRow h cols l) as [|[t|] desc a] eqn:Hn; try constructor;
    [|constructor].
  cbn [fst]. unfold normalizeRow in Hn.
  destruct (checkRow cols l) as [[[dateStr desc'] a']|]; [|discriminate].
  destruct (nonEmpty dateStr).
  - unfold newDateParse in Hn. destruct (dateParse h dateStr) as [u|]; [|discriminate].
    destruct (TimeClip u) as [t'|] eqn:E; [|discriminate].
    injection Hn as <- _ _. apply (Hclip u t' E).
  - injection Hn as Hnow _ _. apply (Hclip (now h) t Hnow).
Qed.

End Rows.

(* ================================================================== *)
(** * The order of the assembled lists *)

Module Order.

Section Sorting.
Context {A : Type} (gt : A -> A -> bool) (le : A -> A -> Prop).
Hypothesis le_trans : forall a b c, le a b -> le b c -> le a c.

Lemma insertSorted_sorted x l :
  (forall y, In y l -> gt y x = true -> le x y) ->
  (forall y, In y l -> gt y x = false -> le y x) ->
  StronglySorted le l -> StronglySorted le (insertSorted gt x l).
Proof.
  induction l as [|a l IH]; intros Hgt Hle Hs; cbn [insertSorted].
  - constructor; constructor.
  - inversion Hs as [|? ? Hs' Hall]; subst.
    destruct (gt a x) eqn:E.
    + constructor; [exact Hs|].
      assert (Hxa : le x a) by (apply Hgt; [left; reflexivity|exact E]).
      constructor; [exact Hxa|].
      apply (Forall_impl _ (P := le a)); [|exact Hall].
      intros z Hz. apply (le_trans x a z Hxa Hz).
    + constructor.
      * apply IH; [| |exact Hs'].
        -- intros y Hy. apply Hgt. right. exact Hy.
        -- intros y Hy. apply Hle. right. exact Hy.
      * apply Forall_forall. intros z Hz.
        apply (Permutation_in _ (Buckets.insertSorted_Permutation gt x l)) in Hz.
        destruct Hz as [<-|Hz]; [apply Hle; [left; reflexivity|exact E]|].
        rewrite Forall_forall in Hall. apply Hall. exact Hz.
Qed.

(** A comparator that agrees with a transitive order on the elements of
    the list sorts it. *)
Lemma sortBy_sorted l :
  (forall a b, In a l -> In b l -> gt a b = true -> le b a) ->
  (forall a b, In a l -> In b l -> gt a b = false -> le a b) ->
  StronglySorted le (sortBy gt l).
Proof.
  intros Hgt Hle. unfold sortBy.
  assert (G : forall rest acc,
             incl (acc ++ rest) l -> StronglySorted le acc ->
             StronglySorted le (fold_left (fun acc x => insertSorted gt x acc) rest acc)).
  { induction rest as [|x rest IH]; intros acc Hincl Hs; cbn [fold_left]; [exact Hs|].
    assert (Hx : In x l) by (apply Hincl, in_or_app; right; left; reflexivity).
    assert (Hacc : forall y, In y acc -> In y l)
      by (intros y Hy; apply Hincl, in_or_app; left; exact Hy).
    apply IH.
    - intros y Hy. apply in_app_or in Hy. destruct Hy as [Hy|Hy].
      + apply (Permutation_in _ (Buckets.insertSorted_Permutation gt x acc)) in Hy.
        destruct Hy as [<-|Hy]; [exact Hx|apply Hacc; exact Hy].
      + apply Hincl, in_or_app. right. right. exact Hy.
    - apply insertSorted_sorted; [| |exact Hs].
      + intros y Hy. apply Hgt; [apply Hacc; exact Hy|exact Hx].
      + intros y Hy. apply Hle; [apply Hacc; exact Hy|exact Hx]. }
  apply G; [|constructor]. cbn [app]. apply incl_refl.
Qed.
End Sorting.

Lemma insertSorted_map {A B} (f : A -> B) gt gt' x l :
  (forall a b, gt' (f a) (f b) = gt a b) ->
  insertSorted gt' (f x) (map f l) = map f (insertSorted gt x l).
Proof.
  intros H. induction l as [|y l IH]; cbn [map insertSorted]; [reflexivity|].
  rewrite H. destruct (gt y x); cbn [map]; [reflexivity|rewrite IH; reflexivity].
Qed.

Lemma sortBy_map {A B} (f : A -> B) gt gt' l :
  (forall a b, gt' (f a) (f b) = gt a b) ->
  sortBy gt' (map f l) = map f (sortBy gt l).
Proof.
  intros H. unfold sortBy.
  assert (G : forall rest acc,
             fold_left (fun acc x => insertSorted gt' x acc) (map f rest) (map f acc)
             = map f (fold_left (fun acc x => insertSorted gt x acc) rest acc)).
  { induction rest as [|x rest IH]; intros acc; cbn [map fold_left]; [reflexivity|].
    rewrite (insertSorted_map f gt gt' x acc H). apply IH. }
  apply (G l []).
Qed.

Lemma StronglySorted_map {A B} (f : A -> B) (R : B -> B -> Prop) l :
  StronglySorted (fun a b => R (f a) (f b)) l -> StronglySorted R (map f l).
Proof.
  induction 1 as [|a l Hs IH Hall]; cbn [map]; constructor; [exact IH|].
  apply Forall_map. exact Hall.
Qed.

Lemma StronglySorted_strict {A} (le lt : A -> A -> Prop) l :
  (forall a b, le a b -> a <> b -> lt a b) ->
  StronglySorted le l -> NoDup l -> StronglySorted lt l.
Proof.
  intros Hlt. induction 1 as [|a l Hs IH Hall]; intros Hnd; constructor.
  - apply IH. inversion Hnd; assumption.
  - inversion Hnd as [|? ? Hnotin _]; subst.
    apply Forall_forall. intros b Hb. rewrite Forall_forall in Hall.
    apply Hlt; [apply Hall; exact Hb|]. intros ->. apply Hnotin. exact Hb.
Qed.

(** ** The order of the day keys *)

Lemma code_inj x y : code x = code y -> x = y.
Proof.
  unfold code. intros H. apply N2Z.inj in H.
  rewrite <- (ascii_N_embedding x), <- (ascii_N_embedding y), H. reflexivity.
Qed.

Lemma compareStr_eq a : forall b, compareStr a b = Eq -> a = b.
Proof.
  induction a as [|x a IH]; intros [|y b]; cbn [compareStr]; try discriminate;
    [reflexivity|].
  destruct (code x ?= code y) eqn:E; try discriminate.
  apply Z.compare_eq in E. apply code_inj in E. subst y.
  intros H. rewrite (IH b H). reflexivity.
Qed.

Lemma compareStr_antisym a : forall b, compareStr b a = CompOpp (compareStr a b).
Proof.
  induction a as [|x a IH]; intros [|y b]; cbn [compareStr]; try reflexivity.
  rewrite (Z.compare_antisym (code x) (code y)).
  destruct (code x ?= code y); cbn [CompOpp]; [apply IH|reflexivity|reflexivity].
Qed.

Lemma compareStr_trans a : forall b c,
  compareStr a b <> Gt -> compareStr b c <> Gt -> compareStr a c <> Gt.
Proof.
  induction a as [|x a IH]; intros [|y b] [|z c]; cbn [compareStr];
    try congruence.
  destruct (Z.compare_spec (code x) (code y)) as [Exy|Lxy|Gxy]; [| |congruence];
    destruct (Z.compare_spec (code y) (code z)) as [Eyz|Lyz|Gyz]; try congruence;
    destruct (Z.compare_spec (code x) (code z)) as [Exz|Lxz|Gxz]; try congruence;
    try lia.
  apply IH.
Qed.

End Order.

(* ================================================================== *)
(** * The printed dates *)

Module Dates.
Import StrFacts.

Lemma splitOn_nonempty sep s : splitOn sep s <> [].
Proof.
  destruct s as [|c s]; cbn [splitOn]; [discriminate|].
  destruct (Ascii.eqb c sep); [discriminate|].
  destruct (splitOn sep s); discriminate.
Qed.

(** [splitOn sep s = [s]] says that [sep] does not occur in [s]. *)
Lemma whole_cons sep c s :
  Ascii.eqb c sep = false -> splitOn sep s = [s] ->
  splitOn sep (String c s) = [String c s].
Proof. intros Hc Hs. cbn [splitOn]. rewrite Hc, Hs. reflexivity. Qed.

Lemma whole_inv sep c s :
  splitOn sep (String c s) = [String c s] ->
  Ascii.eqb c sep = false /\ splitOn sep s = [s].
Proof.
  cbn [splitOn]. destruct (Ascii.eqb c sep); [discriminate|].
  pose proof (splitOn_nonempty sep s) as Hne.
  destruct (splitOn sep s) as [|x xs]; [contradiction|].
  intros [= -> ->]. split; reflexivity.
Qed.

Lemma whole_app sep a b :
  splitOn sep a = [a] -> splitOn sep b = [b] -> splitOn sep (a ++ b) = [a ++ b].
Proof.
  intros Ha Hb. induction a as [|c a IH]; [exact Hb|].
  apply whole_inv in Ha. destruct Ha as [Hc Ha].
  cbn [append]. apply whole_cons; [exact Hc|apply IH; exact Ha].
Qed.

Lemma splitOn_head sep a b :
  splitOn sep a = [a] -> splitOn sep (a ++ String sep b) = a :: splitOn sep b.
Proof.
  intros Ha. induction a as [|c a IH].
  - cbn [append splitOn]. rewrite Ascii.eqb_refl. reflexivity.
  - apply whole_inv in Ha. destruct Ha as [Hc Ha].
    cbn [append splitOn]. rewrite Hc, (IH Ha). reflexivity.
Qed.

Lemma whole_uint d :
  splitOn "T" (NilEmpty.string_of_uint d) = [NilEmpty.string_of_uint d].
Proof.
  induction d; cbn [NilEmpty.string_of_uint]; [reflexivity| | | | | | | | | |];
    (apply whole_cons; [reflexivity|assumption]).
Qed.

Lemma whole_stringOfZ n : splitOn "T" (stringOfZ n) = [stringOfZ n].
Proof.
  unfold stringOfZ, NilZero.string_of_int.
  assert (H : forall d, splitOn "T" (NilZero.string_of_uint d)
                        = [NilZero.string_of_uint d]).
  { intros d. unfold NilZero.string_of_uint.
    destruct d; try reflexivity; apply whole_uint. }
  destruct (Z.to_int n) as [d|d]; [apply H|].
  apply whole_cons; [reflexivity|apply H].
Qed.

Lemma whole_padStart0 width s :
  splitOn "T" s = [s] -> splitOn "T" (padStart0 width s) = [padStart0 width s].
Proof.
  intros Hs. unfold padStart0.
  induction (width - String.length s)%nat as [|k IH]; [exact Hs|].
  cbn [zeros append]. apply whole_cons; [reflexivity|exact IH].
Qed.

Lemma whole_isoYear y : splitOn "T" (isoYear y) = [isoYear y].
Proof.
  unfold isoYear. destruct ((0 <=? y) && (y <=? 9999)).
  - apply whole_padStart0, whole_stringOfZ.
  - destruct (y <? 0); (apply whole_cons; [reflexivity|]);
      apply whole_padStart0, whole_stringOfZ.
Qed.

(** The day of a time value as [toISOString] prints it. *)
Lemma datePart_isoString t :
  datePart (isoString t)
  = isoYear (YearFromTime t) ++ "-" ++ padStart0 2 (stringOfZ (MonthFromTime t + 1))
      ++ "-" ++ padStart0 2 (stringOfZ (DateFromTime t)).
Proof.
  unfold datePart, isoString. cbv zeta.
  pose proof (whole_isoYear (YearFromTime t)) as HY.
  pose proof (whole_padStart0 2 _ (whole_stringOfZ (MonthFromTime t + 1))) as HM.
  pose proof (whole_padStart0 2 _ (whole_stringOfZ (DateFromTime t))) as HD.
  set (Y := isoYear (YearFromTime t)) in *.
  set (M := padStart0 2 (stringOfZ (MonthFromTime t + 1))) in *.
  set (D := padStart0 2 (stringOfZ (DateFromTime t))) in *.
  set (rest := padStart0 2 (stringOfZ (TimeWithinDay t / 3600000)) ++ _).
  assert (Hw : splitOn "T" (Y ++ "-" ++ M ++ "-" ++ D) = [Y ++ "-" ++ M ++ "-" ++ D]).
  { apply whole_app; [exact HY|].
    apply (whole_cons "T" "-" _ eq_refl).
    apply whole_app; [exact HM|].
    apply (whole_cons "T" "-" _ eq_refl). exact HD. }
  replace (Y ++ "-" ++ M ++ "-" ++ D ++ "T" ++ rest)
    with ((Y ++ "-" ++ M ++ "-" ++ D) ++ String "T" rest).
  - rewrite (splitOn_head "T" _ rest Hw). reflexivity.
  - rewrite !append_assoc. reflexivity.
Qed.

(** The decimal numeral of a number below [10 ^ n] has at most [n]
    digits. *)
Lemma of_lu_bound d :
  (DecimalPos.Unsigned.of_lu d < 10 ^ N.of_nat (Decimal.nb_digits d))%N.
Proof.
  induction d as [|d IH|d IH|d IH|d IH|d IH|d IH|d IH|d IH|d IH|d IH];
    cbn [DecimalPos.Unsigned.of_lu Decimal.nb_digits]; [reflexivity| | | | | | | | | |];
    (replace (N.of_nat (S (Decimal.nb_digits d))) with (N.succ (N.of_nat (Decimal.nb_digits d)))
       by lia;
     rewrite N.pow_succ_r'; lia).
Qed.

Lemma length_string_of_uint d :
  String.length (NilEmpty.string_of_uint d) = Decimal.nb_digits d.
Proof.
  induction d; cbn [NilEmpty.string_of_uint Decimal.nb_digits String.length];
    congruence.
Qed.

Lemma stringOfZ_length y : 1000 <= y -> (4 <= String.length (stringOfZ y))%nat.
Proof.
  destruct y as [|p|p]; try lia. intros Hy.
  unfold stringOfZ. cbn [Z.to_int NilZero.string_of_int].
  pose proof (DecimalPos.Unsigned.to_uint_nonnil p) as Hnn.
  pose proof (DecimalPos.Unsigned.of_to p) as Hof.
  rewrite DecimalPos.Unsigned.of_uint_alt in Hof.
  pose proof (of_lu_bound (Decimal.rev (Pos.to_uint p))) as Hb.
  rewrite Hof, DecimalFacts.nb_digits_rev in Hb.
  set (d := Pos.to_uint p) in *.
  replace (NilZero.string_of_uint d) with (NilEmpty.string_of_uint d)
    by (destruct d; [contradiction|reflexivity..]).
  rewrite length_string_of_uint.
  destruct (Nat.le_gt_cases 4 (Decimal.nb_digits d)) as [H|H]; [exact H|exfalso].
  assert (Hpow : (10 ^ N.of_nat (Decimal.nb_digits d) <= 10 ^ 3)%N)
    by (apply N.pow_le_mono_r; lia).
  change (10 ^ 3)%N with 1000%N in Hpow. lia.
Qed.

(** From 1000 to 9999 a year is printed by [String] as it is in the ISO
    format, with four digits. *)
Lemma isoYear_four_digits y : 1000 <= y <= 9999 -> isoYear y = stringOfZ y.
Proof.
  intros Hy. unfold isoYear.
  replace ((0 <=? y) && (y <=? 9999)) with true
    by (symmetry; apply andb_true_intro; split; apply Z.leb_le; lia).
  unfold padStart0.
  replace (4 - String.length (stringOfZ y))%nat with 0%nat
    by (pose proof (stringOfZ_length y ltac:(lia)); lia).
  reflexivity.
Qed.

Lemma dayKey_datePart t :
  1000 <= YearFromTime t <= 9999 -> dayKey t = datePart (isoString t).
Proof.
  intros Hy. rewrite datePart_isoString. unfold dayKey.
  rewrite (isoYear_four_digits _ Hy). reflexivity.
Qed.

End Dates.

(* ================================================================== *)
(** * The weeks of the weekly map *)

Module Weeks.

Lemma mapSet_In {V} (m : list (string * V)) k v kv :
  In kv (mapSet m k v) -> kv = (k, v) \/ In kv m.
Proof.
  induction m as [|[k0 v0] m IH]; cbn [mapSet].
  - intros [<-|[]]. left. reflexivity.
  - destruct (String.eqb k0 k) eqn:E.
    + apply String.eqb_eq in E. subst k0.
      intros [<-|H]; [left; reflexivity|right; right; exact H].
    + intros [<-|H]; [right; left; reflexivity|].
      destruct (IH H) as [->|H']; [left; reflexivity|right; right; exact H'].
Qed.

Lemma mapGet_In {V} (m : list (string * V)) k v : mapGet m k = Some v -> In (k, v) m.
Proof.
  induction m as [|[k0 v0] m IH]; cbn [mapGet]; [discriminate|].
  destruct (String.eqb k0 k) eqn:E.
  - apply String.eqb_eq in E. subst k0. intros [= <-]. left. reflexivity.
  - intros H. right. apply IH. exact H.
Qed.

Lemma startsWeek_app h rows more key start :
  startsWeek h rows key start -> startsWeek h (rows ++ more) key start.
Proof.
  intros [before [t [a [after [-> [Hk [Hfirst Hws]]]]]]].
  exists before, t, a, (after ++ more)%list.
  rewrite <- app_assoc.
  split; [reflexivity|]. split; [exact Hk|]. split; [exact Hfirst|exact Hws].
Qed.

Lemma startsWeek_new h rows t a key start :
  weekKeyOf h t = key ->
  ~ In key (map fst (weekRows h rows)) ->
  getWeekStart h (Some t) = Some start ->
  startsWeek h (rows ++ [(t, a)]) key start.
Proof.
  intros Hk Hnew Hws. exists rows, t, a, [].
  split; [reflexivity|]. split; [exact Hk|]. split; [|exact Hws].
  intros row Hrow E. apply Hnew. unfold weekRows. rewrite map_map.
  apply in_map_iff. exists row. split; [exact E|exact Hrow].
Qed.

(** The start date of a week of the map is the week start of the first of
    the rows accumulated so far that has the key of the week. *)
Lemma processLines_weekStarts h cols lines : forall st st' rows,
  aggregates h rows st ->
  processLines h cols st lines = Ok st' ->
  (forall key wd, In (key, wd) (weeklyMap st) ->
     startsWeek h rows key (startDate wd)) ->
  forall key wd, In (key, wd) (weeklyMap st') ->
    startsWeek h (rows ++ keptRows h cols lines) key (startDate wd).
Proof.
  induction lines as [|l lines IH]; intros st st' rows Hagg Hrun Hst key wd Hin;
    cbn [processLines] in Hrun.
  - injection Hrun as <-. apply startsWeek_app, Hst. exact Hin.
  - destruct (processLine h cols st l) as [st1|e] eqn:Hstep; [|discriminate].
    cbn [bind] in Hrun. rewrite keptRows_cons, app_assoc.
    destruct (processLine_Ok h _ _ _ _ Hstep) as [[Hk ->]|[t [desc [a [_ [Hk [Ha Hacc]]]]]]];
      rewrite Hk.
    + rewrite app_nil_r. apply (IH st st' rows Hagg Hrun Hst). exact Hin.
    + apply (IH st1 st' _ (accumulate_aggregates h _ _ _ _ _ _ Hagg Ha Hacc) Hrun);
        [|exact Hin].
      clear key wd Hin. intros key wd Hin.
      destruct (accumulate_Ok h _ _ _ _ _ Hacc) as [t' [ws [Ht [Hws E]]]].
      injection Ht as <-. rewrite E in Hin. cbn [weeklyMap] in Hin.
      apply mapSet_In in Hin. destruct Hin as [Hnew|Hin].
      * injection Hnew as -> ->. cbn [startDate].
        destruct (mapGet (weeklyMap st) (weekKeyOf h t)) as [wd|] eqn:Hget.
        -- apply mapGet_In in Hget. apply startsWeek_app.
           apply (Hst _ _ Hget).
        -- apply startsWeek_new; [reflexivity| |exact Hws].
           rewrite <- (holds_keys _ _ (agg_weekly _ _ _ Hagg)), map_map.
           cbn [fst]. apply mapGet_None. exact Hget.
      * apply startsWeek_app, (Hst _ _ Hin).
Qed.

End Weeks.

(* ================================================================== *)
(** * Further properties of the code *)

Import StrFacts Fields Headers Rows Order NumMore Dates Weeks.

(** [parseCSV] returns the assembled state of a run of the loop over data
    rows of the text: all of them, or none when it returns early. *)
Lemma parseCSV_run h csvContent r :
  parseCSV h csvContent = Ok r ->
  exists st lines,
    processLines h (columnsOf csvContent) initialState lines = Ok st
    /\ survivors h csvContent = keptRows h (columnsOf csvContent) lines
    /\ incl lines (dataLines csvContent)
    /\ r = assemble h st.
Proof.
  unfold parseCSV, survivors, columnsOf, dataLines.
  destruct (contentLines csvContent) as [|header rows]; cbn [hd tl].
  - intros [= <-]. exists initialState, [].
    split; [reflexivity|]. split; [destruct (_ || _); reflexivity|].
    split; [apply incl_refl|reflexivity].
  - rewrite parseLines_cons. cbv zeta.
    destruct (_ || _).
    + intros [= <-]. exists initialState, [].
      split; [reflexivity|]. split; [reflexivity|].
      split; [intros x []|reflexivity].
    + destruct (processLines h _ initialState rows) as [st|e] eqn:Hrun; [|discriminate].
      cbn [bind]. intros [= <-]. exists st, rows.
      split; [exact Hrun|]. split; [reflexivity|]. split; [apply incl_refl|reflexivity].
Qed.

(** ** The field tokenizer *)

(** X1. [parseCSVLine] returns at least one field, and every field it
    returns is trimmed: trimming it again changes nothing. *)
Theorem tokenizer_fields_are_trimmed line :
  parseCSVLine line <> []
  /\ forall field, In field (parseCSVLine line) -> trim field = field.
Proof.
  destruct (scan_fields line EmptyString false [] (Forall_nil _)) as [Hall Hne].
  split; [exact Hne|]. rewrite Forall_forall in Hall. exact Hall.
Qed.

(** X2. A line without a double quote is cut at its commas, and each piece
    is trimmed: [parseCSVLine] is then [split(',')] followed by [trim]. *)
Theorem unquoted_line_is_split_at_commas line :
  includes line (String quoteChar EmptyString) = false ->
  parseCSVLine line = map trim (splitOn commaChar line).
Proof.
  intros Hq. unfold parseCSVLine. rewrite (scan_unquoted line EmptyString [] Hq).
  cbn [app append]. destruct (splitOn commaChar line); reflexivity.
Qed.

Lemma unquoted_line_is_split_at_commas_witness :
  parseCSVLine "2024-01-05, Coffee ,-4.50" = map trim (splitOn commaChar "2024-01-05, Coffee ,-4.50").
Proof.
  apply (unquoted_line_is_split_at_commas "2024-01-05, Coffee ,-4.50").
  vm_compute. reflexivity.
Defined.

(** X3. White space around a line does not change its fields: the header
    line, which [parseCSV] does not trim, is read as if it were. *)
Theorem tokenizer_ignores_outer_white_space line :
  parseCSVLine (trim line) = parseCSVLine line.
Proof. apply parseCSVLine_trim. Qed.

(** X4. A record written by the reference writer (every field quoted,
    quotes doubled, commas between the fields) is read back field by field,
    each field trimmed: the commas and quotes inside a field do not cut the
    record. *)
Theorem written_record_is_read_back first others :
  parseCSVLine (writeRecord first others) = map trim (first :: others)
  /\ List.length (parseCSVLine (writeRecord first others)) = S (List.length others).
Proof.
  assert (H : parseCSVLine (writeRecord first others) = map trim (first :: others))
    by apply (Tokenizer.scan_record first others []).
  split; [exact H|]. rewrite H, length_map. reflexivity.
Qed.

(** ** The header resolver *)

(** X5. [findColumnIndex] returns [-1] exactly when no header contains a
    pattern; otherwise it returns the position of the first header that
    contains one, which is a valid index into the headers. *)
Theorem column_index_is_first_match headers patterns :
  (findColumnIndex headers patterns = -1
   /\ forall header, In header headers -> headerMatches patterns header = false)
  \/ (exists n header,
        findColumnIndex headers patterns = Z.of_nat n
        /\ (n < List.length headers)%nat
        /\ nth_error headers n = Some header
        /\ headerMatches patterns header = true
        /\ forall j other, (j < n)%nat -> nth_error headers j = Some other ->
                           headerMatches patterns other = false).
Proof.
  rewrite Resolver.findColumnIndex_findIndex. unfold findIndex.
  destruct (findIndex_from_spec (headerMatches patterns) headers 0)
    as [[E Hnone]|[n [x [E [Hn [Hx Hbefore]]]]]].
  - left. split; assumption.
  - right. exists n, x. split; [rewrite E; lia|].
    split; [apply nth_error_Some; rewrite Hn; discriminate|].
    split; [exact Hn|]. split; [exact Hx|exact Hbefore].
Qed.

(** X6. The column found depends on the headers only through their
    lower-cased, trimmed form: letter case and white space around a header
    do not matter. *)
Theorem column_index_ignores_case_and_outer_space headers headers' patterns :
  map normalizeHeader headers = map normalizeHeader headers' ->
  findColumnIndex headers patterns = findColumnIndex headers' patterns.
Proof.
  intros H. rewrite !Resolver.findColumnIndex_findIndex.
  apply findIndex_from_normalized. exact H.
Qed.

Lemma column_index_ignores_case_and_outer_space_witness :
  findColumnIndex ["Memo"; " POSTED Date "; "Amount"] datePatterns
  = findColumnIndex ["memo"; "posted date"; "amount"] datePatterns.
Proof.
  apply (column_index_ignores_case_and_outer_space
           ["Memo"; " POSTED Date "; "Amount"] ["memo"; "posted date"; "amount"]).
  vm_compute. reflexivity.
Defined.

(** X7. Some synonyms are redundant, since a header that contains
    [transaction date] or [posted date] contains [date]: the date column is
    the first header that contains [date] or [posted], and the type column
    found by the synonyms is the first header that contains [type],
    [debit/credit] or [dr/cr]. *)
Theorem redundant_synonyms headers :
  findColumnIndex headers datePatterns = findColumnIndex headers ["date"; "posted"]
  /\ findColumnIndex headers typePatterns
     = findColumnIndex headers ["type"; "debit/credit"; "dr/cr"].
Proof.
  rewrite !Resolver.findColumnIndex_findIndex. unfold findIndex. split.
  - apply Resolver.findIndex_from_ext. exact headerMatches_date.
  - apply Resolver.findIndex_from_ext. exact headerMatches_type.
Qed.

(** ** The week start *)

(** X8. On every host [getWeekStart] moves the local time back by whole
    days, none on a local Monday and six on a local Sunday, also across the
    start of a month or of a year; the result is the invalid date when it
    leaves the range of time values. *)
Theorem week_start_is_a_day_shift h t :
  let k := (getDay h t + 6) mod 7 in
  0 <= k <= 6
  /\ (k = 0 <-> getDay h t = 1)
  /\ (k = 6 <-> getDay h t = 0)
  /\ getWeekStart h (Some t) = TimeClip (UTC h (LocalTime h t - k * msPerDay)).
Proof.
  intros k.
  assert (Hd : 0 <= getDay h t < 7)
    by (unfold getDay, WeekDay; apply Z.mod_pos_bound; lia).
  split; [subst k; Z.div_mod_to_equations; lia|].
  split; [subst k; Z.div_mod_to_equations; lia|].
  split; [subst k; Z.div_mod_to_equations; lia|].
  rewrite getWeekStart_shift, TimeClip_idempotent. reflexivity.
Qed.

(** X9. On a host at a fixed offset from UTC a week start is a Monday of
    the local calendar, at the local time of day of the date and at most six
    days before it, and it is its own week start. *)
Theorem week_start_is_local_monday h offset t ws :
  (forall u b, LocalTZA h u b = offset) ->
  getWeekStart h (Some t) = Some ws ->
  getDay h ws = 1
  /\ TimeWithinDay (LocalTime h ws) = TimeWithinDay (LocalTime h t)
  /\ 0 <= Day (LocalTime h t) - Day (LocalTime h ws) <= 6
  /\ getWeekStart h (Some ws) = Some ws.
Proof.
  intros Hoff Hws.
  rewrite (getWeekStart_fixed_offset h offset t Hoff) in Hws.
  set (k := (WeekDay (t + offset) + 6) mod 7) in *.
  assert (Hk : 0 <= k < 7) by (subst k; apply Z.mod_pos_bound; lia).
  unfold TimeClip in Hws.
  destruct ((- maxTime <=? t - k * msPerDay) && (t - k * msPerDay <=? maxTime)) eqn:Hrange;
    [|discriminate].
  injection Hws as Hws.
  assert (Hlocal : LocalTime h ws = LocalTime h t + (- k) * msPerDay)
    by (unfold LocalTime; rewrite !Hoff; lia).
  assert (Hday : Day (LocalTime h ws) = Day (LocalTime h t) - k).
  { rewrite Hlocal. unfold Day. rewrite Z.div_add by discriminate. lia. }
  assert (Hmon : getDay h ws = 1).
  { unfold getDay, WeekDay. rewrite Hday.
    subst k. unfold WeekDay, LocalTime. rewrite Hoff.
    Z.div_mod_to_equations. lia. }
  split; [exact Hmon|].
  split; [rewrite Hlocal; unfold TimeWithinDay; apply Z.mod_add; discriminate|].
  split; [rewrite Hday; lia|].
  rewrite (getWeekStart_fixed_offset h offset ws Hoff).
  unfold getDay, LocalTime in Hmon. rewrite Hoff in Hmon. rewrite Hmon.
  change ((1 + 6) mod 7) with 0. rewrite Z.mul_0_l, Z.sub_0_r.
  unfold TimeClip. rewrite <- Hws, Hrange. reflexivity.
Qed.

Lemma week_start_is_local_monday_witness :
  getDay Reference.west5 1709596800000 = 1
  /\ TimeWithinDay (LocalTime Reference.west5 1709596800000)
     = TimeWithinDay (LocalTime Reference.west5 1710028800000)
  /\ 0 <= Day (LocalTime Reference.west5 1710028800000)
          - Day (LocalTime Reference.west5 1709596800000) <= 6
  /\ getWeekStart Reference.west5 (Some 1709596800000) = Some 1709596800000.
Proof.
  apply (week_start_is_local_monday Reference.west5 (-18000000) 1710028800000).
  - intros u b. reflexivity.
  - vm_compute. reflexivity.
Defined.

(** ** Exceptions *)

Lemma normalizeRow_Keep_None h cols row desc a :
  normalizeRow h cols row = Keep None desc a -> newDateNow h = None.
Proof.
  unfold normalizeRow.
  destruct (checkRow cols row) as [[[dateStr desc'] a']|]; [|discriminate].
  destruct (nonEmpty dateStr).
  - destruct (newDateParse h dateStr); discriminate.
  - intros [= -> _ _]. reflexivity.
Qed.

(** X10. The only exception that [parseCSV] raises is the RangeError of
    [toISOString], and it raises it only for a kept row whose date is
    invalid (the clock, read for an empty date field, is out of range) or
    whose week start is invalid. *)
Theorem only_an_invalid_date_throws h csvContent e :
  parseCSV h csvContent = Throw e ->
  e = RangeError "Invalid time value"
  /\ exists row d desc a,
       In row (dataLines csvContent)
       /\ normalizeRow h (columnsOf csvContent) row = Keep d desc a
       /\ ((d = None /\ newDateNow h = None) \/ getWeekStart h d = None).
Proof.
  unfold parseCSV, dataLines, columnsOf.
  destruct (contentLines csvContent) as [|header rows]; [discriminate|].
  rewrite parseLines_cons. cbv zeta. cbn [hd tl].
  destruct (_ || _); [discriminate|].
  destruct (processLines h _ initialState rows) as [st|e'] eqn:Hrun; cbn [bind];
    [discriminate|].
  intros [= <-].
  destruct (processLines_Throw h _ rows initialState e' Hrun)
    as [He [row [d [desc [a [Hin [Hn Hd]]]]]]].
  split; [exact He|]. exists row, d, desc, a.
  split; [exact Hin|]. split; [exact Hn|].
  destruct Hd as [->|Hd]; [left|right; exact Hd].
  split; [reflexivity|apply (normalizeRow_Keep_None h _ row desc a Hn)].
Qed.

Lemma only_an_invalid_date_throws_witness :
  RangeError "Invalid time value" = RangeError "Invalid time value"
  /\ exists row d desc a,
       In row (dataLines earliestDateInput)
       /\ normalizeRow Reference.utc (columnsOf earliestDateInput) row = Keep d desc a
       /\ ((d = None /\ newDateNow Reference.utc = None)
           \/ getWeekStart Reference.utc d = None).
Proof.
  apply (only_an_invalid_date_throws Reference.utc earliestDateInput).
  vm_compute. reflexivity.
Defined.

(** X11. On a host whose local offset is at most a day, [parseCSV] raises
    no exception when the date of every kept row lies at least eight days
    after the earliest and two days before the latest time value. *)
Theorem no_exception_inside_the_date_range h csvContent :
  (forall u b, - msPerDay <= LocalTZA h u b <= msPerDay) ->
  (forall row d desc a,
     In row (dataLines csvContent) ->
     normalizeRow h (columnsOf csvContent) row = Keep d desc a ->
     exists t, d = Some t
               /\ - maxTime + 8 * msPerDay <= t <= maxTime - 2 * msPerDay) ->
  exists r, parseCSV h csvContent = Ok r.
Proof.
  intros Hoff Hrows. unfold parseCSV.
  unfold dataLines, columnsOf in Hrows.
  destruct (contentLines csvContent) as [|header rows];
    [exists emptyResult; reflexivity|].
  cbn [hd tl] in Hrows. rewrite parseLines_cons. cbv zeta.
  destruct (_ || _); [exists emptyResult; reflexivity|].
  destruct (processLines_succeeds h (resolveColumns (parseCSVLine header)) rows)
    with (st := initialState) as [st Hst].
  - intros row d desc a Hin Hn.
    destruct (Hrows row d desc a Hin Hn) as [t [Hd Ht]].
    destruct (getWeekStart_valid h t Hoff Ht) as [ws Hws].
    exists t, ws. split; [exact Hd|]. rewrite Hd. exact Hws.
  - rewrite Hst. cbn [bind]. eexists. reflexivity.
Qed.

Lemma no_exception_inside_the_date_range_witness :
  exists r, parseCSV Reference.utc scenarioA = Ok r.
Proof.
  apply (no_exception_inside_the_date_range Reference.utc scenarioA).
  - intros u b. cbn. unfold msPerDay. lia.
  - intros row d desc a Hin.
    change (dataLines scenarioA)
      with ["2024-01-05,Coffee,-4.50"; "2024-01-20,Rent,1200.00"] in Hin.
    destruct Hin as [<-|[<-|[]]]; intros Hn; vm_compute in Hn;
      injection Hn as <- _ _;
      eexists; (split; [reflexivity|unfold maxTime, msPerDay; lia]).
Defined.

(** ** Rows *)

Lemma checkRow_date cols row dateStr desc a :
  checkRow cols row = Some (dateStr, desc, a) ->
  dateStr = fieldAt (parseCSVLine (trim row)) (dateColIndex cols).
Proof.
  unfold checkRow.
  destruct (negb (nonEmpty (trim row))); [discriminate|].
  destruct (Z.of_nat _ <=? _); [discriminate|].
  destruct (isNaN (parseAmount _)); [discriminate|].
  destruct (_ && _); [discriminate|].
  intros [= <- _ _]. reflexivity.
Qed.

(** X12. A data row with too few fields, or whose amount does not parse, or
    whose date field is not empty and does not parse, changes no output: the
    result is that of the text without the row. *)
Theorem malformed_rows_are_skipped h header pre row post csvContent csvContent' :
  let cols := resolveColumns (parseCSVLine header) in
  let fields := parseCSVLine (trim row) in
  Z.of_nat (List.length fields) <= Z.max (dateColIndex cols) (amountColIndex cols)
  \/ isNaN (parseAmount (fieldAt fields (amountColIndex cols))) = true
  \/ (nonEmpty (fieldAt fields (dateColIndex cols)) = true
      /\ newDateParse h (fieldAt fields (dateColIndex cols)) = None) ->
  contentLines csvContent = header :: (pre ++ row :: post)%list ->
  contentLines csvContent' = header :: (pre ++ post)%list ->
  parseCSV h csvContent = parseCSV h csvContent'.
Proof.
  intros cols fields Hbad. apply parseCSV_skip. fold cols.
  intros st. unfold processLine, normalizeRow.
  destruct (checkRow cols row) as [[[dateStr desc] a]|] eqn:Hc; [|reflexivity].
  pose proof (checkRow_date cols row dateStr desc a Hc) as Hdate. fold fields in Hdate.
  unfold checkRow in Hc. fold fields in Hc.
  destruct (negb (nonEmpty (trim row))); [discriminate|].
  destruct Hbad as [Hlen|[Hnan|[Hne Hparse]]].
  - apply Z.leb_le in Hlen. rewrite Hlen in Hc. discriminate.
  - destruct (Z.of_nat _ <=? _); [discriminate|]. rewrite Hnan in Hc. discriminate.
  - rewrite Hdate, Hne, Hparse. reflexivity.
Qed.

Lemma malformed_rows_are_skipped_witness :
  parseCSV Reference.utc
    ("Date,Amount" ++ nl ++ "2024-01-05" ++ nl ++ "2024-01-06,3" ++ nl
       ++ "2024-01-07,abc" ++ nl ++ "someday,4")
  = parseCSV Reference.utc ("Date,Amount" ++ nl ++ "2024-01-06,3").
Proof.
  transitivity (parseCSV Reference.utc
                  ("Date,Amount" ++ nl ++ "2024-01-06,3" ++ nl
                     ++ "2024-01-07,abc" ++ nl ++ "someday,4")).
  { apply (malformed_rows_are_skipped Reference.utc "Date,Amount" []
             "2024-01-05" ["2024-01-06,3"; "2024-01-07,abc"; "someday,4"]).
    - left. vm_compute. discriminate.
    - vm_compute. reflexivity.
    - vm_compute. reflexivity. }
  transitivity (parseCSV Reference.utc
                  ("Date,Amount" ++ nl ++ "2024-01-06,3" ++ nl ++ "someday,4")).
  { apply (malformed_rows_are_skipped Reference.utc "Date,Amount" ["2024-01-06,3"]
             "2024-01-07,abc" ["someday,4"]).
    - right. left. vm_compute. reflexivity.
    - vm_compute. reflexivity.
    - vm_compute. reflexivity. }
  apply (malformed_rows_are_skipped Reference.utc "Date,Amount" ["2024-01-06,3"]
           "someday,4" []).
  - right. right. split; vm_compute; reflexivity.
  - vm_compute. reflexivity.
  - vm_compute. reflexivity.
Defined.

(** X13. [parseCSV] reads a text through its lines that are not blank,
    each trimmed: blank lines, white space around a line and a carriage
    return before the line feed do not change the result. *)
Theorem lines_are_read_trimmed h csvContent csvContent' :
  map trim (contentLines csvContent) = map trim (contentLines csvContent') ->
  parseCSV h csvContent = parseCSV h csvContent'.
Proof.
  intros H. unfold parseCSV.
  rewrite <- (parseLines_trim h (contentLines csvContent)), H.
  apply parseLines_trim.
Qed.

Lemma lines_are_read_trimmed_witness :
  parseCSV Reference.utc
    (" Date,Amount" ++ String "013" nl ++ String "013" nl
       ++ "2024-01-05,3 " ++ String "013" nl)
  = parseCSV Reference.utc ("Date,Amount" ++ nl ++ "2024-01-05,3").
Proof.
  apply (lines_are_read_trimmed Reference.utc). vm_compute. reflexivity.
Defined.

(** X14. The transactions are stored in input order, and rows added at the
    end of a text leave the earlier ones as they were: if the longer text
    is parsed without exception, so is the shorter one, and its transactions
    are the first transactions of the longer one. *)
Theorem more_rows_extend_the_transactions h header rows more csvContent csvContent' r :
  contentLines csvContent = header :: rows ->
  contentLines csvContent' = header :: (rows ++ more)%list ->
  parseCSV h csvContent' = Ok r ->
  exists r' added,
    parseCSV h csvContent = Ok r'
    /\ transactions r = (transactions r' ++ added)%list.
Proof.
  intros Hl Hl'. unfold parseCSV. rewrite Hl, Hl', !parseLines_cons. cbv zeta.
  destruct (_ || _).
  - intros [= <-]. exists emptyResult, []. split; reflexivity.
  - rewrite processLines_app.
    destruct (processLines h _ initialState rows) as [st1|e]; [|discriminate].
    cbn [bind].
    destruct (processLines h _ st1 more) as [st|e] eqn:Hmore; [|discriminate].
    cbn [bind]. intros [= <-].
    destruct (processLines_transactions h _ more st1 st Hmore) as [added Hadded].
    exists (assemble h st1), added. split; [reflexivity|].
    cbn [transactions assemble]. exact Hadded.
Qed.

Lemma more_rows_extend_the_transactions_witness :
  exists r r' added,
    parseCSV Reference.utc scenarioA = Ok r
    /\ parseCSV Reference.utc ("Date,Description,Amount" ++ nl ++ "2024-01-05,Coffee,-4.50")
       = Ok r'
    /\ transactions r = (transactions r' ++ added)%list.
Proof.
  destruct (more_rows_extend_the_transactions Reference.utc
              "Date,Description,Amount" ["2024-01-05,Coffee,-4.50"]
              ["2024-01-20,Rent,1200.00"]
              ("Date,Description,Amount" ++ nl ++ "2024-01-05,Coffee,-4.50")
              scenarioA
              (assemble Reference.utc
                 match processLines Reference.utc (columnsOf scenarioA) initialState
                         (dataLines scenarioA) with
                 | Ok st => st
                 | Throw _ => initialState
                 end))
    as [r' [added [H1 H2]]].
  - vm_compute. reflexivity.
  - vm_compute. reflexivity.
  - vm_compute. reflexivity.
  - eexists. exists r', added. split; [vm_compute; reflexivity|].
    split; [exact H1|exact H2].
Defined.

(** ** Counts *)

(** X15. [transactionCount] is the number of transactions, which is at most
    the number of data rows; a result without transactions is the empty
    result; and when there are transactions each of the monthly, daily and
    weekly lists has at least one entry and at most one per transaction. *)
Theorem counts_and_sizes h csvContent r :
  parseCSV h csvContent = Ok r ->
  transactionCount r = Z.of_nat (List.length (transactions r))
  /\ (List.length (transactions r) <= List.length (dataLines csvContent))%nat
  /\ (transactions r = [] -> r = emptyResult)
  /\ (transactions r <> [] ->
      (0 < List.length (monthlySpending r) <= List.length (transactions r))%nat
      /\ (0 < List.length (dailySpending r) <= List.length (transactions r))%nat
      /\ (0 < List.length (weeklySpending r) <= List.length (transactions r))%nat).
Proof.
  intros Hr.
  destruct (parseCSV_Ok h csvContent r Hr) as [st [Hagg ->]].
  destruct (assemble_buckets h _ st Hagg) as [Ham [Hmo [Hda Hwe]]].
  set (rows := survivors h csvContent) in *.
  assert (Hlen : List.length (transactions (assemble h st)) = List.length rows).
  { rewrite <- (length_map amount), Ham. apply length_map. }
  split; [reflexivity|].
  split.
  { rewrite Hlen. subst rows. unfold survivors.
    destruct (_ || _); [cbn; lia|apply keptRows_length]. }
  split.
  { intros Hnil. rewrite Hnil in Hlen.
    assert (E : rows = []) by (destruct rows; [reflexivity|discriminate]).
    rewrite E in Hagg. rewrite (aggregates_empty h st Hagg). apply assemble_initial. }
  intros Hne.
  assert (Hrows : rows <> []).
  { intros E. rewrite E in Hlen. apply Hne.
    destruct (transactions (assemble h st)); [reflexivity|discriminate]. }
  rewrite Hlen.
  apply Permutation_length in Hmo, Hda, Hwe. rewrite length_map in Hmo, Hda, Hwe.
  unfold MonthlySpending, DailySpending, WeeklySpending in *.
  rewrite Hmo, Hda, Hwe.
  assert (Hm : monthRows h rows <> []) by (destruct rows; [contradiction|discriminate]).
  assert (Hd : dayRows rows <> []) by (destruct rows; [contradiction|discriminate]).
  assert (Hw : weekRows h rows <> []) by (destruct rows; [contradiction|discriminate]).
  pose proof (bucketSums_length (monthRows h rows)) as [B1 B1'].
  pose proof (bucketSums_length (dayRows rows)) as [B2 B2'].
  pose proof (bucketSums_length (weekRows h rows)) as [B3 B3'].
  unfold monthRows in B1. unfold dayRows in B2. unfold weekRows in B3.
  rewrite length_map in B1, B2, B3.
  specialize (B1' Hm). specialize (B2' Hd). specialize (B3' Hw).
  repeat split; assumption.
Qed.

Lemma counts_and_sizes_witness :
  exists r, parseCSV Reference.utc scenarioE = Ok r
    /\ transactionCount r = Z.of_nat (List.length (transactions r))
    /\ (List.length (transactions r) <= List.length (dataLines scenarioE))%nat
    /\ (transactions r = [] -> r = emptyResult)
    /\ (transactions r <> [] ->
        (0 < List.length (monthlySpending r) <= List.length (transactions r))%nat
        /\ (0 < List.length (dailySpending r) <= List.length (transactions r))%nat
        /\ (0 < List.length (weeklySpending r) <= List.length (transactions r))%nat).
Proof.
  eexists. split; [vm_compute; reflexivity|].
  apply (counts_and_sizes Reference.utc scenarioE). vm_compute. reflexivity.
Defined.

(** ** Amounts *)

(** X16. [totalSpending] is a number that is at least zero: it is never
    NaN and never negative. *)
Theorem total_is_non_negative h csvContent r :
  parseCSV h csvContent = Ok r ->
  isNaN (totalSpending r) = false /\ leb zero (totalSpending r) = true.
Proof.
  intros Hr. destruct (parseCSV_Ok h csvContent r Hr) as [st [Hagg ->]].
  cbn [totalSpending assemble]. rewrite (agg_total _ _ _ Hagg).
  assert (H : nonNegative (roundToCents (sumOf (map snd (survivors h csvContent)))) = true).
  { apply roundToCents_nonNegative, sumOf_nonNegative, Forall_map.
    exact (agg_nonNegative _ _ _ Hagg). }
  split; [|apply leb_zero; exact H].
  destruct (roundToCents _); try reflexivity; discriminate.
Qed.

Lemma total_is_non_negative_witness :
  exists r, parseCSV Reference.utc signedAmountsInput = Ok r
    /\ isNaN (totalSpending r) = false /\ leb zero (totalSpending r) = true.
Proof.
  eexists. split; [vm_compute; reflexivity|].
  apply (total_is_non_negative Reference.utc signedAmountsInput). vm_compute. reflexivity.
Defined.

Lemma amount_head c :
  digitVal c <> None \/ c = "."%char ->
  isWhiteSpace c = false /\ isDollarOrComma c = false
  /\ c <> "-"%char /\ c <> "+"%char.
Proof.
  intros H.
  destruct c as [[] [] [] [] [] [] [] []];
    first [ repeat split; (reflexivity || discriminate)
          | exfalso; destruct H as [H|H]; [apply H; reflexivity|discriminate] ].
Qed.

(** X17. For an amount field that starts with a digit or a decimal point,
    a minus sign in front of it does not change the amount that is stored,
    and a plus sign or a dollar sign in front of it does not change the
    number that is read. *)
Theorem sign_of_amount_is_dropped c rest :
  digitVal c <> None \/ c = "."%char ->
  abs (parseAmount (String "-" (String c rest))) = abs (parseAmount (String c rest))
  /\ parseAmount (String "+" (String c rest)) = parseAmount (String c rest)
  /\ parseAmount (String "$" (String c rest)) = parseAmount (String c rest).
Proof.
  intros Hc. destruct (amount_head c Hc) as [Hws [Hdc [Hminus Hplus]]].
  unfold parseAmount.
  change (removeChars isDollarOrComma (String "$" (String c rest)))
    with (removeChars isDollarOrComma (String c rest)).
  split; [|split; [|reflexivity]].
  - cbn [removeChars]. change (isDollarOrComma "-") with false. rewrite Hdc. cbv iota.
    unfold trim. cbn [trimStart]. change (isWhiteSpace "-") with false. rewrite Hws.
    cbv iota. rewrite (trimEnd_cons "-" _ eq_refl), !(trimEnd_cons c _ Hws).
    apply (parseFloat_signed c _ Hws Hminus Hplus).
  - cbn [removeChars]. change (isDollarOrComma "+") with false. rewrite Hdc. cbv iota.
    unfold trim. cbn [trimStart]. change (isWhiteSpace "+") with false. rewrite Hws.
    cbv iota. rewrite (trimEnd_cons "+" _ eq_refl), !(trimEnd_cons c _ Hws).
    apply (parseFloat_signed c _ Hws Hminus Hplus).
Qed.

Lemma sign_of_amount_is_dropped_witness :
  abs (parseAmount "-1,234.56") = abs (parseAmount "1,234.56")
  /\ parseAmount "+1,234.56" = parseAmount "1,234.56"
  /\ parseAmount "$1,234.56" = parseAmount "1,234.56".
Proof.
  apply (sign_of_amount_is_dropped "1" ",234.56"). left. vm_compute. discriminate.
Defined.

(** ** The order of the lists *)

(** X18. [dailySpending] has one entry for each distinct day key of the
    kept rows, in ascending order of the keys; the entry of a key carries
    the label of the key and the sum of the amounts of its rows. *)
Theorem daily_entries_in_day_order h csvContent r :
  parseCSV h csvContent = Ok r ->
  exists keys,
    StronglySorted (fun a b => compareStr a b = Lt) keys
    /\ (forall k, In k keys <-> In k (map fst (dayRows (survivors h csvContent))))
    /\ dailySpending r
       = map (fun k => {| name := dayLabel h k;
                          spending := bucket (dayRows (survivors h csvContent)) k |})
             keys.
Proof.
  intros Hr. destruct (parseCSV_Ok h csvContent r Hr) as [st [Hagg ->]].
  pose proof (agg_daily _ _ _ Hagg) as Hd.
  set (rows := dayRows (survivors h csvContent)) in *.
  set (m := dailyMap st) in *.
  set (gt := fun a b : string * number =>
               match compareStr (fst a) (fst b) with Gt => true | _ => false end).
  set (sorted := sortBy gt m).
  assert (Hperm : Permutation sorted m) by apply sortBy_Permutation.
  assert (Hsorted : StronglySorted (fun a b => compareStr (fst a) (fst b) <> Gt) sorted).
  { apply sortBy_sorted.
    - intros a b c. apply (compareStr_trans (fst a) (fst b) (fst c)).
    - intros a b _ _. unfold gt. rewrite (compareStr_antisym (fst a) (fst b)).
      destruct (compareStr (fst a) (fst b)); cbn [CompOpp]; congruence.
    - intros a b _ _. unfold gt.
      destruct (compareStr (fst a) (fst b)); congruence. }
  exists (map fst sorted). split; [|split].
  - apply (StronglySorted_strict (fun a b => compareStr a b <> Gt)).
    + intros a b Hle Hne. destruct (compareStr a b) eqn:E; [|reflexivity|congruence].
      exfalso. apply Hne. apply compareStr_eq. exact E.
    + apply StronglySorted_map. exact Hsorted.
    + apply (Permutation_NoDup (l := map fst m));
        [symmetry; apply Permutation_map; exact Hperm|apply (holds_NoDup _ _ Hd)].
  - intros k. rewrite <- (holds_keys _ _ Hd k). split; intros Hk.
    + apply (Permutation_in _ (Permutation_map fst Hperm)). exact Hk.
    + apply (Permutation_in _ (Permutation_sym (Permutation_map fst Hperm))). exact Hk.
  - cbn [dailySpending assemble]. unfold assembleDaily. fold m.
    rewrite (sortBy_map (fun kv : string * number => (fst kv, (dayLabel h (fst kv), snd kv)))
               gt _ m) by reflexivity.
    fold sorted. rewrite !map_map. cbn [fst snd].
    apply map_ext_in. intros [k v] Hin. cbn [fst snd]. f_equal.
    apply (holds_value _ _ Hd).
    apply mapGet_of_entry; [apply (holds_NoDup _ _ Hd)|].
    apply (Permutation_in _ Hperm). exact Hin.
Qed.

Lemma daily_entries_in_day_order_witness :
  exists r keys,
    parseCSV Reference.utc scenarioE = Ok r
    /\ StronglySorted (fun a b => compareStr a b = Lt) keys
    /\ (forall k, In k keys <-> In k (map fst (dayRows (survivors Reference.utc scenarioE))))
    /\ dailySpending r
       = map (fun k => {| name := dayLabel Reference.utc k;
                          spending := bucket (dayRows (survivors Reference.utc scenarioE)) k |})
             keys.
Proof.
  destruct (daily_entries_in_day_order Reference.utc scenarioE
              {| transactions :=
                   [{| date := "2024-03-04"; description := EmptyString; amount := ofZ 10 |};
                    {| date := "2024-03-10"; description := EmptyString; amount := ofZ 20 |}];
                 monthlySpending := [{| name := "March 2024"; spending := ofZ 30 |}];
                 dailySpending := [{| name := "Mar 4"; spending := ofZ 10 |};
                                   {| name := "Mar 10"; spending := ofZ 20 |}];
                 weeklySpending := [{| name := "Mar 4 - 10"; spending := ofZ 30 |}];
                 totalSpending := ofZ 30;
                 transactionCount := 2 |})
    as [keys H].
  - vm_compute. reflexivity.
  - eexists. exists keys. split; [vm_compute; reflexivity|exact H].
Defined.

(** X19. [weeklySpending] has one entry for each distinct week key of the
    kept rows, in ascending order of the start dates of the weeks; the
    entry of a week carries the label of the week and the sum of the
    amounts of the rows that have its key, and the start date of a week is
    the week start of the first kept row that has its key. *)
Theorem weekly_entries_in_week_order h csvContent r :
  parseCSV h csvContent = Ok r ->
  exists weeks : list (string * WeekData),
    NoDup (map fst weeks)
    /\ (forall key, In key (map fst weeks)
                    <-> In key (map fst (weekRows h (survivors h csvContent))))
    /\ StronglySorted (fun a b => startDate (snd a) <= startDate (snd b)) weeks
    /\ weeklySpending r
       = map (fun w => {| name := weekLabel h (snd w); spending := weekSpending (snd w) |})
             weeks
    /\ forall key wd, In (key, wd) weeks ->
         weekSpending wd = bucket (weekRows h (survivors h csvContent)) key
         /\ startsWeek h (survivors h csvContent) key (startDate wd).
Proof.
  intros Hr.
  destruct (parseCSV_run h csvContent r Hr) as [st [lines [Hrun [Hsurv [_ ->]]]]].
  pose proof (processLines_aggregates h _ lines [] initialState st
                (aggregates_initial h) Hrun) as Hagg.
  cbn [app] in Hagg. rewrite <- Hsurv in Hagg.
  pose proof (processLines_weekStarts h _ lines initialState st []
                (aggregates_initial h) Hrun ltac:(intros key wd [])) as Hstarts.
  cbn [app] in Hstarts. rewrite <- Hsurv in Hstarts.
  pose proof (agg_weekly _ _ _ Hagg) as Hwe.
  set (m := weeklyMap st) in *.
  set (gt := fun a b : string * WeekData => startDate (snd b) <? startDate (snd a)).
  set (weeks := sortBy gt m).
  assert (Hperm : Permutation weeks m) by apply sortBy_Permutation.
  assert (Hkeys : map fst (map (fun kv : string * WeekData => (fst kv, weekSpending (snd kv))) m)
                  = map fst m) by (rewrite map_map; reflexivity).
  exists weeks. split; [|split; [|split; [|split]]].
  - apply (Permutation_NoDup (Permutation_sym (Permutation_map fst Hperm))).
    rewrite <- Hkeys. apply (holds_NoDup _ _ Hwe).
  - intros key. rewrite <- (holds_keys _ _ Hwe key), Hkeys.
    split; intros H.
    + apply (Permutation_in _ (Permutation_map fst Hperm)). exact H.
    + apply (Permutation_in _ (Permutation_sym (Permutation_map fst Hperm))). exact H.
  - apply sortBy_sorted.
    + intros a b c. apply Z.le_trans.
    + intros a b _ _ H. unfold gt in H. apply Z.ltb_lt in H. lia.
    + intros a b _ _ H. unfold gt in H. apply Z.ltb_ge in H. exact H.
  - cbn [weeklySpending assemble]. unfold assembleWeekly. fold m.
    rewrite (sortBy_map (fun kv : string * WeekData =>
                           (startDate (snd kv), (weekLabel h (snd kv), weekSpending (snd kv))))
               gt _ m) by reflexivity.
    fold weeks. rewrite map_map. reflexivity.
  - intros key wd Hin. apply (Permutation_in _ Hperm) in Hin. split.
    + apply (holds_value _ _ Hwe). rewrite mapGet_map.
      rewrite (mapGet_of_entry m key wd); [reflexivity| |exact Hin].
      rewrite <- Hkeys. apply (holds_NoDup _ _ Hwe).
    + apply (Hstarts key wd). exact Hin.
Qed.

Lemma weekly_entries_in_week_order_witness :
  exists r weeks,
    parseCSV Reference.west5 scenarioE = Ok r
    /\ NoDup (map fst weeks)
    /\ (forall key, In key (map fst weeks)
          <-> In key (map fst (weekRows Reference.west5
                                        (survivors Reference.west5 scenarioE))))
    /\ StronglySorted (fun a b => startDate (snd a) <= startDate (snd b)) weeks
    /\ weeklySpending r
       = map (fun w => {| name := weekLabel Reference.west5 (snd w);
                          spending := weekSpending (snd w) |}) weeks
    /\ forall key wd, In (key, wd) weeks ->
         weekSpending wd
         = bucket (weekRows Reference.west5 (survivors Reference.west5 scenarioE)) key
         /\ startsWeek Reference.west5 (survivors Reference.west5 scenarioE) key
                       (startDate wd).
Proof.
  destruct (weekly_entries_in_week_order Reference.west5 scenarioE
              (assemble Reference.west5
                 match processLines Reference.west5 (columnsOf scenarioE) initialState
                         (dataLines scenarioE) with
                 | Ok st => st
                 | Throw _ => initialState
                 end))
    as [weeks H].
  - vm_compute. reflexivity.
  - eexists. exists weeks. split; [vm_compute; reflexivity|exact H].
Defined.

(** X20. When the host can parse the month labels that it prints,
    [monthlySpending] has one entry for each distinct month label of the
    kept rows, in ascending order of the dates that the labels parse to;
    the entry of a label carries the sum of the amounts of its rows. *)
Theorem monthly_entries_in_month_order h csvContent r :
  parseCSV h csvContent = Ok r ->
  (forall k, In k (map fst (monthRows h (survivors h csvContent))) ->
             newDateParse h k <> None) ->
  exists months,
    NoDup months
    /\ StronglySorted
         (fun a b => exists ta tb, newDateParse h a = Some ta
                                   /\ newDateParse h b = Some tb /\ ta <= tb) months
    /\ (forall k, In k months <-> In k (map fst (monthRows h (survivors h csvContent))))
    /\ monthlySpending r
       = map (fun k => {| name := k;
                          spending := bucket (monthRows h (survivors h csvContent)) k |})
             months.
Proof.
  intros Hr Hparse. destruct (parseCSV_Ok h csvContent r Hr) as [st [Hagg ->]].
  pose proof (agg_monthly _ _ _ Hagg) as Hm.
  set (rows := monthRows h (survivors h csvContent)) in *.
  set (m := monthlyMap st) in *.
  set (gt := fun a b : string * number =>
               laterThan (newDateParse h (fst a)) (newDateParse h (fst b))).
  set (sorted := sortBy gt m).
  assert (Hperm : Permutation sorted m) by apply sortBy_Permutation.
  assert (Hkey : forall a, In a m -> exists ta, newDateParse h (fst a) = Some ta).
  { intros a Ha.
    assert (Hin : In (fst a) (map fst rows))
      by (apply (holds_keys _ _ Hm); apply in_map; exact Ha).
    specialize (Hparse _ Hin).
    destruct (newDateParse h (fst a)) as [ta|]; [exists ta; reflexivity|contradiction]. }
  assert (Hsorted : StronglySorted
                      (fun a b => exists ta tb,
                           newDateParse h (fst a) = Some ta
                           /\ newDateParse h (fst b) = Some tb /\ ta <= tb) sorted).
  { apply sortBy_sorted.
    - intros a b c [ta [tb [Ha [Hb Hab]]]] [tb' [tc [Hb' [Hc Hbc]]]].
      rewrite Hb in Hb'. injection Hb' as <-.
      exists ta, tc. split; [exact Ha|]. split; [exact Hc|lia].
    - intros a b Ha Hb H. destruct (Hkey a Ha) as [ta Eta]. destruct (Hkey b Hb) as [tb Etb].
      unfold gt, laterThan in H. rewrite Eta, Etb in H. apply Z.ltb_lt in H.
      exists tb, ta. split; [exact Etb|]. split; [exact Eta|lia].
    - intros a b Ha Hb H. destruct (Hkey a Ha) as [ta Eta]. destruct (Hkey b Hb) as [tb Etb].
      unfold gt, laterThan in H. rewrite Eta, Etb in H. apply Z.ltb_ge in H.
      exists ta, tb. split; [exact Eta|]. split; [exact Etb|exact H]. }
  exists (map fst sorted). split; [|split; [|split]].
  - apply (Permutation_NoDup (l := map fst m));
      [symmetry; apply Permutation_map; exact Hperm|apply (holds_NoDup _ _ Hm)].
  - apply StronglySorted_map. exact Hsorted.
  - intros k. rewrite <- (holds_keys _ _ Hm k). split; intros Hk.
    + apply (Permutation_in _ (Permutation_map fst Hperm)). exact Hk.
    + apply (Permutation_in _ (Permutation_sym (Permutation_map fst Hperm))). exact Hk.
  - cbn [monthlySpending assemble]. unfold assembleMonthly. fold m.
    rewrite (sortBy_map (fun kv : string * number => {| name := fst kv; spending := snd kv |})
               gt _ m) by reflexivity.
    fold sorted. rewrite map_map.
    apply map_ext_in. intros [k v] Hin. cbn [fst snd]. f_equal.
    apply (holds_value _ _ Hm).
    apply mapGet_of_entry; [apply (holds_NoDup _ _ Hm)|].
    apply (Permutation_in _ Hperm). exact Hin.
Qed.

Lemma monthly_entries_in_month_order_witness :
  exists r months,
    parseCSV Reference.utc scenarioA = Ok r
    /\ NoDup months
    /\ StronglySorted
         (fun a b => exists ta tb, newDateParse Reference.utc a = Some ta
                                   /\ newDateParse Reference.utc b = Some tb /\ ta <= tb)
         months
    /\ (forall k, In k months
                  <-> In k (map fst (monthRows Reference.utc (survivors Reference.utc scenarioA))))
    /\ monthlySpending r
       = map (fun k => {| name := k;
                          spending := bucket (monthRows Reference.utc
                                                (survivors Reference.utc scenarioA)) k |})
             months.
Proof.
  destruct (monthly_entries_in_month_order Reference.utc scenarioA
              (assemble Reference.utc
                 match processLines Reference.utc (columnsOf scenarioA) initialState
                         (dataLines scenarioA) with
                 | Ok st => st
                 | Throw _ => initialState
                 end))
    as [months H].
  - vm_compute. reflexivity.
  - intros k Hin. vm_compute in Hin.
    destruct Hin as [<-|[<-|[]]]; vm_compute; discriminate.
  - eexists. exists months. split; [vm_compute; reflexivity|exact H].
Defined.

(** ** The dates of the transactions *)

Lemma parseCSV_dates h csvContent r :
  parseCSV h csvContent = Ok r ->
  map (fun tx => (date tx, amount tx)) (transactions r)
  = map (fun row => (datePart (isoString (fst row)), snd row)) (survivors h csvContent).
Proof.
  intros Hr.
  destruct (parseCSV_run h csvContent r Hr) as [st [lines [Hrun [Hsurv [_ ->]]]]].
  rewrite Hsurv. cbn [transactions assemble].
  apply (processLines_dates h _ lines initialState st Hrun).
Qed.

Lemma survivors_valid h csvContent :
  Forall (fun row => TimeClip (fst row) = Some (fst row)) (survivors h csvContent).
Proof.
  unfold survivors. destruct (_ || _); [constructor|apply keptRows_valid].
Qed.

(** X21. The date of every transaction of the result is the calendar day,
    in UTC and as [toISOString] prints it, of a time value in the range of
    [Date]: the year, a hyphen, the month on two digits, a hyphen and the day
    on two digits. *)
Theorem transaction_dates_are_iso_days h csvContent r tx :
  parseCSV h csvContent = Ok r ->
  In tx (transactions r) ->
  exists t,
    - maxTime <= t <= maxTime
    /\ date tx = isoYear (YearFromTime t) ++ "-"
                   ++ padStart0 2 (stringOfZ (MonthFromTime t + 1)) ++ "-"
                   ++ padStart0 2 (stringOfZ (DateFromTime t)).
Proof.
  intros Hr Hin.
  apply (in_map (fun tx => (date tx, amount tx))) in Hin.
  rewrite (parseCSV_dates h csvContent r Hr) in Hin.
  apply in_map_iff in Hin. destruct Hin as [row [E Hrow]].
  injection E as Hdate _.
  pose proof (survivors_valid h csvContent) as Hvalid.
  rewrite Forall_forall in Hvalid. specialize (Hvalid row Hrow).
  exists (fst row). split.
  - unfold TimeClip in Hvalid.
    destruct ((- maxTime <=? fst row) && (fst row <=? maxTime)) eqn:Hb; [|discriminate].
    apply andb_prop in Hb. destruct Hb as [H1 H2].
    apply Z.leb_le in H1. apply Z.leb_le in H2. split; assumption.
  - rewrite <- Hdate. apply datePart_isoString.
Qed.

Lemma transaction_dates_are_iso_days_witness :
  exists t,
    - maxTime <= t <= maxTime
    /\ "2024-01-05" = isoYear (YearFromTime t) ++ "-"
                        ++ padStart0 2 (stringOfZ (MonthFromTime t + 1)) ++ "-"
                        ++ padStart0 2 (stringOfZ (DateFromTime t)).
Proof.
  apply (transaction_dates_are_iso_days Reference.utc scenarioA
           (assemble Reference.utc
              match processLines Reference.utc (columnsOf scenarioA) initialState
                      (dataLines scenarioA) with
              | Ok st => st
              | Throw _ => initialState
              end)
           {| date := "2024-01-05"; description := "Coffee";
              amount := abs (parseAmount "-4.50") |}).
  - vm_compute. reflexivity.
  - vm_compute. left. reflexivity.
Defined.

(** X22. When the years of the kept rows have four digits (1000 to 9999),
    the key of the daily map is the date that is stored with the
    transaction: the entries of [dailySpending] carry the sums of the
    amounts of the transactions of the result, date by date. *)
Theorem daily_buckets_follow_the_transaction_dates h csvContent r :
  parseCSV h csvContent = Ok r ->
  (forall row, In row (survivors h csvContent) ->
               1000 <= YearFromTime (fst row) <= 9999) ->
  Permutation (map spending (dailySpending r))
              (bucketSums (map (fun tx => (date tx, amount tx)) (transactions r))).
Proof.
  intros Hr Hyears. rewrite (parseCSV_dates h csvContent r Hr).
  destruct (parseCSV_Ok h csvContent r Hr) as [st [Hagg ->]].
  destruct (assemble_buckets h _ st Hagg) as [_ [_ [Hda _]]].
  rewrite Hda. unfold dayRows.
  rewrite (map_ext_in (fun row : Z * number => (dayKey (fst row), snd row))
             (fun row => (datePart (isoString (fst row)), snd row))).
  - reflexivity.
  - intros row Hrow. rewrite (dayKey_datePart _ (Hyears row Hrow)). reflexivity.
Qed.

Lemma daily_buckets_follow_the_transaction_dates_witness :
  exists r, parseCSV Reference.utc scenarioA = Ok r
    /\ Permutation (map spending (dailySpending r))
                   (bucketSums (map (fun tx => (date tx, amount tx)) (transactions r))).
Proof.
  eexists. split; [vm_compute; reflexivity|].
  apply (daily_buckets_follow_the_transaction_dates Reference.utc scenarioA).
  - vm_compute. reflexivity.
  - intros row Hin. vm_compute in Hin.
    destruct Hin as [<-|[<-|[]]]; vm_compute; split; discriminate.
Defined.

(** ** The week number *)

Module WeekNumbers.

(** The first of January of the year of a day is at most 365 days before
    it. *)
Lemma day_of_year_range z :
  0 <= z - daysFromCivil (fst (fst (civilFromDays z))) 1 1 <= 365.
Proof.
  unfold civilFromDays, daysFromCivil. cbv zeta. cbn [fst snd].
  change (1 <=? 2) with true. change (2 <? 1) with false. cbv iota.
  change ((153 * (1 + 9) + 2) / 5 + 1 - 1) with 306.
  set (era := (z + 719468) / 146097).
  set (doe := (z + 719468) mod 146097).
  assert (Hdoe : 0 <= doe < 146097) by (subst doe; apply Z.mod_pos_bound; lia).
  assert (Hz : z + 719468 = 146097 * era + doe)
    by (subst era doe; apply Z.div_mod; lia).
  destruct (year_of_era_range doe Hdoe) as [Hyoe Hdoy].
  set (yoe := (doe - doe / 1460 + doe / 36524 - doe / 146096) / 365) in *.
  set (doy := doe - (365 * yoe + yoe / 4 - yoe / 100)) in *.
  set (mp := (5 * doy + 2) / 153).
  assert (Hmp : 0 <= mp <= 11) by (subst mp; Z.div_mod_to_equations; lia).
  assert (Hmp' : (mp < 10 <-> doy < 306)) by (subst mp; Z.div_mod_to_equations; lia).
  set (m := if mp <? 10 then mp + 3 else mp - 9).
  assert (Hm : (if m <=? 2 then 1 else 0) = (if mp <? 10 then 0 else 1)).
  { subst m. destruct (mp <? 10) eqn:E.
    - apply Z.ltb_lt in E.
      replace (mp + 3 <=? 2) with false by (symmetry; apply Z.leb_gt; lia). reflexivity.
    - apply Z.ltb_ge in E.
      replace (mp - 9 <=? 2) with true by (symmetry; apply Z.leb_le; lia). reflexivity. }
  rewrite Hm.
  destruct (mp <? 10) eqn:E.
  - apply Z.ltb_lt in E. rewrite Z.add_0_r.
    destruct (Z.eq_dec yoe 0) as [Hz0|Hnz].
    + assert (Hera : (yoe + era * 400 - 1) / 400 = era - 1)
        by (symmetry; apply (Z.div_unique _ _ _ 399); lia).
      assert (Hyoe' : (yoe + era * 400 - 1) mod 400 = 399)
        by (symmetry; apply (Z.mod_unique _ _ (era - 1)); lia).
      rewrite Hera, Hyoe'. change (399 / 4) with 99. change (399 / 100) with 3.
      subst doy. rewrite Hz0 in *. change (0 / 4) with 0 in *. change (0 / 100) with 0 in *.
      lia.
    + assert (Hera : (yoe + era * 400 - 1) / 400 = era)
        by (symmetry; apply (Z.div_unique _ _ _ (yoe - 1)); lia).
      assert (Hyoe' : (yoe + era * 400 - 1) mod 400 = yoe - 1)
        by (symmetry; apply (Z.mod_unique _ _ era); lia).
      rewrite Hera, Hyoe'. subst doy. Z.div_mod_to_equations. lia.
  - apply Z.ltb_ge in E.
    replace (yoe + era * 400 + 1 - 1) with (yoe + era * 400) by lia.
    assert (Hera : (yoe + era * 400) / 400 = era)
      by (symmetry; apply (Z.div_unique _ _ _ yoe); lia).
    assert (Hyoe' : (yoe + era * 400) mod 400 = yoe)
      by (symmetry; apply (Z.mod_unique _ _ era); lia).
    rewrite Hera, Hyoe'. subst doy. lia.
Qed.

(** The arithmetic of lines 56 and 57 on a whole number of days, for every
    day of the year and every day of the week: the quotient and the sums are
    exact, and the last quotient is rounded up. *)
Lemma pointwise {A} (f g : Z -> A) (count : nat) (n : Z) :
  map (fun k => f (Z.of_nat k)) (seq 0 count) = map (fun k => g (Z.of_nat k)) (seq 0 count) ->
  0 <= n < Z.of_nat count -> f n = g n.
Proof.
  intros H Hn. rewrite map_ext_in_iff in H. specialize (H (Z.to_nat n)).
  rewrite Z2Nat.id in H by lia. apply H. apply in_seq. lia.
Qed.

Lemma whole_days_quotient n :
  0 <= n <= 365 -> div (ofZ (n * 86400000)) (ofZ 86400000) = ofZ n.
Proof.
  intros Hn.
  apply (pointwise (fun k => div (ofZ (k * 86400000)) (ofZ 86400000)) ofZ (Z.to_nat 366));
    [vm_compute; reflexivity|lia].
Qed.

Lemma small_sum a b :
  0 <= a <= 372 -> 0 <= b <= 6 -> add (ofZ a) (ofZ b) = ofZ (a + b).
Proof.
  intros Ha Hb.
  assert (H : forall c, In c [0; 1; 2; 3; 4; 5; 6] -> add (ofZ a) (ofZ c) = ofZ (a + c)).
  { intros c Hc.
    destruct Hc as [<-|[<-|[<-|[<-|[<-|[<-|[<-|[]]]]]]]];
      (apply (pointwise (fun k => add (ofZ k) (ofZ _)) (fun k => ofZ (k + _))
                (Z.to_nat 373)); [vm_compute; reflexivity|lia]). }
  apply H. cbn [In]. lia.
Qed.

Lemma weeks_rounded_up k :
  1 <= k <= 373 -> ceil (div (ofZ k) (ofZ 7)) = ofZ ((k + 6) / 7).
Proof.
  intros Hk.
  apply (pointwise (fun k => ceil (div (ofZ k) (ofZ 7))) (fun k => ofZ ((k + 6) / 7))
           (Z.to_nat 374)); [vm_compute; reflexivity|lia].
Qed.

Lemma whole_days n wd :
  0 <= n <= 365 -> 0 <= wd <= 6 ->
  ceil (div (add (add (div (ofZ (n * 86400000)) (ofZ 86400000)) (ofZ wd)) (ofZ 1)) (ofZ 7))
  = ofZ ((n + wd + 7) / 7).
Proof.
  intros Hn Hwd.
  rewrite (whole_days_quotient n Hn), (small_sum n wd) by lia.
  rewrite (small_sum (n + wd) 1) by lia.
  rewrite weeks_rounded_up by lia. f_equal. f_equal. lia.
Qed.

Lemma day_of_year t :
  0 <= Day t - daysFromCivil (YearFromTime t) 1 1 <= 365.
Proof. unfold YearFromTime. apply day_of_year_range. Qed.

(** The first of January that [new Date(year, 0, 1)] builds, on a host at
    a fixed offset. *)
Lemma newDateLocal_first h offset year firstDayOfYear :
  (forall u b, LocalTZA h u b = offset) ->
  ~ (0 <= year <= 99) ->
  newDateLocal h year 0 1 = Some firstDayOfYear ->
  LocalTime h firstDayOfYear = daysFromCivil year 1 1 * msPerDay.
Proof.
  intros Hoff Hyear Hfirst. unfold newDateLocal in Hfirst.
  replace ((0 <=? year) && (year <=? 99)) with false in Hfirst.
  2:{ symmetry. apply andb_false_iff.
      destruct (Z_le_gt_dec 0 year) as [H0|H0].
      - right. apply Z.leb_gt. lia.
      - left. apply Z.leb_gt. lia. }
  unfold TimeClip in Hfirst.
  destruct ((- maxTime <=? _) && (_ <=? maxTime)); [|discriminate].
  injection Hfirst as Hfirst.
  unfold UTC, MakeDate, MakeDay in Hfirst. rewrite Hoff in Hfirst.
  change (0 + 1) with 1 in Hfirst.
  unfold LocalTime. rewrite Hoff. lia.
Qed.

Lemma getWeekNumber_unfold h t firstDayOfYear :
  newDateLocal h (getFullYear h t) 0 1 = Some firstDayOfYear ->
  getWeekNumber h (Some t)
  = ceil (div (add (add (div (ofZ (t - firstDayOfYear)) (ofZ 86400000))
                        (ofZ (getDay h firstDayOfYear))) (ofZ 1)) (ofZ 7)).
Proof. intros Hfirst. unfold getWeekNumber. rewrite Hfirst. reflexivity. Qed.

Lemma getWeekNumber_invalid h t :
  newDateLocal h (getFullYear h t) 0 1 = None -> getWeekNumber h (Some t) = NaN.
Proof. intros Hfirst. unfold getWeekNumber. rewrite Hfirst. reflexivity. Qed.

End WeekNumbers.

(** X23. On a host at a fixed offset from UTC, for a date at a local
    midnight in a year outside 0 to 99: when the first of January of the
    local year, at local midnight, is a valid date, [getWeekNumber] counts
    the days [n] since that date and returns [ceil((n + d + 1) / 7)], where
    [d] is the day of the week of that first of January: a whole number
    from 1 to 54, and 1 on the first of January; when that first of January
    is not a valid date, as in the earliest year that a date can have,
    [getWeekNumber] returns NaN. *)
Theorem week_number_at_local_midnight h offset t :
  (forall u b, LocalTZA h u b = offset) ->
  TimeWithinDay (LocalTime h t) = 0 ->
  ~ (0 <= getFullYear h t <= 99) ->
  match newDateLocal h (getFullYear h t) 0 1 with
  | Some firstDayOfYear =>
      exists n,
        n = Day (LocalTime h t) - Day (LocalTime h firstDayOfYear)
        /\ 0 <= n <= 365
        /\ getWeekNumber h (Some t) = ofZ ((n + getDay h firstDayOfYear + 7) / 7)
        /\ 1 <= (n + getDay h firstDayOfYear + 7) / 7 <= 54
        /\ (n = 0 -> getWeekNumber h (Some t) = ofZ 1)
  | None => getWeekNumber h (Some t) = NaN
  end.
Proof.
  intros Hoff Hmid Hyear.
  destruct (newDateLocal h (getFullYear h t) 0 1) as [firstDayOfYear|] eqn:Hfirst;
    [|apply (WeekNumbers.getWeekNumber_invalid h t Hfirst)].
  rewrite (WeekNumbers.getWeekNumber_unfold h t firstDayOfYear Hfirst).
  pose proof (WeekNumbers.newDateLocal_first h offset _ _ Hoff Hyear Hfirst) as Hlocal.
  pose proof (WeekNumbers.day_of_year (LocalTime h t)) as Hn.
  unfold getFullYear in Hlocal.
  set (D0 := daysFromCivil (YearFromTime (LocalTime h t)) 1 1) in *.
  assert (Hday0 : Day (LocalTime h firstDayOfYear) = D0).
  { rewrite Hlocal. unfold Day. apply Z.div_mul. discriminate. }
  assert (Hd : 0 <= getDay h firstDayOfYear <= 6).
  { assert (0 <= getDay h firstDayOfYear < 7)
      by (unfold getDay, WeekDay; apply Z.mod_pos_bound; lia).
    lia. }
  assert (Hdiff : t - firstDayOfYear = (Day (LocalTime h t) - D0) * 86400000).
  { pose proof (time_decomposition (LocalTime h t)) as Hdec.
    rewrite Hmid in Hdec. unfold LocalTime in Hdec at 1, Hlocal. rewrite Hoff in Hdec, Hlocal.
    unfold msPerDay in *. lia. }
  rewrite Hdiff, Hday0.
  set (n := Day (LocalTime h t) - D0) in *.
  set (d := getDay h firstDayOfYear) in *.
  exists n. split; [reflexivity|]. split; [exact Hn|].
  rewrite (WeekNumbers.whole_days n d Hn Hd).
  split; [reflexivity|].
  split; [Z.div_mod_to_equations; lia|].
  intros Hn0. f_equal. rewrite Hn0. Z.div_mod_to_equations. lia.
Qed.

Lemma week_number_at_local_midnight_witness :
  (exists n,
     n = Day (LocalTime Reference.utc 1709510400000)
         - Day (LocalTime Reference.utc 1704067200000)
     /\ 0 <= n <= 365
     /\ getWeekNumber Reference.utc (Some 1709510400000)
        = ofZ ((n + getDay Reference.utc 1704067200000 + 7) / 7)
     /\ 1 <= (n + getDay Reference.utc 1704067200000 + 7) / 7 <= 54
     /\ (n = 0 -> getWeekNumber Reference.utc (Some 1709510400000) = ofZ 1))
  /\ getWeekNumber Reference.utc (Some (- maxTime)) = NaN.
Proof.
  split.
  - assert (Hfirst : newDateLocal Reference.utc (getFullYear Reference.utc 1709510400000) 0 1
                     = Some 1704067200000) by (vm_compute; reflexivity).
    assert (H : TimeWithinDay (LocalTime Reference.utc 1709510400000) = 0
                /\ ~ (0 <= getFullYear Reference.utc 1709510400000 <= 99)).
    { split; [vm_compute; reflexivity|].
      vm_compute. intros [_ H]. apply H. reflexivity. }
    destruct H as [Hmid Hyear].
    pose proof (week_number_at_local_midnight Reference.utc 0 1709510400000
                  (fun _ _ => eq_refl) Hmid Hyear) as H.
    rewrite Hfirst in H. exact H.
  - assert (Hfirst : newDateLocal Reference.utc (getFullYear Reference.utc (- maxTime)) 0 1
                     = None) by (vm_compute; reflexivity).
    assert (H : TimeWithinDay (LocalTime Reference.utc (- maxTime)) = 0
                /\ ~ (0 <= getFullYear Reference.utc (- maxTime) <= 99)).
    { split; [vm_compute; reflexivity|].
      vm_compute. intros [H _]. apply H. reflexivity. }
    destruct H as [Hmid Hyear].
    pose proof (week_number_at_local_midnight Reference.utc 0 (- maxTime)
                  (fun _ _ => eq_refl) Hmid Hyear) as H.
    rewrite Hfirst in H. exact H.
Defined.

(** ** The labels of the weeks and of the days *)

Module Labels.

Lemma weekLabel_unfold h wd weekEnd :
  setDate h (startDate wd) (getDate h (startDate wd) + 6) = Some weekEnd ->
  weekLabel h wd
  = monthDayLabel h (startDate wd) ++ " - " ++ stringOfZ (getDate h weekEnd).
Proof. intros H. unfold weekLabel. rewrite H. reflexivity. Qed.

Lemma weekLabel_invalid h wd :
  setDate h (startDate wd) (getDate h (startDate wd) + 6) = None ->
  weekLabel h wd = monthDayLabel h (startDate wd) ++ " - " ++ "NaN".
Proof. intros H. unfold weekLabel. rewrite H. reflexivity. Qed.

Lemma dayLabel_unfold h dateKey t :
  newDateParse h dateKey = Some t ->
  dayLabel h dateKey
  = nth (Z.to_nat (MonthFromTime t)) monthNames "undefined" ++ " "
      ++ stringOfZ (DateFromTime t).
Proof. intros H. unfold dayLabel. rewrite H. reflexivity. Qed.

Lemma month_range z : 1 <= snd (fst (civilFromDays z)) <= 12.
Proof.
  unfold civilFromDays. cbv zeta. cbn [fst snd].
  set (doe := (z + 719468) mod 146097).
  assert (Hdoe : 0 <= doe < 146097) by (subst doe; apply Z.mod_pos_bound; lia).
  destruct (year_of_era_range doe Hdoe) as [Hyoe Hdoy].
  set (yoe := (doe - doe / 1460 + doe / 36524 - doe / 146096) / 365) in *.
  set (doy := doe - (365 * yoe + yoe / 4 - yoe / 100)) in *.
  set (mp := (5 * doy + 2) / 153).
  assert (Hmp : 0 <= mp <= 11) by (subst mp; Z.div_mod_to_equations; lia).
  destruct (mp <? 10) eqn:E; [apply Z.ltb_lt in E|apply Z.ltb_ge in E]; lia.
Qed.

Lemma MonthFromTime_range t : 0 <= MonthFromTime t <= 11.
Proof. unfold MonthFromTime. pose proof (month_range (Day t)). lia. Qed.

(** The start of the day of a time value in range is in range. *)
Lemma day_start_valid t :
  TimeClip t = Some t -> TimeClip (Day t * msPerDay) = Some (Day t * msPerDay).
Proof.
  unfold TimeClip.
  destruct ((- maxTime <=? t) && (t <=? maxTime)) eqn:E; [|discriminate]. intros _.
  apply andb_prop in E. destruct E as [H1 H2].
  apply Z.leb_le in H1. apply Z.leb_le in H2.
  assert (Hd : - maxTime <= Day t * msPerDay <= maxTime)
    by (unfold Day, maxTime, msPerDay in *; Z.div_mod_to_equations; lia).
  replace (- maxTime <=? Day t * msPerDay) with true by (symmetry; apply Z.leb_le; lia).
  replace (Day t * msPerDay <=? maxTime) with true by (symmetry; apply Z.leb_le; lia).
  reflexivity.
Qed.

Lemma Day_start t : Day (Day t * msPerDay) = Day t.
Proof. unfold Day at 1. apply Z.div_mul. discriminate. Qed.

End Labels.

(** X24. On a host at a fixed offset from UTC the label of a week is the
    host's label of its start date, a dash and an end: when the time six
    days after the start date is within the range of time values, the end
    is the day of the month that the local calendar shows at that time,
    without its month; when it is not, the end is the text NaN.  For a week
    that starts on a local Monday the day six days later is a Sunday. *)
Theorem week_label_ends_six_days_later h offset wd :
  (forall u b, LocalTZA h u b = offset) ->
  weekLabel h wd
  = monthDayLabel h (startDate wd) ++ " - "
      ++ (if (- maxTime <=? startDate wd + 6 * msPerDay)
             && (startDate wd + 6 * msPerDay <=? maxTime)
          then stringOfZ (DateFromTime (LocalTime h (startDate wd) + 6 * msPerDay))
          else "NaN")
  /\ (getDay h (startDate wd) = 1 ->
      WeekDay (LocalTime h (startDate wd) + 6 * msPerDay) = 0).
Proof.
  intros Hoff. split.
  - assert (Hend : setDate h (startDate wd) (getDate h (startDate wd) + 6)
                   = TimeClip (startDate wd + 6 * msPerDay)).
    { rewrite setDate_shift.
      replace (getDate h (startDate wd) + 6 - getDate h (startDate wd)) with 6 by lia.
      unfold UTC, LocalTime. rewrite !Hoff.
      replace (startDate wd + offset + 6 * msPerDay - offset)
        with (startDate wd + 6 * msPerDay) by ring.
      reflexivity. }
    unfold TimeClip in Hend.
    destruct ((- maxTime <=? startDate wd + 6 * msPerDay)
              && (startDate wd + 6 * msPerDay <=? maxTime)).
    + rewrite (Labels.weekLabel_unfold h wd _ Hend). unfold getDate.
      replace (LocalTime h (startDate wd + 6 * msPerDay))
        with (LocalTime h (startDate wd) + 6 * msPerDay)
        by (unfold LocalTime; rewrite !Hoff; ring).
      reflexivity.
    + apply (Labels.weekLabel_invalid h wd Hend).
  - unfold getDay, WeekDay, Day. intros Hmon.
    rewrite Z.div_add by discriminate. Z.div_mod_to_equations. lia.
Qed.

Lemma week_label_ends_six_days_later_witness :
  (weekLabel Reference.utc {| weekSpending := zero; startDate := 1708905600000 |}
   = "Feb 26 - 3"
   /\ (getDay Reference.utc 1708905600000 = 1 ->
       WeekDay (LocalTime Reference.utc 1708905600000 + 6 * msPerDay) = 0))
  /\ (weekLabel Reference.utc
        {| weekSpending := zero; startDate := maxTime - 5 * msPerDay |}
      = "Sep 8 - NaN"
      /\ (getDay Reference.utc (maxTime - 5 * msPerDay) = 1 ->
          WeekDay (LocalTime Reference.utc (maxTime - 5 * msPerDay) + 6 * msPerDay) = 0)).
Proof.
  split.
  - pose proof (week_label_ends_six_days_later Reference.utc 0
                  {| weekSpending := zero; startDate := 1708905600000 |}
                  (fun _ _ => eq_refl)) as [Hlabel Hsunday].
    split; [|exact Hsunday].
    rewrite Hlabel. vm_compute. reflexivity.
  - pose proof (week_label_ends_six_days_later Reference.utc 0
                  {| weekSpending := zero; startDate := maxTime - 5 * msPerDay |}
                  (fun _ _ => eq_refl)) as [Hlabel Hsunday].
    split; [|exact Hsunday].
    rewrite Hlabel. vm_compute. reflexivity.
Defined.

(** The last week that a date can start: its label has no end day. *)
Example last_week_label :
  exists r, parseCSV Reference.utc latestWeekInput = Ok r
    /\ map name (weeklySpending r) = ["Sep 8 - NaN"].
Proof. eexists. split; vm_compute; reflexivity. Qed.

(** X25. When [Date.parse] reads the key of a day as the midnight (UTC)
    that starts the day, as the standard prescribes for a date without a
    time, the label of the day names the month and the day of the month, in
    UTC, of the rows filed under the key; the month is always one of the
    twelve names. *)
Theorem day_label_shows_the_utc_day h t :
  TimeClip t = Some t ->
  dateParse h (dayKey t) = Some (Day t * msPerDay) ->
  (Z.to_nat (MonthFromTime t) < List.length monthNames)%nat
  /\ dayLabel h (dayKey t)
     = nth (Z.to_nat (MonthFromTime t)) monthNames "undefined" ++ " "
         ++ stringOfZ (DateFromTime t).
Proof.
  intros Hvalid Hparse. split.
  - pose proof (Labels.MonthFromTime_range t). cbn [List.length monthNames]. lia.
  - assert (Hnew : newDateParse h (dayKey t) = Some (Day t * msPerDay)).
    { unfold newDateParse. rewrite Hparse. apply Labels.day_start_valid. exact Hvalid. }
    rewrite (Labels.dayLabel_unfold h _ _ Hnew).
    unfold MonthFromTime, DateFromTime. rewrite Labels.Day_start. reflexivity.
Qed.

Lemma day_label_shows_the_utc_day_witness :
  (Z.to_nat (MonthFromTime 1709514000000) < List.length monthNames)%nat
  /\ dayLabel Reference.utc (dayKey 1709514000000)
     = nth (Z.to_nat (MonthFromTime 1709514000000)) monthNames "undefined" ++ " "
         ++ stringOfZ (DateFromTime 1709514000000).
Proof.
  apply (day_label_shows_the_utc_day Reference.utc 1709514000000).
  - vm_compute. reflexivity.
  - vm_compute. reflexivity.
Defined.
